(** * Retailer filter test: explorer, collector and verifier

    A shallow embedding of [playwright_prism_retailer_point.py], and
    proofs about its three parts: the explorer of the filter hierarchy
    ([build_complete_filter_chains]), the two collectors of table pages
    ([get_first_and_last_page_data], [get_all_pages_data]) and the
    verifier ([verify_filters]).

    Python values are modelled as follows.
    - A [str] is a Rocq [string] of ASCII characters; a code above 127
      stands for a printable symbol without case, blank or digit value.
    - A [dict] built from a literal with fixed keys is a Rocq record
      (table rows, filter chains, verification reports).
    - The [filters] argument of [verify_filters] is iterated in insertion
      order, so it is the list of its items.
    - A [set] of strings is a [gset string].
    - A float is a binary64 float of Rocq.
    - The browser page is an abstract state; every Playwright call is a
      state transformer that may raise.  [print] has no model.
    - [while True] runs on fuel.

    The file has three parts: the script, the definitions the statements
    need, and the proofs. *)

From Stdlib Require Import ZArith Ascii String List PrimFloat Uint63.
From stdpp Require Import base gmap strings list.

Local Open Scope string_scope.
Local Open Scope nat_scope.
Local Open Scope list_scope.

(** ** Python strings *)

Module PyStr.

Definition code (c : ascii) : nat := nat_of_ascii c.

(** [str.isspace] on one character. *)
Definition isspace (c : ascii) : bool :=
  let n := code c in
  ((9 <=? n) && (n <=? 13)) || ((28 <=? n) && (n <=? 32)).

Fixpoint lstrip (s : string) : string :=
  match s with
  | String c s' => if isspace c then lstrip s' else s
  | EmptyString => EmptyString
  end.

Fixpoint rstrip (s : string) : string :=
  match s with
  | String c s' =>
      match rstrip s' with
      | EmptyString => if isspace c then EmptyString else String c EmptyString
      | t => String c t
      end
  | EmptyString => EmptyString
  end.

(** [s.strip()] *)
Definition strip (s : string) : string := rstrip (lstrip s).

Definition lower_char (c : ascii) : ascii :=
  let n := code c in
  if (65 <=? n) && (n <=? 90) then ascii_of_nat (n + 32) else c.

(** [s.lower()] *)
Fixpoint lower (s : string) : string :=
  match s with
  | String c s' => String (lower_char c) (lower s')
  | EmptyString => EmptyString
  end.

(** [b.startswith(a)] *)
Fixpoint startswith (b a : string) {struct a} : bool :=
  match a with
  | EmptyString => true
  | String c a' =>
      match b with
      | String d b' => Ascii.eqb c d && startswith b' a'
      | EmptyString => false
      end
  end.

(** [a in b] for two strings: [a] occurs in [b] as a substring. *)
Fixpoint contains (a b : string) : bool :=
  startswith b a ||
  match b with
  | String _ b' => contains a b'
  | EmptyString => false
  end.

(** Truth value of a string: [if text]. *)
Definition truthy (s : string) : bool :=
  match s with EmptyString => false | _ => true end.

Definition isdigit_char (c : ascii) : bool :=
  let n := code c in
  (48 <=? n) && (n <=? 57).

Fixpoint all_chars (f : ascii -> bool) (s : string) : bool :=
  match s with
  | String c s' => f c && all_chars f s'
  | EmptyString => true
  end.

(** [s.isdigit()] *)
Definition isdigit (s : string) : bool := truthy s && all_chars isdigit_char s.

Definition decimal_char (c : ascii) : option Z :=
  let n := code c in
  if (48 <=? n) && (n <=? 57) then Some (Z.of_nat (n - 48)) else None.

Fixpoint int_acc (acc : Z) (s : string) : option Z :=
  match s with
  | String c s' =>
      match decimal_char c with
      | Some d => int_acc (10 * acc + d) s'
      | None => None
      end
  | EmptyString => Some acc
  end.

(** [int(s)] on a string without sign or blanks; [None] is [ValueError]. *)
Definition int (s : string) : option Z :=
  match s with
  | EmptyString => None
  | _ => int_acc 0 s
  end.

(** *** [repr] of a string *)

Definition quote1 : ascii := "'"%char.
Definition quote2 : ascii := ascii_of_nat 34.
Definition backslash : ascii := "\"%char.

Fixpoint mem_char (c : ascii) (s : string) : bool :=
  match s with
  | String d s' => Ascii.eqb c d || mem_char c s'
  | EmptyString => false
  end.

Definition repr_quote (s : string) : ascii :=
  if mem_char quote1 s && negb (mem_char quote2 s) then quote2 else quote1.

Definition hex_digit (n : nat) : ascii :=
  if n <? 10 then ascii_of_nat (48 + n) else ascii_of_nat (87 + n).

Definition printable (c : ascii) : bool :=
  let n := code c in
  (32 <=? n) && negb (n =? 127).

Definition repr_char (q c : ascii) (rest : string) : string :=
  let n := code c in
  if Ascii.eqb c q || Ascii.eqb c backslash then String backslash (String c rest)
  else if n =? 9 then String backslash (String "t" rest)
  else if n =? 10 then String backslash (String "n" rest)
  else if n =? 13 then String backslash (String "r" rest)
  else if printable c then String c rest
  else String backslash
         (String "x" (String (hex_digit (n / 16)) (String (hex_digit (n mod 16)) rest))).

Fixpoint repr_body (q : ascii) (s : string) (rest : string) : string :=
  match s with
  | String c s' => repr_char q c (repr_body q s' rest)
  | EmptyString => rest
  end.

(** [repr(s) + rest] *)
Definition repr_then (s : string) (rest : string) : string :=
  let q := repr_quote s in
  String q (repr_body q s (String q rest)).

Definition repr (s : string) : string := repr_then s "".

End PyStr.

(** ** Data model *)

(** A table row, the dict literal built by [get_table_data]. *)
Record Row : Type := mkRow {
  r_name : string;
  r_code : string;
  r_region : string;
  r_area : string;
  r_distributor : string;
  r_territory : string;
  r_point : string
}.

(** A complete filter chain, the dict literal appended by
    [build_complete_filter_chains]. *)
Record FilterChain : Type := mkChain {
  c_region : string;
  c_area : string;
  c_distributor : string;
  c_territory : string;
  c_point : string
}.

(** A Python number: [0] and [50.0] are different objects. *)
Inductive PyNum : Type :=
  | PyInt (z : Z)
  | PyFloat (f : float).

Record Compliance : Type := mkCompliance {
  compliant : nat;
  total : nat;
  percentage : PyNum
}.

Record InvalidRecord : Type := mkInvalid {
  record : Row;
  issues : list string
}.

Record VerificationResult : Type := mkResult {
  total_records : nat;
  valid_records : nat;
  invalid_records : list InvalidRecord;
  filter_compliance : gmap string Compliance
}.

(** ** Dicts with string keys, as their items in insertion order *)

Module Dict.

Fixpoint get {V : Type} (d : list (string * V)) (k : string) : option V :=
  match d with
  | (k', v) :: d' => if String.eqb k k' then Some v else get d' k
  | [] => None
  end.

Definition keys {V : Type} (d : list (string * V)) : list string := map fst d.

(** [d.get(k, default)] *)
Definition get_default (d : list (string * string)) (k default : string) : string :=
  match get d k with
  | Some v => v
  | None => default
  end.

Fixpoint items_str (d : list (string * string)) (rest : string) : string :=
  match d with
  | [] => rest
  | (k, v) :: d' =>
      PyStr.repr_then k
        (": " +:+ PyStr.repr_then v
           (match d' with
            | [] => rest
            | _ :: _ => ", " +:+ items_str d' rest
            end))
  end.

(** [str(d)] *)
Definition str (d : list (string * string)) : string :=
  "{" +:+ items_str d "}".

End Dict.

Definition Row_items (r : Row) : list (string * string) :=
  [("name", r_name r); ("code", r_code r); ("region", r_region r);
   ("area", r_area r); ("distributor", r_distributor r);
   ("territory", r_territory r); ("point", r_point r)].

Definition Chain_items (c : FilterChain) : list (string * string) :=
  [("region", c_region c); ("area", c_area c);
   ("distributor", c_distributor c); ("territory", c_territory c);
   ("point", c_point c)].

(** [str(row)], the key under which the collectors remember a row. *)
Definition str_row (r : Row) : string := Dict.str (Row_items r).

(** [record.get(field, default)] *)
Definition Row_get (r : Row) (field default : string) : string :=
  Dict.get_default (Row_items r) field default.

(** ** Compliance verifier *)

Definition filter_mapping : list (string * string) :=
  [("region", "region"); ("area", "area"); ("distributor", "distributor");
   ("territory", "territory"); ("point", "point")].

Definition issue_message (filter_key filter_value record_value : string) : string :=
  filter_key +:+ ": expected '" +:+ filter_value +:+ "', got '" +:+ record_value +:+ "'".

(** The inner loop of [verify_filters] over [filters.items()]:
    the pair is [(is_valid, record_issues)]. *)
Definition check_filter (rec : Row) (st : bool * list string)
    (item : string * string) : bool * list string :=
  let '(is_valid, record_issues) := st in
  let '(filter_key, filter_value) := item in
  match Dict.get filter_mapping filter_key with
  | Some record_field =>
      let record_value := PyStr.strip (Row_get rec record_field "") in
      if negb (PyStr.contains (PyStr.lower filter_value) (PyStr.lower record_value))
      then (false, record_issues ++ [issue_message filter_key filter_value record_value])
      else (is_valid, record_issues)
  | None => (is_valid, record_issues)
  end.

Definition check_record (filters : list (string * string)) (rec : Row)
    : bool * list string :=
  fold_left (check_filter rec) filters (true, []).

(** One pass of the loop [for record in data]. *)
Definition verify_record (filters : list (string * string))
    (verification_result : VerificationResult) (rec : Row) : VerificationResult :=
  let '(is_valid, record_issues) := check_record filters rec in
  if is_valid then
    mkResult (total_records verification_result)
             (valid_records verification_result + 1)
             (invalid_records verification_result)
             (filter_compliance verification_result)
  else
    mkResult (total_records verification_result)
             (valid_records verification_result)
             (invalid_records verification_result ++ [mkInvalid rec record_issues])
             (filter_compliance verification_result).

(** Conversion of a Python int to a float, exact below [2^53]. *)
Definition float_of_nat (n : nat) : float :=
  PrimFloat.of_uint63 (Uint63.of_Z (Z.of_nat n)).

(** [sum(1 for record in data if filter_value.lower() in
    record.get(field, '').lower())] *)
Definition compliant_count (data : list Row) (filter_value record_field : string) : nat :=
  list_sum
    (map (fun _ => 1)
       (List.filter
          (fun rec => PyStr.contains (PyStr.lower filter_value)
                        (PyStr.lower (Row_get rec record_field "")))
          data)).

(** [(compliant_count / len(data) * 100) if data else 0] *)
Definition percentage_of (compliant_count : nat) (data : list Row) : PyNum :=
  match data with
  | _ :: _ =>
      PyFloat (PrimFloat.mul
                 (PrimFloat.div (float_of_nat compliant_count)
                                (float_of_nat (length data)))
                 (float_of_nat 100))
  | [] => PyInt 0
  end.

(** One pass of the loop [for filter_key in filters.keys()].  The lookup
    [filters[filter_key]] cannot fail, the key comes from [filters]. *)
Definition compliance_step (data : list Row) (filters : list (string * string))
    (verification_result : VerificationResult) (filter_key : string)
    : VerificationResult :=
  match Dict.get filter_mapping filter_key, Dict.get filters filter_key with
  | Some record_field, Some filter_value =>
      let count := compliant_count data filter_value record_field in
      mkResult (total_records verification_result)
               (valid_records verification_result)
               (invalid_records verification_result)
               (<[filter_key := mkCompliance count (length data)
                                  (percentage_of count data)]>
                  (filter_compliance verification_result))
  | _, _ => verification_result
  end.

Definition verify_filters (data : list Row) (filters : list (string * string))
    : VerificationResult :=
  let verification_result := mkResult (length data) 0 [] ∅ in
  let verification_result :=
    fold_left (verify_record filters) data verification_result in
  fold_left (compliance_step data filters) (Dict.keys filters) verification_result.

(** ** The browser *)

(** A Playwright locator: a description of elements, resolved at each use. *)
Inductive Locator : Type :=
  | Css (selector : string)                   (* page.locator(selector) *)
  | Textbox (name : string)                   (* page.get_by_role(textbox, name) *)
  | Nth (l : Locator) (i : nat)               (* l.nth(i), the items of l.all() *)
  | Within (l : Locator) (selector : string). (* l.locator(selector) *)

Inductive Outcome (A : Type) : Type :=
  | Ok (a : A)
  | Raise.

Arguments Ok {A} a.
Arguments Raise {A}.

(** A call on the page: the next page state, and a value or an exception. *)
Definition M (Page A : Type) : Type := Page -> Page * Outcome A.

(** The Playwright calls the script makes.  Times are in milliseconds. *)
Class Playwright (Page : Type) : Type := {
  sleep : N -> Page -> Page;
  page_wait_for_selector : string -> option string -> N -> M Page unit;
  keyboard_press : string -> M Page unit;
  mouse_wheel : Z -> Z -> M Page unit;
  click : Locator -> M Page unit;
  count : Locator -> M Page nat;
  is_visible : Locator -> M Page bool;
  inner_text : Locator -> M Page string;
  get_attribute : Locator -> string -> M Page (option string);
  scroll_into_view_if_needed : Locator -> M Page unit;
  (* whether [element_handle()] returned a handle *)
  element_handle : Locator -> M Page bool;
  (* page.evaluate of a click on the handle of the locator *)
  evaluate_click : Locator -> M Page unit
}.

Definition ret {Page A : Type} (a : A) : M Page A := fun p => (p, Ok a).

Definition raise {Page A : Type} : M Page A := fun p => (p, Raise).

Definition bind {Page A B : Type} (m : M Page A) (k : A -> M Page B) : M Page B :=
  fun p =>
    match m p with
    | (p', Ok a) => k a p'
    | (p', Raise) => (p', Raise)
    end.

(** [try: m except: h] *)
Definition try_except {Page A : Type} (m h : M Page A) : M Page A :=
  fun p =>
    match m p with
    | (p', Ok a) => (p', Ok a)
    | (p', Raise) => h p'
    end.

Notation "x <- m ;; k" := (bind m (fun x => k))
  (at level 100, m at next level, right associativity).
Notation "m ;; k" := (bind m (fun _ => k))
  (at level 100, right associativity).

(** [for x in l: s = body(x, s)] *)
Fixpoint for_each {Page A S : Type} (l : list A) (body : A -> S -> M Page S) (s : S)
    : M Page S :=
  match l with
  | [] => ret s
  | x :: l' => s' <- body x s ;; for_each l' body s'
  end.

(** A value that may be missing, read where Python raises on the miss. *)
Definition get_or_raise {Page A : Type} (o : option A) : M Page A :=
  match o with
  | Some a => ret a
  | None => raise
  end.

Definition dq : string := String PyStr.quote2 EmptyString.

(** ** The configurable limits *)

(** [FILTER_LIMITS]: per dimension, [None] or an int. *)
Record FilterLimits : Type := mkLimits {
  lim_region : option Z;
  lim_area : option Z;
  lim_distributor : option Z;
  lim_territory : option Z;
  lim_point : option Z
}.

(** The value in the source. *)
Definition FILTER_LIMITS : FilterLimits := mkLimits None None None None None.

(** [l[:k]] *)
Definition slice_to {A : Type} (k : Z) (l : list A) : list A :=
  if (0 <=? k)%Z then take (Z.to_nat k) l
  else take (length l - Z.to_nat (- k)) l.

(** [if FILTER_LIMITS[d]: options = options[:FILTER_LIMITS[d]]] *)
Definition apply_limit (limit : option Z) (options : list string) : list string :=
  match limit with
  | Some k => if (k =? 0)%Z then options else slice_to k options
  | None => options
  end.

(** ** The script *)

Section Script.

Context {Page : Type} {browser : Playwright Page}.

Abbreviation M := (M Page).

(** [time.sleep]: time passes on the page, nothing is raised. *)
Definition time_sleep (ms : N) : M unit := fun p => (sleep ms p, Ok tt).

(** [locator.all()]: the locators [nth(0)], ..., [nth(count() - 1)]. *)
Definition all (l : Locator) : M (list Locator) :=
  n <- count l ;;
  ret (map (Nth l) (seq 0 n)).

Definition wait_for_loading_timeout (timeout : N) : M unit :=
  try_except (page_wait_for_selector ".loading" (Some "hidden") timeout) (ret tt) ;;
  try_except (page_wait_for_selector ".spinner" (Some "hidden") timeout) (ret tt) ;;
  try_except
    (page_wait_for_selector ".mantine-LoadingOverlay-root" (Some "hidden") timeout)
    (ret tt) ;;
  time_sleep 2000%N.

Definition wait_for_loading : M unit := wait_for_loading_timeout 15000%N.

Definition visible_option : string := "[role=" +:+ dq +:+ "option" +:+ dq +:+ "]:visible".

(** The body of the loop of [get_dropdown_options] over the options. *)
Definition read_option (option : Locator) (option_texts : list string)
    : M (list string) :=
  try_except
    (visible <- is_visible option ;;
     if visible : bool then
       inner <- inner_text option ;;
       let text := PyStr.strip inner in
       if PyStr.truthy text && negb (bool_decide (text ∈ option_texts))
       then ret (option_texts ++ [text])
       else ret option_texts
     else ret option_texts)
    (ret option_texts).

Definition close_dropdown (dropdown : Locator) : M unit :=
  try_except
    (keyboard_press "Escape" ;; time_sleep 500%N)
    (try_except
       (click dropdown ;; time_sleep 500%N)
       (try_except (click (Css "body") ;; time_sleep 500%N) (ret tt))).

Definition get_dropdown_options (dropdown_name : string) : M (list string) :=
  try_except
    (let dropdown := Textbox dropdown_name in
     click dropdown ;;
     time_sleep 1000%N ;;
     page_wait_for_selector visible_option None 10000%N ;;
     options <- all (Css visible_option) ;;
     option_texts <- for_each options read_option [] ;;
     close_dropdown dropdown ;;
     ret option_texts)
    (ret []).

(** The loop of [select_dropdown_option] over the visible options:
    [true] when an option was clicked and the function returned. *)
Fixpoint click_matching (option_text : string) (visible_options : list Locator)
    : M bool :=
  match visible_options with
  | [] => ret false
  | option :: rest =>
      returned <-
        try_except
          (visible <- is_visible option ;;
           if visible : bool then
             inner <- inner_text option ;;
             let option_inner_text := PyStr.strip inner in
             if PyStr.contains option_text option_inner_text
                || PyStr.contains option_inner_text option_text
             then click option ;; time_sleep 1000%N ;; ret true
             else ret false
           else ret false)
          (ret false) ;;
      if returned : bool then ret true else click_matching option_text rest
  end.

Definition select_dropdown_option (dropdown_name option_text : string) : M bool :=
  try_except
    (let dropdown := Textbox dropdown_name in
     click dropdown ;;
     time_sleep 1000%N ;;
     page_wait_for_selector visible_option None 10000%N ;;
     visible_options <- all (Css visible_option) ;;
     returned <- click_matching option_text visible_options ;;
     if returned : bool then ret true
     else
       try_except (keyboard_press "Escape") (ret tt) ;;
       ret false)
    (ret false).

Definition filters : list string :=
  ["Filter by Region"; "Filter by Area"; "Filter by Distribution house";
   "Filter by Territory"; "Filter by Point"].

Definition clear_filter (filter_name : string) (_ : unit) : M unit :=
  try_except
    (let dropdown := Textbox filter_name in
     click dropdown ;;
     time_sleep 200%N ;;
     keyboard_press "Control+a" ;;
     keyboard_press "Delete" ;;
     time_sleep 200%N ;;
     keyboard_press "Escape" ;;
     time_sleep 200%N)
    (ret tt).

Definition clear_all_filters : M unit :=
  try_except
    (keyboard_press "Escape" ;;
     time_sleep 500%N ;;
     for_each filters clear_filter tt ;;
     keyboard_press "Escape" ;;
     time_sleep 1000%N)
    (ret tt).

(** [cells[i].inner_text().strip()] *)
Definition cell_text (cells : list Locator) (i : nat) : M string :=
  cell <- get_or_raise (cells !! i) ;;
  inner <- inner_text cell ;;
  ret (PyStr.strip inner).

(** The body of the loop of [get_table_data] over the rows. *)
Definition read_row (row : Locator) (data : list Row) : M (list Row) :=
  try_except
    (cells <- all (Within row "td") ;;
     if 7 <=? length cells then
       name <- cell_text cells 0 ;;
       code <- cell_text cells 1 ;;
       region <- cell_text cells 2 ;;
       area <- cell_text cells 3 ;;
       distributor <- cell_text cells 4 ;;
       territory <- cell_text cells 5 ;;
       point <- cell_text cells 6 ;;
       ret (data ++ [mkRow name code region area distributor territory point])
     else ret data)
    (ret data).

Definition get_table_data : M (list Row) :=
  try_except
    (wait_for_loading ;;
     page_wait_for_selector "table" None 10000%N ;;
     tbody_rows <- all (Css "tbody tr") ;;
     tbody_rows <-
       match tbody_rows with
       | [] =>
           all_rows <- all (Css "tr") ;;
           ret (if 1 <? length all_rows then drop 1 all_rows else [])
       | _ :: _ => ret tbody_rows
       end ;;
     for_each tbody_rows read_row [])
    (ret []).

(** *** Result collector *)

(** The loop [for row_str, row in zip(new_data_str, last_page_data)]:
    a row goes to [all_data] unless [str(row)] is in [seen_data]. *)
Fixpoint append_unseen (last_page_data : list Row) (all_data : list Row)
    (seen_data : gset string) : list Row * gset string :=
  match last_page_data with
  | [] => (all_data, seen_data)
  | row :: rest =>
      let row_str := str_row row in
      if bool_decide (row_str ∈ seen_data)
      then append_unseen rest all_data seen_data
      else append_unseen rest (all_data ++ [row]) ({[row_str]} ∪ seen_data)
  end.

(** The body of the loop over the pagination buttons: the pair is
    [(last_page_number, last_button_index)], [None] before the first hit. *)
Definition scan_button (buttons : Locator) (i : nat) (last : option (string * nat))
    : M (option (string * nat)) :=
  let btn := Nth buttons i in
  try_except
    (visible <- is_visible btn ;;
     if visible : bool then
       inner <- inner_text btn ;;
       let text := PyStr.strip inner in
       if PyStr.isdigit text then
         match last with
         | None => ret (Some (text, i))
         | Some (last_page_number, _) =>
             n <- get_or_raise (PyStr.int text) ;;
             m <- get_or_raise (PyStr.int last_page_number) ;;
             if (m <? n)%Z then ret (Some (text, i)) else ret last
         end
       else ret last
     else ret last)
    (ret last).

(** Step 3: click the last page button, with the handle as fallback. *)
Definition click_last_button (last_button : Locator) : M unit :=
  scroll_into_view_if_needed last_button ;;
  mouse_wheel 0 (-200) ;;
  time_sleep 500%N ;;
  try_except
    (click last_button)
    (handle <- element_handle last_button ;;
     if handle : bool then evaluate_click last_button else ret tt) ;;
  wait_for_loading.

(** Steps 2 and 3 of [get_first_and_last_page_data]: find the last page
    button, click it and add the rows of that page. *)
Definition fetch_last_page (all_data : list Row) (seen_data : gset string)
    : M (list Row) :=
  let buttons := Css "button.mantine-Pagination-control" in
  count <- count buttons ;;
  last <- for_each (seq 0 count) (scan_button buttons) None ;;
  match last with
  | None => ret all_data
  | Some (_, last_button_index) =>
      click_last_button (Nth buttons last_button_index) ;;
      last_page_data <- get_table_data ;;
      ret (fst (append_unseen last_page_data all_data seen_data))
  end.

(** [all_data] outlives an exception: the handler of the inner
    [try_except] returns what was collected before the raise. *)
Definition get_first_and_last_page_data : M (list Row) :=
  let all_data : list Row := [] in
  let seen_data : gset string := ∅ in
  try_except
    (wait_for_loading ;;
     first_page_data <- get_table_data ;;
     let all_data := all_data ++ first_page_data in
     let seen_data := seen_data ∪ list_to_set (map str_row first_page_data) in
     try_except (fetch_last_page all_data seen_data) (ret all_data))
    (ret all_data).

(** The test and the two updates shared by both branches of
    [get_all_pages_data]: [None] when the page brings nothing new. *)
Definition extend_if_new (new_data : list Row) (all_data : list Row)
    (seen_data : gset string) : option (list Row * gset string) :=
  let new_data_str := map str_row new_data in
  if negb (bool_decide (new_data = []))
     && negb (forallb (fun d => bool_decide (d ∈ seen_data)) new_data_str)
  then Some (all_data ++ new_data, seen_data ∪ list_to_set new_data_str)
  else None.

(** Truth value of the result of [get_attribute]. *)
Definition attribute_truthy (a : option string) : bool :=
  match a with
  | Some s => PyStr.truthy s
  | None => false
  end.

(** The Next branch: [Some] when the page moved and the loop continues. *)
Definition try_next_button (all_data : list Row) (seen_data : gset string)
    : M (option (list Row * gset string)) :=
  try_except
    (let next_button := Css ("button:has-text(" +:+ dq +:+ "Next" +:+ dq +:+ ")") in
     n <- count next_button ;;
     visible <- (if 0 <? n then is_visible next_button else ret false) ;;
     if visible : bool then
       is_disabled <- get_attribute next_button "disabled" ;;
       if negb (attribute_truthy is_disabled) then
         scroll_into_view_if_needed next_button ;;
         time_sleep 500%N ;;
         click next_button ;;
         wait_for_loading ;;
         new_data <- get_table_data ;;
         ret (extend_if_new new_data all_data seen_data)
       else ret None
     else ret None)
    (ret None).

(** The mutable variables of [get_all_pages_data]. *)
Record Collection : Type := mkCollection {
  all_data : list Row;
  seen_data : gset string;
  visited_pages : gset string;
  moved_to_next : bool
}.

(** The body of the loop over the numbered buttons.  [visited_pages.add]
    precedes the calls that can raise, so the handler keeps it. *)
Definition visit_button (buttons : Locator) (i : nat) (st : Collection)
    : M Collection :=
  let button := Nth buttons i in
  try_except
    (visible <- is_visible button ;;
     if visible : bool then
       inner <- inner_text button ;;
       let btn_text := PyStr.strip inner in
       if PyStr.isdigit btn_text && negb (bool_decide (btn_text ∈ visited_pages st))
       then
         let st := mkCollection (all_data st) (seen_data st)
                     ({[btn_text]} ∪ visited_pages st) (moved_to_next st) in
         try_except
           (scroll_into_view_if_needed button ;;
            time_sleep 300%N ;;
            click button ;;
            wait_for_loading ;;
            new_data <- get_table_data ;;
            match extend_if_new new_data (all_data st) (seen_data st) with
            | Some (all_data', seen_data') =>
                ret (mkCollection all_data' seen_data' (visited_pages st) true)
            | None => ret st
            end)
           (ret st)
       else ret st
     else ret st)
    (ret st).

(** The numbered fallback.  The loop body catches everything, so only
    [count] can reach the handler. *)
Definition numbered_pagination (st : Collection) : M Collection :=
  try_except
    (let buttons := Css ("button[role=" +:+ dq +:+ "button" +:+ dq +:+ "]") in
     count <- count buttons ;;
     for_each (seq 0 count) (visit_button buttons) st)
    (ret st).

(** [while True], with [fuel] passes at most; [None] when they run out. *)
Fixpoint pagination_loop (fuel : nat) (st : Collection) : M (option (list Row)) :=
  match fuel with
  | 0 => ret None
  | S fuel' =>
      let st := mkCollection (all_data st) (seen_data st) (visited_pages st) false in
      next <- try_next_button (all_data st) (seen_data st) ;;
      match next with
      | Some (all_data', seen_data') =>
          pagination_loop fuel'
            (mkCollection all_data' seen_data' (visited_pages st) true)
      | None =>
          st <- numbered_pagination st ;;
          if moved_to_next st then pagination_loop fuel' st
          else ret (Some (all_data st))
      end
  end.

Definition get_all_pages_data (fuel : nat) : M (option (list Row)) :=
  let all_data : list Row := [] in
  let seen_data : gset string := ∅ in
  let visited_pages : gset string := ∅ in
  try_except
    (wait_for_loading ;;
     page_data <- get_table_data ;;
     let all_data := all_data ++ page_data in
     let seen_data := seen_data ∪ list_to_set (map str_row page_data) in
     try_except
       (pagination_loop fuel (mkCollection all_data seen_data visited_pages false))
       (ret (Some all_data)))
    (ret (Some all_data)).

End Script.

(** *** Filter domain explorer *)

Section Explorer.

Context {Page : Type} {browser : Playwright Page}.

(** The global [FILTER_LIMITS], read by the explorer. *)
Variable LIMITS : FilterLimits.

Abbreviation M := (M Page).

(** The body of [for point in points]. *)
Definition point_body (region area distributor territory point : string)
    (complete_chains : list FilterChain) : M (list FilterChain) :=
  ret (complete_chains ++ [mkChain region area distributor territory point]).

(** The body of [for territory in territories]. *)
Definition territory_body (region area distributor territory : string)
    (complete_chains : list FilterChain) : M (list FilterChain) :=
  clear_all_filters ;;
  selected <- select_dropdown_option "Filter by Region" region ;;
  if negb selected then ret complete_chains else
  wait_for_loading ;;
  selected <- select_dropdown_option "Filter by Area" area ;;
  if negb selected then ret complete_chains else
  wait_for_loading ;;
  selected <- select_dropdown_option "Filter by Distribution house" distributor ;;
  if negb selected then ret complete_chains else
  wait_for_loading ;;
  selected <- select_dropdown_option "Filter by Territory" territory ;;
  if negb selected then ret complete_chains else
  wait_for_loading ;;
  points <- get_dropdown_options "Filter by Point" ;;
  let points := apply_limit (lim_point LIMITS) points in
  for_each points (point_body region area distributor territory) complete_chains.

(** The body of [for distributor in distributors]. *)
Definition distributor_body (region area distributor : string)
    (complete_chains : list FilterChain) : M (list FilterChain) :=
  clear_all_filters ;;
  selected <- select_dropdown_option "Filter by Region" region ;;
  if negb selected then ret complete_chains else
  wait_for_loading ;;
  selected <- select_dropdown_option "Filter by Area" area ;;
  if negb selected then ret complete_chains else
  wait_for_loading ;;
  selected <- select_dropdown_option "Filter by Distribution house" distributor ;;
  if negb selected then ret complete_chains else
  wait_for_loading ;;
  territories <- get_dropdown_options "Filter by Territory" ;;
  let territories := apply_limit (lim_territory LIMITS) territories in
  for_each territories (territory_body region area distributor) complete_chains.

(** The body of [for area in areas]. *)
Definition area_body (region area : string)
    (complete_chains : list FilterChain) : M (list FilterChain) :=
  clear_all_filters ;;
  selected <- select_dropdown_option "Filter by Region" region ;;
  if negb selected then ret complete_chains else
  wait_for_loading ;;
  selected <- select_dropdown_option "Filter by Area" area ;;
  if negb selected then ret complete_chains else
  wait_for_loading ;;
  distributors <- get_dropdown_options "Filter by Distribution house" ;;
  let distributors := apply_limit (lim_distributor LIMITS) distributors in
  for_each distributors (distributor_body region area) complete_chains.

(** The body of [for region in regions]. *)
Definition region_body (region : string)
    (complete_chains : list FilterChain) : M (list FilterChain) :=
  clear_all_filters ;;
  selected <- select_dropdown_option "Filter by Region" region ;;
  if negb selected then ret complete_chains else
  wait_for_loading ;;
  areas <- get_dropdown_options "Filter by Area" ;;
  let areas := apply_limit (lim_area LIMITS) areas in
  for_each areas (area_body region) complete_chains.

Definition build_complete_filter_chains : M (list FilterChain) :=
  let complete_chains : list FilterChain := [] in
  clear_all_filters ;;
  regions <- get_dropdown_options "Filter by Region" ;;
  let regions := apply_limit (lim_region LIMITS) regions in
  match regions with
  | [] => ret complete_chains
  | _ :: _ => for_each regions region_body complete_chains
  end.

End Explorer.

(** ** A scripted page, for running the script on concrete sites *)

Module Mock.

(** What the site shows. *)
Record Site : Type := mkSite {
  (* option texts of a dropdown, given the selections made so far *)
  site_options : string -> list (string * string) -> list string;
  (* option texts whose click raises *)
  site_broken : list string;
  (* the table pages, each a list of rows of cell texts *)
  site_pages : list (list (list string));
  (* the labels of the pagination buttons *)
  site_buttons : list string;
  (* whether there is a Next button *)
  site_next : bool
}.

Record State : Type := mkState {
  opened : option string;
  selections : list (string * string);
  page_index : nat
}.

Definition start : State := mkState None [] 0.

Definition pagination_selectors : list string :=
  ["button.mantine-Pagination-control";
   "button[role=" +:+ dq +:+ "button" +:+ dq +:+ "]"].

Definition next_selector : string :=
  "button:has-text(" +:+ dq +:+ "Next" +:+ dq +:+ ")".

Definition is_pagination (selector : string) : bool :=
  existsb (String.eqb selector) pagination_selectors.

Definition shown_options (site : Site) (st : State) : list string :=
  match opened st with
  | Some name => site_options site name (selections st)
  | None => []
  end.

Definition shown_rows (site : Site) (st : State) : list (list string) :=
  default [] (site_pages site !! page_index st).

Definition select (name value : string) (sel : list (string * string))
    : list (string * string) :=
  List.filter (fun kv => negb (String.eqb (fst kv) name)) sel ++ [(name, value)].

Definition unselect (name : string) (sel : list (string * string))
    : list (string * string) :=
  List.filter (fun kv => negb (String.eqb (fst kv) name)) sel.

Definition mock_click (site : Site) (l : Locator) : M State unit :=
  fun st =>
    match l with
    | Textbox name => (mkState (Some name) (selections st) (page_index st), Ok tt)
    | Nth (Css selector) i =>
        if String.eqb selector visible_option then
          match opened st, shown_options site st !! i with
          | Some name, Some text =>
              if existsb (String.eqb text) (site_broken site) then (st, Raise)
              else
                let chosen := select name (PyStr.strip text) (selections st) in
                (mkState None chosen 0, Ok tt)
          | _, _ => (st, Raise)
          end
        else if is_pagination selector then
          match site_buttons site !! i with
          | Some label =>
              match PyStr.int label with
              | Some n => (mkState (opened st) (selections st) (Z.to_nat n - 1), Ok tt)
              | None => (st, Ok tt)
              end
          | None => (st, Raise)
          end
        else (st, Ok tt)
    | Css selector =>
        if String.eqb selector next_selector then
          if site_next site
          then (mkState (opened st) (selections st) (page_index st + 1), Ok tt)
          else (st, Raise)
        else (st, Ok tt)
    | _ => (st, Ok tt)
    end.

Definition mock_count (site : Site) (l : Locator) : M State nat :=
  fun st =>
    match l with
    | Css selector =>
        if String.eqb selector visible_option
        then (st, Ok (length (shown_options site st)))
        else if String.eqb selector "tbody tr" then (st, Ok (length (shown_rows site st)))
        else if String.eqb selector "tr" then (st, Ok (S (length (shown_rows site st))))
        else if is_pagination selector then (st, Ok (length (site_buttons site)))
        else if String.eqb selector next_selector
        then (st, Ok (if site_next site then 1 else 0))
        else (st, Ok 0)
    | Within (Nth (Css "tbody tr") r) "td" =>
        (st, Ok (length (default [] (shown_rows site st !! r))))
    | _ => (st, Ok 0)
    end.

Definition mock_inner_text (site : Site) (l : Locator) : M State string :=
  fun st =>
    match l with
    | Nth (Css selector) i =>
        if String.eqb selector visible_option
        then (st, from_option Ok Raise (shown_options site st !! i))
        else if is_pagination selector
        then (st, from_option Ok Raise (site_buttons site !! i))
        else (st, Raise)
    | Nth (Within (Nth (Css "tbody tr") r) "td") c =>
        (st, from_option Ok Raise (default [] (shown_rows site st !! r) !! c))
    | _ => (st, Raise)
    end.

Definition mock_press (key : string) : M State unit :=
  fun st =>
    if String.eqb key "Escape" then (mkState None (selections st) (page_index st), Ok tt)
    else if String.eqb key "Delete" then
      match opened st with
      | Some name => (mkState (opened st) (unselect name (selections st)) 0, Ok tt)
      | None => (st, Ok tt)
      end
    else (st, Ok tt).

Definition mock_wait (site : Site) (selector : string) : M State unit :=
  fun st =>
    if String.eqb selector visible_option then
      match shown_options site st with
      | [] => (st, Raise)
      | _ :: _ => (st, Ok tt)
      end
    else (st, Ok tt).

Definition mock_disabled (site : Site) : M State (option string) :=
  fun st =>
    if S (page_index st) <? length (site_pages site) then (st, Ok None)
    else (st, Ok (Some "disabled")).

Definition playwright (site : Site) : Playwright State := {|
  sleep := fun _ st => st;
  page_wait_for_selector := fun selector _ _ => mock_wait site selector;
  keyboard_press := mock_press;
  mouse_wheel := fun _ _ => ret tt;
  click := mock_click site;
  count := mock_count site;
  is_visible := fun _ => ret true;
  inner_text := mock_inner_text site;
  get_attribute := fun _ _ => mock_disabled site;
  scroll_into_view_if_needed := fun _ => ret tt;
  element_handle := fun _ => ret true;
  evaluate_click := mock_click site
|}.

End Mock.

(** ** The test run *)

(** The calls of [run_comprehensive_test] that the helpers do not make.
    The browser is launched and the page made before the [try] block:
    the run starts on that page. *)
Class Session (Page : Type) : Type := {
  goto : string -> M Page unit;
  fill : Locator -> string -> M Page unit;
  (* page.get_by_role(button, name).click() *)
  click_button : string -> M Page unit;
  context_close : M Page unit;
  browser_close : M Page unit
}.

(** [try: m finally: f]: [f] runs after [m], raised or not; an
    exception of [m] goes on after [f], one of [f] replaces it. *)
Definition try_finally {Page A : Type} (m : M Page A) (f : M Page unit) : M Page A :=
  fun p =>
    match m p with
    | (p', Ok a) =>
        match f p' with
        | (p'', Ok _) => (p'', Ok a)
        | (p'', Raise) => (p'', Raise)
        end
    | (p', Raise) => (fst (f p'), Raise)
    end.

(** An item of [results]. *)
Record TestResult : Type := mkTest {
  chain : FilterChain;
  data_count : nat;
  verification : VerificationResult
}.

(** What the summary prints. *)
Record Summary : Type := mkSummary {
  total_tests : nat;
  passed_tests : nat;
  failed_count : Z;
  success_rate : float;
  failed_tests : list TestResult;
  successful_tests : list TestResult
}.

(** [len(r['verification']['invalid_records']) == 0] *)
Definition no_invalid (r : TestResult) : bool :=
  length (invalid_records (verification r)) =? 0.

(** [len(r['verification']['invalid_records']) > 0] *)
Definition some_invalid (r : TestResult) : bool :=
  0 <? length (invalid_records (verification r)).

Section Run.

Context {Page : Type} {browser : Playwright Page} {session : Session Page}.

Definition login : M Page unit :=
  goto "https://prismv2.prism360.batbangladesh.dev/" ;;
  fill (Textbox "Email") "abir@manush.tech" ;;
  fill (Textbox "Password") "Manush@staging123" ;;
  click_button "Login" ;;
  click_button "Retailers" ;;
  wait_for_loading.

(** [success &= select_dropdown_option(page, name, value)], and the
    wait that follows when [success] holds. *)
Definition apply_filter (success : bool) (name value : string) : M Page bool :=
  selected <- select_dropdown_option name value ;;
  let success := success && selected in
  if success then wait_for_loading ;; ret success else ret success.

(** The five selections of a test: the first is made in any case, each
    of the others under [if success]. *)
Definition apply_chain (chain : FilterChain) : M Page bool :=
  let success := true in
  success <- apply_filter success "Filter by Region" (c_region chain) ;;
  success <-
    (if success : bool then apply_filter success "Filter by Area" (c_area chain)
     else ret success) ;;
  success <-
    (if success : bool
     then apply_filter success "Filter by Distribution house" (c_distributor chain)
     else ret success) ;;
  success <-
    (if success : bool then apply_filter success "Filter by Territory" (c_territory chain)
     else ret success) ;;
  if success : bool then apply_filter success "Filter by Point" (c_point chain)
  else ret success.

(** The body of the loop [for i, chain in enumerate(complete_chains, 1)]. *)
Definition test_chain (chain : FilterChain) (results : list TestResult)
    : M Page (list TestResult) :=
  clear_all_filters ;;
  success <- apply_chain chain ;;
  if negb success then ret results
  else
    wait_for_loading ;;
    all_data <- get_first_and_last_page_data ;;
    let verification := verify_filters all_data (Chain_items chain) in
    let result := mkTest chain (length all_data) verification in
    ret (results ++ [result]).

(** The summary: the division raises when [results] is empty. *)
Definition summary (results : list TestResult) : M Page Summary :=
  let total_tests := length results in
  let passed_tests := list_sum (map (fun _ => 1) (List.filter no_invalid results)) in
  let failed := (Z.of_nat total_tests - Z.of_nat passed_tests)%Z in
  rate <-
    (if total_tests =? 0 then raise
     else ret (PrimFloat.mul
                 (PrimFloat.div (float_of_nat passed_tests) (float_of_nat total_tests))
                 (float_of_nat 100))) ;;
  let failed_tests := List.filter some_invalid results in
  let successful_tests := List.filter no_invalid results in
  ret (mkSummary total_tests passed_tests failed rate failed_tests successful_tests).

(** The [try] block: [None] stands for the early [return], [Some] holds
    what the block prints at its end. *)
Definition run_tests : M Page (option Summary) :=
  login ;;
  complete_chains <- build_complete_filter_chains FILTER_LIMITS ;;
  match complete_chains with
  | [] => ret None
  | _ :: _ =>
      results <- for_each complete_chains test_chain [] ;;
      s <- summary results ;;
      ret (Some s)
  end.

Definition run_comprehensive_test : M Page unit :=
  try_finally
    (try_except (run_tests ;; ret tt) (ret tt))
    (context_close ;; browser_close).

End Run.

(** A session for the scripted page: every call succeeds and leaves the
    page as it is. *)
Module MockRun.

Definition session : Session Mock.State := {|
  goto := fun _ => ret tt;
  fill := fun _ _ => ret tt;
  click_button := fun _ => ret tt;
  context_close := ret tt;
  browser_close := ret tt
|}.

End MockRun.

(** * Specification-side definitions *)

(** ** The verifier, in the words of the specification *)

(** The five dimensions, in the order of the hierarchy. *)
Definition dimensions : list string :=
  ["region"; "area"; "distributor"; "territory"; "point"].

(** [a] occurs in [b]. *)
Definition is_substring (a b : string) : Prop := exists u v, b = u +:+ a +:+ v.

(** The matching rule: the filter value, in lower case, occurs in the
    field value, in lower case. *)
Definition field_compliant (filter_value field_value : string) : bool :=
  PyStr.contains (PyStr.lower filter_value) (PyStr.lower field_value).

(** A record is valid when each of the five dimensions passes the rule
    on the stripped field of the record. *)
Definition chain_valid (c : FilterChain) (r : Row) : bool :=
  forallb (fun item => field_compliant (snd item) (PyStr.strip (Row_get r (fst item) "")))
    (Chain_items c).

(** The messages of the dimensions that fail, in the order of the chain. *)
Definition chain_issues (c : FilterChain) (r : Row) : list string :=
  flat_map
    (fun item =>
       let field_value := PyStr.strip (Row_get r (fst item) "") in
       if field_compliant (snd item) field_value then []
       else [issue_message (fst item) (snd item) field_value])
    (Chain_items c).

(** The test the script makes for one item of [filters]. *)
Definition item_ok (rec : Row) (item : string * string) : bool :=
  match Dict.get filter_mapping (fst item) with
  | Some field => field_compliant (snd item) (PyStr.strip (Row_get rec field ""))
  | None => true
  end.

(** The message the script adds for one item of [filters]. *)
Definition item_issue (rec : Row) (item : string * string) : list string :=
  match Dict.get filter_mapping (fst item) with
  | Some field =>
      let field_value := PyStr.strip (Row_get rec field "") in
      if field_compliant (snd item) field_value then []
      else [issue_message (fst item) (snd item) field_value]
  | None => []
  end.

(** The entry of the compliance table for one dimension. *)
Definition compliance_entry (data : list Row) (filter_value field : string)
    : Compliance :=
  let count := compliant_count data filter_value field in
  mkCompliance count (length data) (percentage_of count data).

(** One step of the loop that fills the compliance table. *)
Definition compliance_insert (data : list Row) (filters : list (string * string))
    (fc : gmap string Compliance) (k : string) : gmap string Compliance :=
  match Dict.get filter_mapping k, Dict.get filters k with
  | Some field, Some filter_value =>
      <[k := compliance_entry data filter_value field]> fc
  | _, _ => fc
  end.

(** A row as [get_table_data] builds it: no field has a blank at its ends. *)
Definition row_stripped (r : Row) : Prop :=
  Forall (fun item => PyStr.strip (snd item) = snd item) (Row_items r).

(** The percentage as the script computes it: [0] on no record, the
    float [count / len * 100] otherwise. *)
Definition expected_percentage (count : nat) (data : list Row) : PyNum :=
  match data with
  | [] => PyInt 0
  | _ :: _ =>
      PyFloat (PrimFloat.mul
                 (PrimFloat.div (float_of_nat count) (float_of_nat (length data)))
                 100%float)
  end.

(** ** Judgments on page calls *)

(** [m] never raises, and its value satisfies [Q]. *)
Definition returns {Page A : Type} (m : M Page A) (Q : A -> Prop) : Prop :=
  forall p, exists p' a, m p = (p', Ok a) /\ Q a.

(** The value of [m], when it does not raise, satisfies [Q]. *)
Definition yields {Page A : Type} (m : M Page A) (Q : A -> Prop) : Prop :=
  forall p p' a, m p = (p', Ok a) -> Q a.

(** ** The explorer, in the words of the specification *)

(** A text kept by [get_dropdown_options]: not empty, no blank at the ends. *)
Definition option_text_ok (text : string) : Prop :=
  text <> "" /\ PyStr.strip text = text.

(** A chain with a value for every dimension: its keys are the five
    dimensions and each value is a kept text. *)
Definition chain_complete (c : FilterChain) : Prop :=
  map fst (Chain_items c) = dimensions
  /\ Forall (fun item => option_text_ok (snd item)) (Chain_items c).

(** A text that does not begin with a blank. *)
Definition starts_unblank (s : string) : Prop :=
  match s with
  | String c _ => PyStr.isspace c = false
  | EmptyString => True
  end.

(** What [get_dropdown_options] returns: kept texts, without repeats. *)
Definition options_ok (option_texts : list string) : Prop :=
  Forall option_text_ok option_texts /\ NoDup option_texts.

(** The most options a loop of the explorer runs over, for a dropdown
    that never offers more than [n]. *)
Definition limit_bound (limit : option Z) (n : nat) : nat :=
  match limit with
  | Some k => if (0 <? k)%Z then Nat.min (Z.to_nat k) n else n
  | None => n
  end.

(** [value] is among the options a query of dropdown [name] returned on
    some page, cut by [limit]. *)
Definition explored {Page : Type} {browser : Playwright Page} (name : string)
    (limit : option Z) (value : string) : Prop :=
  exists p p' options,
    get_dropdown_options name p = (p', Ok options)
    /\ value ∈ apply_limit limit options.

Definition chain_explored {Page : Type} {browser : Playwright Page}
    (limits : FilterLimits) (c : FilterChain) : Prop :=
  explored "Filter by Region" (lim_region limits) (c_region c)
  /\ explored "Filter by Area" (lim_area limits) (c_area c)
  /\ explored "Filter by Distribution house" (lim_distributor limits) (c_distributor c)
  /\ explored "Filter by Territory" (lim_territory limits) (c_territory c)
  /\ explored "Filter by Point" (lim_point limits) (c_point c).

(** A chain whose value in each dimension has the property given for
    that dimension. *)
Definition chain_good (G_region G_area G_distributor G_territory G_point
    : string -> Prop) (c : FilterChain) : Prop :=
  G_region (c_region c) /\ G_area (c_area c) /\ G_distributor (c_distributor c)
  /\ G_territory (c_territory c) /\ G_point (c_point c).

(** Selecting the values of a prefix in order, from page [p], stops at
    a selection that returns [False] and leaves page [p']. *)
Inductive selection_fails {Page : Type} {browser : Playwright Page}
    : list (string * string) -> Page -> Page -> Prop :=
  | fails_here name value rest p p' :
      select_dropdown_option name value p = (p', Ok false) ->
      selection_fails ((name, value) :: rest) p p'
  | fails_later name value rest p p1 p2 p' :
      select_dropdown_option name value p = (p1, Ok true) ->
      wait_for_loading p1 = (p2, Ok tt) ->
      selection_fails rest p2 p' ->
      selection_fails ((name, value) :: rest) p p'.

(** ** Reading back a [repr]

    A parser for the output of [PyStr.repr_body], used to show that
    [str] of a row determines the row. *)

Definition unhex (c : ascii) : nat :=
  let n := PyStr.code c in
  if n <? 58 then n - 48 else n - 87.

Definition cons_fst (c : ascii) (r : option (string * string))
    : option (string * string) :=
  match r with
  | Some (s, rest) => Some (String c s, rest)
  | None => None
  end.

Fixpoint unrepr_body (q : ascii) (s : string) : option (string * string) :=
  match s with
  | EmptyString => None
  | String c s1 =>
      if Ascii.eqb c q then Some (EmptyString, s1)
      else if Ascii.eqb c PyStr.backslash then
        match s1 with
        | String d s2 =>
            if Ascii.eqb d "t" then cons_fst (ascii_of_nat 9) (unrepr_body q s2)
            else if Ascii.eqb d "n" then cons_fst (ascii_of_nat 10) (unrepr_body q s2)
            else if Ascii.eqb d "r" then cons_fst (ascii_of_nat 13) (unrepr_body q s2)
            else if Ascii.eqb d "x" then
              match s2 with
              | String h1 (String h2 s3) =>
                  cons_fst (ascii_of_nat (16 * unhex h1 + unhex h2)) (unrepr_body q s3)
              | _ => None
              end
            else cons_fst d (unrepr_body q s2)
        | EmptyString => None
        end
      else cons_fst c (unrepr_body q s1)
  end.

(** ** The collectors, in the words of the specification *)

(** The keys of the rows collected so far. *)
Definition keys (rows : list Row) : gset string := list_to_set (map str_row rows).

(** [all] is [first], then the rows of [last] that are not in [first],
    in their order and each once. *)
Definition union_dedup (first last all : list Row) : Prop :=
  exists extra,
    all = first ++ extra
    /\ extra `sublist_of` last
    /\ NoDup extra
    /\ (forall r, r ∈ extra -> r ∉ first)
    /\ (forall r, r ∈ last -> r ∈ first \/ r ∈ extra).

(** ** The pagination buttons, in the words of the specification *)

Section Labels.

Context {Page : Type} {browser : Playwright Page}.

(** The label of button [i] when the button is visible and its label
    is numeric, read as the script reads it. *)
Definition button_label (buttons : Locator) (i : nat) : M Page (option string) :=
  try_except
    (visible <- is_visible (Nth buttons i) ;;
     if visible : bool then
       inner <- inner_text (Nth buttons i) ;;
       let text := PyStr.strip inner in
       ret (if PyStr.isdigit text then Some text else None)
     else ret None)
    (ret None).

Definition read_label (buttons : Locator) (i : nat) (labels : list (option string))
    : M Page (list (option string)) :=
  label <- button_label buttons i ;;
  ret (labels ++ [label]).

(** The numeric labels of the buttons [0 .. n-1]. *)
Definition button_labels (buttons : Locator) (n : nat) : M Page (list (option string)) :=
  for_each (seq 0 n) (read_label buttons) [].

End Labels.

Definition page_number (text : string) : Z := default 0%Z (PyStr.int text).

(** [last] is the first button with the highest page number. *)
Definition is_highest (labels : list (option string)) (last : option (string * nat))
    : Prop :=
  match last with
  | None => forall j, j < length labels -> labels !! j = Some None
  | Some (text, i) =>
      labels !! i = Some (Some text)
      /\ (forall j t, labels !! j = Some (Some t) ->
            (page_number t <= page_number text)%Z)
      /\ (forall j t, j < i -> labels !! j = Some (Some t) ->
            (page_number t < page_number text)%Z)
  end.

(** The choice the scan makes at button [i]. *)
Definition pick (last : option (string * nat)) (label : option string) (i : nat)
    : option (string * nat) :=
  match label, last with
  | None, _ => last
  | Some text, None => Some (text, i)
  | Some text, Some (last_page_number, _) =>
      if (page_number last_page_number <? page_number text)%Z
      then Some (text, i) else last
  end.

(** The label kept by the scan is numeric. *)
Definition digits_last (last : option (string * nat)) : Prop :=
  forall t j, last = Some (t, j) -> PyStr.isdigit t = true.

(** Each page of [pages] holds a row whose key is not in [seen] nor among
    the pages before it. *)
Fixpoint pages_fresh (seen : gset string) (pages : list (list Row)) : Prop :=
  match pages with
  | [] => True
  | page :: rest =>
      (exists r, r ∈ page /\ str_row r ∉ seen)
      /\ pages_fresh (seen ∪ keys page) rest
  end.

(** What the exhaustive collector keeps true of [all_data] and
    [seen_data]: [seen_data] holds the keys of [all_data], which is the
    first page followed by pages that each brought a new row. *)
Definition collected (first all_data : list Row) (seen_data : gset string) : Prop :=
  seen_data = keys all_data
  /\ exists pages,
       all_data = first ++ concat pages /\ pages_fresh (keys first) pages.

Definition collected_next (first : list Row)
    (next : option (list Row * gset string)) : Prop :=
  forall all' seen', next = Some (all', seen') -> collected first all' seen'.

Definition collected_state (first : list Row) (st : Collection) : Prop :=
  collected first (all_data st) (seen_data st).

Definition collected_result (first : list Row) (r : option (list Row)) : Prop :=
  forall all, r = Some all ->
    exists pages, all = first ++ concat pages /\ pages_fresh (keys first) pages.

(** [all] is [first] followed by rows that are new and pairwise distinct. *)
Definition only_new (first all : list Row) : Prop :=
  exists extra,
    all = first ++ extra /\ NoDup extra /\ forall r, r ∈ extra -> r ∉ first.

(** ** Concrete sites *)

Module Sites.

(** A row of the retailer table with serial number [n]. *)
Definition cells (n : string) : list string :=
  ["Shop " +:+ n; "C" +:+ n; "Dhaka"; "Uttara"; "House"; "North"; "Point"].

Definition row (n : string) : Row :=
  mkRow ("Shop " +:+ n) ("C" +:+ n) "Dhaka" "Uttara" "House" "North" "Point".

(** The dropdowns of a site whose options do not depend on the
    selections: three regions, two areas, one option elsewhere. *)
Definition fixed_options (name : string) (_ : list (string * string)) : list string :=
  if String.eqb name "Filter by Region" then ["Dhaka"; "Sylhet"; "Khulna"]
  else if String.eqb name "Filter by Area" then ["Uttara"; "Mirpur"]
  else if String.eqb name "Filter by Distribution house" then ["House"]
  else if String.eqb name "Filter by Territory" then ["North"]
  else ["Point"].

(** Two table pages that share row 3, with a Next button and no
    numbered button. *)
Definition overlap : Mock.Site :=
  Mock.mkSite fixed_options []
    [[cells "1"; cells "2"; cells "3"]; [cells "3"; cells "4"]] [] true.

(** The same two pages behind numbered buttons. *)
Definition numbered : Mock.Site :=
  Mock.mkSite fixed_options []
    [[cells "1"; cells "2"; cells "3"]; [cells "3"; cells "4"]]
    ["<"; "1"; "2"; ">"] false.

(** One table page, with the numbered button that leads back to it. *)
Definition single : Mock.Site :=
  Mock.mkSite fixed_options [] [[cells "1"; cells "2"; cells "3"]] ["1"] false.

(** A site where the click on the region Dhaka raises. *)
Definition broken : Mock.Site :=
  Mock.mkSite fixed_options ["Dhaka"] [] [] false.

(** One region, area and distributor, two territories, one point each. *)
Definition two_territories : Mock.Site :=
  Mock.mkSite
    (fun name _ =>
       if String.eqb name "Filter by Region" then ["Dhaka"]
       else if String.eqb name "Filter by Area" then ["Uttara"]
       else if String.eqb name "Filter by Distribution house" then ["House"]
       else if String.eqb name "Filter by Territory" then ["North"; "South"]
       else ["Point"])
    [] [] [] false.

(** A site with no option in any dropdown. *)
Definition empty : Mock.Site :=
  Mock.mkSite (fun _ _ => []) [] [] [] false.

Definition region_limit_2 : FilterLimits := mkLimits (Some 2%Z) None None None None.

End Sites.

(** ** More on the verifier *)

(** The filter keys the verifier looks at. *)
Definition known_key (item : string * string) : bool :=
  match Dict.get filter_mapping (fst item) with
  | Some _ => true
  | None => false
  end.

(** ** The dropdowns, in the words of the specification *)

(** The texts of [l], each once, at the place of its first occurrence. *)
Fixpoint first_occurrences (l : list string) : list string :=
  match l with
  | [] => []
  | x :: l' => x :: List.filter (fun y => negb (String.eqb y x)) (first_occurrences l')
  end.

(** The texts a dropdown offers, from what was read of its options:
    [None] stands for an option that is hidden or could not be read. *)
Definition offered (labels : list (option string)) : list string :=
  first_occurrences (List.filter PyStr.truthy (omap id labels)).

(** The step of the loop of [get_dropdown_options] on what was read. *)
Definition keep (option_texts : list string) (label : option string)
    : list string :=
  match label with
  | Some text =>
      if PyStr.truthy text && negb (bool_decide (text ∈ option_texts))
      then option_texts ++ [text]
      else option_texts
  | None => option_texts
  end.

(** The requested text and the text of an option match when one occurs
    in the other. *)
Definition option_matches (option_text option_inner_text : string) : Prop :=
  is_substring option_text option_inner_text
  \/ is_substring option_inner_text option_text.

Section Dropdowns.

Context {Page : Type} {browser : Playwright Page}.

(** The stripped text of an option, when the option is visible and its
    text can be read. *)
Definition option_label (option : Locator) : M Page (Datatypes.option string) :=
  try_except
    (visible <- is_visible option ;;
     if visible : bool then
       inner <- inner_text option ;;
       ret (Some (PyStr.strip inner))
     else ret None)
    (ret None).

Definition read_option_label (option : Locator)
    (labels : list (Datatypes.option string)) : M Page (list (Datatypes.option string)) :=
  label <- option_label option ;;
  ret (labels ++ [label]).

(** What can be read of the options, one after the other. *)
Definition option_labels (options : list Locator) : M Page (list (option string)) :=
  for_each options read_option_label [].

(** The dropdown [name] does not open on page [p]: the click on its
    textbox, the wait for a visible option or the count of the options
    raises, and leaves the page [p']. *)
Inductive opening_fails (name : string) (p p' : Page) : Prop :=
  | click_fails :
      click (Textbox name) p = (p', Raise) -> opening_fails name p p'
  | wait_fails p1 :
      click (Textbox name) p = (p1, Ok tt) ->
      page_wait_for_selector visible_option None 10000%N (sleep 1000%N p1) = (p', Raise) ->
      opening_fails name p p'
  | count_fails p1 p2 :
      click (Textbox name) p = (p1, Ok tt) ->
      page_wait_for_selector visible_option None 10000%N (sleep 1000%N p1) = (p2, Ok tt) ->
      count (Css visible_option) p2 = (p', Raise) ->
      opening_fails name p p'.

(** The dropdown [name] opens on page [p] and shows [n] options on page [p']. *)
Definition opens (name : string) (p : Page) (n : nat) (p' : Page) : Prop :=
  exists p1 p2,
    click (Textbox name) p = (p1, Ok tt)
    /\ page_wait_for_selector visible_option None 10000%N (sleep 1000%N p1) = (p2, Ok tt)
    /\ count (Css visible_option) p2 = (p', Ok n).

(** The options of an open dropdown that shows [n] of them. *)
Definition shown (n : nat) : list Locator := map (Nth (Css visible_option)) (seq 0 n).

(** The option is clicked for [option_text]: it is visible, its text
    matches and the click succeeds. *)
Definition clicked (option_text : string) (option : Locator) (p p' : Page) : Prop :=
  exists p1 p2 inner,
    is_visible option p = (p1, Ok true)
    /\ inner_text option p1 = (p2, Ok inner)
    /\ option_matches option_text (PyStr.strip inner)
    /\ click option p2 = (p', Ok tt).

(** The option is passed over for [option_text]: it is hidden, or its
    text does not match, or one of the calls on it raises. *)
Inductive passed_over (option_text : string) (option : Locator) (p p' : Page) : Prop :=
  | option_hidden :
      is_visible option p = (p', Ok false) -> passed_over option_text option p p'
  | visible_raises :
      is_visible option p = (p', Raise) -> passed_over option_text option p p'
  | text_raises p1 :
      is_visible option p = (p1, Ok true) ->
      inner_text option p1 = (p', Raise) ->
      passed_over option_text option p p'
  | text_differs p1 inner :
      is_visible option p = (p1, Ok true) ->
      inner_text option p1 = (p', Ok inner) ->
      ~ option_matches option_text (PyStr.strip inner) ->
      passed_over option_text option p p'
  | click_raises p1 p2 inner :
      is_visible option p = (p1, Ok true) ->
      inner_text option p1 = (p2, Ok inner) ->
      option_matches option_text (PyStr.strip inner) ->
      click option p2 = (p', Raise) ->
      passed_over option_text option p p'.

(** The options are passed over one after the other. *)
Inductive passes_over (option_text : string) : list Locator -> Page -> Page -> Prop :=
  | passes_nil p : passes_over option_text [] p p
  | passes_cons option rest p p1 p' :
      passed_over option_text option p p1 ->
      passes_over option_text rest p1 p' ->
      passes_over option_text (option :: rest) p p'.

(** The body of the loop of [select_dropdown_option]: [true] when the
    option was clicked. *)
Definition try_option (option_text : string) (option : Locator) : M Page bool :=
  try_except
    (visible <- is_visible option ;;
     if visible : bool then
       inner <- inner_text option ;;
       let option_inner_text := PyStr.strip inner in
       if PyStr.contains option_text option_inner_text
          || PyStr.contains option_inner_text option_text
       then click option ;; time_sleep 1000%N ;; ret true
       else ret false
     else ret false)
    (ret false).

End Dropdowns.

(** Sites for the dropdowns. *)
Module Samples.

(** The region dropdown shows padded, blank and repeated texts. *)
Definition untidy : Mock.Site :=
  Mock.mkSite
    (fun name _ =>
       if String.eqb name "Filter by Region"
       then [" Dhaka "; ""; "Sylhet"; "Dhaka"; "  "]
       else ["Other"])
    [] [] [] false.

(** The first region contains the second, and its click raises on the
    site [north_broken]. *)
Definition north : Mock.Site :=
  Mock.mkSite (fun _ _ => ["North East"; "North"; "South"]) [] [] [] false.

Definition north_broken : Mock.Site :=
  Mock.mkSite (fun _ _ => ["North East"; "North"; "South"]) ["North East"] [] [] false.

(** The first option of each dropdown is blank. *)
Definition placeholder : Mock.Site :=
  Mock.mkSite (fun _ _ => ["  "; "Dhaka"; "Sylhet"]) [] [] [] false.

End Samples.

(** ** The table, in the words of the specification *)

Section Table.

Context {Page : Type} {browser : Playwright Page}.

(** The texts of the cells are read one after the other, from page [p]
    to page [p']. *)
Fixpoint reads (cells : list Locator) (texts : list string) (p p' : Page) : Prop :=
  match cells, texts with
  | [], [] => p' = p
  | cell :: cells', text :: texts' =>
      exists p1, inner_text cell p = (p1, Ok text) /\ reads cells' texts' p1 p'
  | _, _ => False
  end.

(** The first [k] cells of a row. *)
Definition first_cells (row : Locator) (k : nat) : list Locator :=
  map (Nth (Within row "td")) (seq 0 k).

(** The record of a row, from the texts of its first seven cells. *)
Definition record_of (texts : list string) : option Row :=
  match map PyStr.strip texts with
  | [name; code; region; area; distributor; territory; point] =>
      Some (mkRow name code region area distributor territory point)
  | _ => None
  end.

(** The table does not show on page [p]: the wait for it or the count
    of its rows raises, and leaves the page [p']. *)
Inductive table_fails (p p' : Page) : Prop :=
  | table_wait_fails p0 :
      wait_for_loading p = (p0, Ok tt) ->
      page_wait_for_selector "table" None 10000%N p0 = (p', Raise) ->
      table_fails p p'
  | table_count_fails p0 p1 :
      wait_for_loading p = (p0, Ok tt) ->
      page_wait_for_selector "table" None 10000%N p0 = (p1, Ok tt) ->
      count (Css "tbody tr") p1 = (p', Raise) ->
      table_fails p p'
  | header_count_fails p0 p1 p2 :
      wait_for_loading p = (p0, Ok tt) ->
      page_wait_for_selector "table" None 10000%N p0 = (p1, Ok tt) ->
      count (Css "tbody tr") p1 = (p2, Ok 0) ->
      count (Css "tr") p2 = (p', Raise) ->
      table_fails p p'.

(** The table shows on page [p]: [rows] are the rows the script reads,
    from page [p'] on.  Without rows in the body, they are the rows of
    the table but the first. *)
Inductive table_shows (p : Page) (rows : list Locator) (p' : Page) : Prop :=
  | body_rows p0 p1 n :
      wait_for_loading p = (p0, Ok tt) ->
      page_wait_for_selector "table" None 10000%N p0 = (p1, Ok tt) ->
      count (Css "tbody tr") p1 = (p', Ok (S n)) ->
      rows = map (Nth (Css "tbody tr")) (seq 0 (S n)) ->
      table_shows p rows p'
  | rows_after_header p0 p1 p2 m :
      wait_for_loading p = (p0, Ok tt) ->
      page_wait_for_selector "table" None 10000%N p0 = (p1, Ok tt) ->
      count (Css "tbody tr") p1 = (p2, Ok 0) ->
      count (Css "tr") p2 = (p', Ok m) ->
      rows = map (Nth (Css "tr")) (seq 1 (m - 1)) ->
      table_shows p rows p'.

End Table.

Module Tables.

(** A table with a short row, a row of eight padded cells and a row of
    seven cells. *)
Definition ragged : Mock.Site :=
  Mock.mkSite Sites.fixed_options []
    [[["Shop 1"; "C1"; "Dhaka"];
      [" Shop 2 "; "C2 "; " Dhaka"; "Uttara"; "House"; "North"; "Point"; "extra"];
      Sites.cells "3"]]
    [] false.

(** A page on which every Playwright call raises. *)
Definition dead : Playwright unit := {|
  sleep := fun _ p => p;
  page_wait_for_selector := fun _ _ _ => raise;
  keyboard_press := fun _ => raise;
  mouse_wheel := fun _ _ => raise;
  click := fun _ => raise;
  count := fun _ => raise;
  is_visible := fun _ => raise;
  inner_text := fun _ => raise;
  get_attribute := fun _ _ => raise;
  scroll_into_view_if_needed := fun _ => raise;
  element_handle := fun _ => raise;
  evaluate_click := fun _ => raise
|}.

End Tables.

(** ** The order of the chains *)

(** [chains] is made of one block for each key of [keys], in their
    order: the chains of a block have the key of the block under [key],
    and no chain is twice in a block. *)
Definition grouped (key : FilterChain -> string) (keys : list string)
    (chains : list FilterChain) : Prop :=
  exists blocks,
    chains = concat blocks
    /\ Forall2 (fun k block => Forall (fun c => key c = k) block /\ NoDup block)
         keys blocks.

(** [cc'] is [cc] followed by distinct chains that satisfy [P]. *)
Definition appended (P : FilterChain -> Prop) (cc cc' : list FilterChain) : Prop :=
  exists extra, cc' = cc ++ extra /\ Forall P extra /\ NoDup extra.

(** ** The test run, in the words of the specification *)

(** The selections of a test, in order. *)
Definition chain_selections (c : FilterChain) : list (string * string) :=
  [("Filter by Region", c_region c); ("Filter by Area", c_area c);
   ("Filter by Distribution house", c_distributor c);
   ("Filter by Territory", c_territory c); ("Filter by Point", c_point c)].

(** Selecting the values in order, from page [p], succeeds for each and
    leaves page [p'] after the last wait. *)
Inductive selection_succeeds {Page : Type} {browser : Playwright Page}
    : list (string * string) -> Page -> Page -> Prop :=
  | succeeds_nil p : selection_succeeds [] p p
  | succeeds_cons name value rest p p1 p2 p' :
      select_dropdown_option name value p = (p1, Ok true) ->
      wait_for_loading p1 = (p2, Ok tt) ->
      selection_succeeds rest p2 p' ->
      selection_succeeds ((name, value) :: rest) p p'.

(** A result as the loop builds it: the count is the number of records
    verified, each of them valid or listed as invalid, and the
    compliance table has the five dimensions. *)
Definition result_consistent (r : TestResult) : Prop :=
  let v := verification r in
  data_count r = total_records v
  /\ valid_records v + length (invalid_records v) = data_count r
  /\ (forall k, is_Some (filter_compliance v !! k) <-> k ∈ dimensions).

Module Runs.

(** Three regions, two areas, one option elsewhere; the click on the
    point raises. *)
Definition point_broken : Mock.Site :=
  Mock.mkSite Sites.fixed_options ["Point"]
    [[Sites.cells "1"; Sites.cells "2"]] [] false.

(** One chain, one table page with a row of another region. *)
Definition one_chain : Mock.Site :=
  Mock.mkSite (fun name _ =>
       if String.eqb name "Filter by Region" then ["Dhaka"]
       else if String.eqb name "Filter by Area" then ["Uttara"]
       else if String.eqb name "Filter by Distribution house" then ["House"]
       else if String.eqb name "Filter by Territory" then ["North"]
       else ["Point"])
    []
    [[Sites.cells "1";
      ["Shop 9"; "C9"; "Sylhet"; "Uttara"; "House"; "North"; "Point"]]]
    [] false.

End Runs.

(** Two [filters] with the same keys in the same order, whose values
    differ at most in the case of their letters. *)
Definition same_up_to_case (filters1 filters2 : list (string * string)) : Prop :=
  Forall2 (fun item1 item2 =>
             fst item1 = fst item2
             /\ PyStr.lower (snd item1) = PyStr.lower (snd item2))
    filters1 filters2.

(** * Proofs *)

(** ** Substrings *)

Lemma startswith_app (a b : string) :
  PyStr.startswith b a = true <-> exists v, b = a +:+ v.
Proof.
  revert b. induction a as [|c a IH]; intros b; simpl.
  - split; [intros _; by exists b | done].
  - destruct b as [|d b]; simpl.
    + split; [done | intros [v Hv]; discriminate].
    + rewrite andb_true_iff, Ascii.eqb_eq, IH. split.
      * intros [-> [v ->]]. by exists v.
      * intros [v Hv]. injection Hv as -> ->. split; [done | by exists v].
Qed.

Lemma contains_substring (a b : string) :
  PyStr.contains a b = true <-> exists u v, b = u +:+ a +:+ v.
Proof.
  induction b as [|d b IH]; simpl.
  - rewrite orb_false_r, startswith_app. split.
    + intros [v Hv]. by exists "", v.
    + intros (u & v & Huv). destruct u; simpl in Huv; [by exists v | discriminate].
  - rewrite orb_true_iff, startswith_app, IH. split.
    + intros [[v Hv] | (u & v & Huv)].
      * by exists "", v.
      * exists (String d u), v. simpl. by rewrite Huv.
    + intros (u & v & Huv). destruct u as [|e u]; simpl in Huv.
      * left. by exists v.
      * right. exists u, v. by injection Huv.
Qed.

(** ** The verifier *)

Lemma check_filter_step rec is_valid record_issues item :
  check_filter rec (is_valid, record_issues) item
  = (is_valid && item_ok rec item, (record_issues ++ item_issue rec item)).
Proof.
  destruct item as [k v]. unfold check_filter, item_ok, item_issue, field_compliant.
  cbn [fst snd]. destruct (Dict.get filter_mapping k) as [field|].
  - destruct (PyStr.contains _ _); cbn [negb].
    + by rewrite andb_true_r, app_nil_r.
    + by rewrite andb_false_r.
  - by rewrite andb_true_r, app_nil_r.
Qed.

Lemma check_filter_fold rec filters is_valid record_issues :
  fold_left (check_filter rec) filters (is_valid, record_issues)
  = (is_valid && forallb (item_ok rec) filters,
     (record_issues ++ flat_map (item_issue rec) filters)).
Proof.
  revert is_valid record_issues.
  induction filters as [|item filters IH]; intros b l; cbn [fold_left forallb flat_map].
  - by rewrite andb_true_r, app_nil_r.
  - by rewrite check_filter_step, IH, andb_assoc, app_assoc.
Qed.

Lemma check_record_spec filters rec :
  check_record filters rec
  = (forallb (item_ok rec) filters, flat_map (item_issue rec) filters).
Proof. unfold check_record. by rewrite check_filter_fold. Qed.

Lemma verify_record_fold filters data n v inv fc :
  fold_left (verify_record filters) data (mkResult n v inv fc)
  = mkResult n
      (v + length (List.filter (fun r => forallb (item_ok r) filters) data))
      (inv ++ map (fun r => mkInvalid r (flat_map (item_issue r) filters))
                (List.filter (fun r => negb (forallb (item_ok r) filters)) data))
      fc.
Proof.
  revert v inv. induction data as [|r data IH]; intros v inv;
    cbn [fold_left List.filter].
  - cbn [length map]. by rewrite Nat.add_0_r, app_nil_r.
  - unfold verify_record at 2. rewrite check_record_spec.
    destruct (forallb (item_ok r) filters); cbn [negb map length];
      cbn [total_records valid_records invalid_records filter_compliance];
      rewrite IH; f_equal.
    + lia.
    + by rewrite <- app_assoc.
Qed.

Lemma compliance_step_fold data filters ks n v inv fc :
  fold_left (compliance_step data filters) ks (mkResult n v inv fc)
  = mkResult n v inv (fold_left (compliance_insert data filters) ks fc).
Proof.
  revert fc. induction ks as [|k ks IH]; intros fc; cbn [fold_left]; [done|].
  unfold compliance_step at 2, compliance_insert at 2.
  destruct (Dict.get filter_mapping k), (Dict.get filters k);
    cbn [total_records valid_records invalid_records filter_compliance];
    apply IH.
Qed.

Lemma verify_filters_unfold data filters :
  verify_filters data filters
  = mkResult (length data)
      (length (List.filter (fun r => forallb (item_ok r) filters) data))
      (map (fun r => mkInvalid r (flat_map (item_issue r) filters))
         (List.filter (fun r => negb (forallb (item_ok r) filters)) data))
      (fold_left (compliance_insert data filters) (Dict.keys filters) ∅).
Proof.
  unfold verify_filters. by rewrite verify_record_fold, compliance_step_fold.
Qed.

Lemma item_ok_chain c r : forallb (item_ok r) (Chain_items c) = chain_valid c r.
Proof. reflexivity. Qed.

Lemma item_issue_chain c r : flat_map (item_issue r) (Chain_items c) = chain_issues c r.
Proof. reflexivity. Qed.

Lemma compliant_count_length data fv field :
  compliant_count data fv field
  = length (List.filter (fun r => field_compliant fv (Row_get r field "")) data).
Proof.
  unfold compliant_count, field_compliant.
  induction (List.filter _ data) as [|r l IH]; simpl; [done | by rewrite IH].
Qed.

(** On a row without blanks at the ends of its fields the validity loop,
    which strips the field, and the compliance table, which does not,
    test the same text. *)
Lemma chain_valid_stripped c r :
  row_stripped r ->
  chain_valid c r
  = forallb (fun item => field_compliant (snd item) (Row_get r (fst item) ""))
      (Chain_items c).
Proof.
  intros Hr. unfold row_stripped, Row_items in Hr.
  repeat match goal with
  | H : Forall _ (_ :: _) |- _ => apply Forall_cons in H as [? H]
  end.
  unfold chain_valid, Chain_items, Row_get, Row_items. cbn in *. congruence.
Qed.

(** C1. For every list of records and every filter chain: the chain has
    the five dimensions; [valid_records] counts the records for which
    every dimension passes; [invalid_records] lists the others in order,
    each with its messages; a record is valid exactly when, for every
    dimension, the filter value in lower case occurs in the stripped
    field value in lower case; and a failing dimension gives the message
    [<dim>: expected '<X>', got '<Y>'] with [Y] the stripped field.  On a
    row whose fields have no blank at their ends, as [get_table_data]
    builds them, the stripped field is the field. *)
Theorem verify_filters_substring_rule (data : list Row) (c : FilterChain) :
  let res := verify_filters data (Chain_items c) in
  map fst (Chain_items c) = dimensions
  /\ valid_records res = length (List.filter (chain_valid c) data)
  /\ invalid_records res
     = map (fun r => mkInvalid r (chain_issues c r))
         (List.filter (fun r => negb (chain_valid c r)) data)
  /\ (forall r, chain_valid c r = true <->
        forall dim filter_value, In (dim, filter_value) (Chain_items c) ->
          is_substring (PyStr.lower filter_value)
            (PyStr.lower (PyStr.strip (Row_get r dim ""))))
  /\ (forall r, chain_issues c r
        = flat_map
            (fun item =>
               let Y := PyStr.strip (Row_get r (fst item) "") in
               if PyStr.contains (PyStr.lower (snd item)) (PyStr.lower Y) then []
               else [fst item +:+ ": expected '" +:+ snd item
                     +:+ "', got '" +:+ Y +:+ "'"])
            (Chain_items c))
  /\ (forall r, row_stripped r ->
        chain_valid c r
        = forallb
            (fun item => field_compliant (snd item) (Row_get r (fst item) ""))
            (Chain_items c)).
Proof.
  intros res. split; [done|].
  unfold res. rewrite verify_filters_unfold.
  cbn [valid_records invalid_records].
  split; [done|]. split; [done|]. split; [|split; [done|]].
  2: { intros r. apply chain_valid_stripped. }
  intros r. unfold chain_valid. rewrite forallb_forall. split.
  - intros Hall dim fv Hin. apply contains_substring. apply (Hall (dim, fv) Hin).
  - intros Hall [dim fv] Hin. apply contains_substring. by apply Hall.
Qed.

Lemma percentage_of_expected count data :
  percentage_of count data = expected_percentage count data.
Proof. by destruct data. Qed.

Lemma chain_compliance_fold data c :
  fold_left (compliance_insert data (Chain_items c)) (Dict.keys (Chain_items c)) ∅
  = <["point" := compliance_entry data (c_point c) "point"]>
      (<["territory" := compliance_entry data (c_territory c) "territory"]>
         (<["distributor" := compliance_entry data (c_distributor c) "distributor"]>
            (<["area" := compliance_entry data (c_area c) "area"]>
               (<["region" := compliance_entry data (c_region c) "region"]> ∅)))).
Proof. reflexivity. Qed.

(** C5. On an empty list of records the verifier returns total 0,
    valid 0, no invalid record, and for each dimension of the chain the
    entry compliant 0, total 0, percentage 0.  On any list, the entry of
    each dimension holds the number of records whose field passes the
    rule of that dimension, the number of records, and that count
    divided by the number of records times 100 (0 on an empty list). *)
Theorem verify_filters_compliance (data : list Row) (c : FilterChain) :
  verify_filters [] (Chain_items c)
  = mkResult 0 0 []
      (list_to_map (map (fun dim => (dim, mkCompliance 0 0 (PyInt 0))) dimensions))
  /\ Forall
       (fun item =>
          let count :=
            length (List.filter
                      (fun r => field_compliant (snd item) (Row_get r (fst item) ""))
                      data) in
          filter_compliance (verify_filters data (Chain_items c)) !! fst item
          = Some (mkCompliance count (length data) (expected_percentage count data)))
       (Chain_items c).
Proof.
  split.
  - rewrite verify_filters_unfold, chain_compliance_fold.
    reflexivity.
  - rewrite verify_filters_unfold, chain_compliance_fold.
    cbn [filter_compliance]. unfold compliance_entry.
    repeat rewrite compliant_count_length. repeat rewrite percentage_of_expected.
    unfold Chain_items. repeat constructor; cbn [fst snd]; by simplify_map_eq.
Qed.

Section Judgments.

Context {Page : Type}.

Implicit Types (A B S : Type).

Lemma bind_ok {A B} (m : M Page A) (k : A -> M Page B) p p' a :
  m p = (p', Ok a) -> bind m k p = k a p'.
Proof. intros Hm. unfold bind. by rewrite Hm. Qed.

Lemma bind_raise {A B} (m : M Page A) (k : A -> M Page B) p p' :
  m p = (p', Raise) -> bind m k p = (p', Raise).
Proof. intros Hm. unfold bind. by rewrite Hm. Qed.

Lemma returns_ret {A} (a : A) (Q : A -> Prop) : Q a -> returns (Page:=Page) (ret a) Q.
Proof. intros HQ p. by exists p, a. Qed.

Lemma returns_bind {A B} (m : M Page A) (k : A -> M Page B) Q1 Q2 :
  returns m Q1 -> (forall a, Q1 a -> returns (k a) Q2) -> returns (bind m k) Q2.
Proof.
  intros Hm Hk p. destruct (Hm p) as (p1 & a & Hp & Ha).
  destruct (Hk a Ha p1) as (p2 & b & Hp2 & Hb).
  exists p2, b. by rewrite (bind_ok _ _ _ _ _ Hp).
Qed.

Lemma returns_weaken {A} (m : M Page A) (Q1 Q2 : A -> Prop) :
  returns m Q1 -> (forall a, Q1 a -> Q2 a) -> returns m Q2.
Proof.
  intros Hm HQ p. destruct (Hm p) as (p' & a & Hp & Ha). exists p', a. auto.
Qed.

Lemma returns_yields {A} (m : M Page A) Q : returns m Q -> yields m Q.
Proof.
  intros Hm p p' a Hp. destruct (Hm p) as (p1 & a1 & Hp1 & Ha). congruence.
Qed.

Lemma yields_ret {A} (a : A) (Q : A -> Prop) : Q a -> yields (Page:=Page) (ret a) Q.
Proof. intros HQ p p' a' [= _ <-]. done. Qed.

Lemma yields_raise {A} (Q : A -> Prop) : yields (Page:=Page) raise Q.
Proof. intros p p' a [=]. Qed.

Lemma yields_bind {A B} (m : M Page A) (k : A -> M Page B) Q1 Q2 :
  yields m Q1 -> (forall a, Q1 a -> yields (k a) Q2) -> yields (bind m k) Q2.
Proof.
  intros Hm Hk p p' b. unfold bind.
  destruct (m p) as [p1 [a|]] eqn:Hp; [|done].
  intros Hb. exact (Hk a (Hm _ _ _ Hp) _ _ _ Hb).
Qed.

Lemma yields_any {A} (m : M Page A) : yields m (fun _ => True).
Proof. done. Qed.

Lemma yields_weaken {A} (m : M Page A) (Q1 Q2 : A -> Prop) :
  yields m Q1 -> (forall a, Q1 a -> Q2 a) -> yields m Q2.
Proof. intros Hm HQ p p' a Hp. eauto. Qed.

Lemma yields_try {A} (m h : M Page A) Q :
  yields m Q -> yields h Q -> yields (try_except m h) Q.
Proof.
  intros Hm Hh p p' a. unfold try_except.
  destruct (m p) as [p1 [a1|]] eqn:Hp.
  - intros [= <- <-]. eauto.
  - apply Hh.
Qed.

Lemma returns_try {A} (m h : M Page A) Q :
  yields m Q -> returns h Q -> returns (try_except m h) Q.
Proof.
  intros Hm Hh p. unfold try_except.
  destruct (m p) as [p1 [a1|]] eqn:Hp.
  - exists p1, a1. eauto.
  - apply Hh.
Qed.

Lemma yields_for_each {A S} (l : list A) (body : A -> S -> M Page S)
    (I : S -> Prop) s :
  I s -> (forall x s, x ∈ l -> I s -> yields (body x s) I) ->
  yields (for_each l body s) I.
Proof.
  revert s. induction l as [|x l IH]; intros s Hs Hbody; cbn [for_each].
  - by apply yields_ret.
  - eapply yields_bind.
    + apply Hbody; [left | done].
    + intros s' Hs'. apply IH; [done|]. intros y t Hy. apply Hbody. by right.
Qed.

Lemma returns_for_each {A S} (l : list A) (body : A -> S -> M Page S)
    (I : S -> Prop) s :
  I s -> (forall x s, x ∈ l -> I s -> returns (body x s) I) ->
  returns (for_each l body s) I.
Proof.
  revert s. induction l as [|x l IH]; intros s Hs Hbody; cbn [for_each].
  - by apply returns_ret.
  - eapply returns_bind.
    + apply Hbody; [left | done].
    + intros s' Hs'. apply IH; [done|]. intros y t Hy. apply Hbody. by right.
Qed.

(** A loop whose body adds at most [bound] items adds at most
    [length l * bound]. *)
Lemma returns_for_each_length {A T} (l : list A) (body : A -> list T -> M Page (list T))
    (bound : nat) s :
  (forall x s, returns (body x s) (fun s' => length s' <= length s + bound)) ->
  returns (for_each l body s) (fun s' => length s' <= length s + length l * bound).
Proof.
  intros Hbody. revert s. induction l as [|x l IH]; intros s; cbn [for_each length].
  - apply returns_ret. lia.
  - eapply returns_bind; [apply Hbody|].
    intros s1 Hs1. eapply returns_weaken; [apply IH|].
    intros s2 Hs2. simpl in *. lia.
Qed.

End Judgments.

(** ** Facts on [strip] *)

Lemma rstrip_idemp s : PyStr.rstrip (PyStr.rstrip s) = PyStr.rstrip s.
Proof.
  induction s as [|c s IH]; [done|]. cbn [PyStr.rstrip].
  destruct (PyStr.rstrip s) as [|d r] eqn:Hr.
  - destruct (PyStr.isspace c) eqn:Hc; [done|]. cbn [PyStr.rstrip]. by rewrite Hc.
  - cbn [PyStr.rstrip]. cbn [PyStr.rstrip] in IH. by rewrite IH.
Qed.

Lemma lstrip_starts_unblank s : starts_unblank (PyStr.lstrip s).
Proof.
  induction s as [|c s IH]; [done|]. cbn [PyStr.lstrip].
  by destruct (PyStr.isspace c) eqn:Hc.
Qed.

Lemma lstrip_unblank s : starts_unblank s -> PyStr.lstrip s = s.
Proof. destruct s as [|c s]; [done|]. cbn. by intros ->. Qed.

Lemma rstrip_starts_unblank s : starts_unblank s -> starts_unblank (PyStr.rstrip s).
Proof.
  destruct s as [|c s]; [done|]. cbn [starts_unblank PyStr.rstrip]. intros Hc.
  destruct (PyStr.rstrip s); by rewrite ?Hc.
Qed.

Lemma strip_idemp s : PyStr.strip (PyStr.strip s) = PyStr.strip s.
Proof.
  unfold PyStr.strip.
  rewrite (lstrip_unblank (PyStr.rstrip _)), rstrip_idemp; [done|].
  apply rstrip_starts_unblank, lstrip_starts_unblank.
Qed.

Lemma truthy_nonempty s : PyStr.truthy s = true <-> s <> "".
Proof. by destruct s. Qed.

(** ** The helpers of the script never raise *)

Section Helpers.

Context {Page : Type} {browser : Playwright Page}.

Lemma time_sleep_returns ms : returns (time_sleep ms) (fun _ => True).
Proof. intros p. by exists (sleep ms p), tt. Qed.

Lemma swallow_returns (m : M Page unit) : returns (try_except m (ret tt)) (fun _ => True).
Proof. apply returns_try; [apply yields_any | by apply returns_ret]. Qed.

Lemma wait_for_loading_returns : returns wait_for_loading (fun _ => True).
Proof.
  unfold wait_for_loading, wait_for_loading_timeout.
  repeat (eapply returns_bind; [apply swallow_returns | intros _ _]).
  apply time_sleep_returns.
Qed.

Lemma clear_all_filters_returns : returns clear_all_filters (fun _ => True).
Proof. apply swallow_returns. Qed.

Lemma select_dropdown_option_returns name text :
  returns (select_dropdown_option name text) (fun _ => True).
Proof. apply returns_try; [apply yields_any | by apply returns_ret]. Qed.

Lemma options_ok_nil : options_ok [].
Proof. split; constructor. Qed.

Lemma read_option_yields option option_texts :
  options_ok option_texts ->
  yields (read_option option option_texts) options_ok.
Proof.
  intros Hok. unfold read_option. apply yields_try; [|by apply yields_ret].
  eapply yields_bind; [apply yields_any | intros visible _].
  destruct visible; [|by apply yields_ret].
  eapply yields_bind; [apply yields_any | intros inner _]. cbv zeta.
  destruct (PyStr.truthy (PyStr.strip inner)) eqn:Htruthy; cbn [andb];
    [|by apply yields_ret].
  case_bool_decide as Hin; cbn [negb]; [by apply yields_ret|].
  apply yields_ret. destruct Hok as [Hall Hnodup]. split.
  - apply Forall_app. split; [done|]. constructor; [|done]. split.
    + by apply truthy_nonempty.
    + apply strip_idemp.
  - apply NoDup_app. split; [done|]. split.
    + intros x Hx Hx'. apply list_elem_of_singleton in Hx'. by subst.
    + apply NoDup_singleton.
Qed.

Lemma get_dropdown_options_returns name :
  returns (get_dropdown_options name) options_ok.
Proof.
  unfold get_dropdown_options. apply returns_try.
  - do 4 (eapply yields_bind; [apply yields_any | intros ? _]).
    eapply yields_bind.
    + apply yields_for_each; [apply options_ok_nil|].
      intros option texts _. apply read_option_yields.
    + intros texts Htexts.
      eapply yields_bind; [apply yields_any | intros _ _]. by apply yields_ret.
  - apply returns_ret. apply options_ok_nil.
Qed.

End Helpers.

(** ** The limits *)

Lemma slice_to_sublist {A : Type} (k : Z) (l : list A) : slice_to k l `sublist_of` l.
Proof. unfold slice_to. destruct (0 <=? k)%Z; apply sublist_take. Qed.

Lemma apply_limit_sublist limit options : apply_limit limit options `sublist_of` options.
Proof.
  destruct limit as [k|]; cbn; [|done].
  destruct (k =? 0)%Z; [done | apply slice_to_sublist].
Qed.

Lemma apply_limit_elem limit options v :
  v ∈ apply_limit limit options -> v ∈ options.
Proof. apply (sublist_subseteq _ _ (apply_limit_sublist limit options)). Qed.

Lemma apply_limit_positive (k : Z) (options : list string) :
  (0 < k)%Z -> apply_limit (Some k) options = take (Z.to_nat k) options.
Proof.
  intros Hk. unfold apply_limit, slice_to.
  destruct (Z.eqb_spec k 0); [lia|]. destruct (Z.leb_spec 0 k); [done | lia].
Qed.

Lemma apply_limit_length limit options n :
  length options <= n -> length (apply_limit limit options) <= limit_bound limit n.
Proof.
  intros Hn.
  pose proof (sublist_length _ _ (apply_limit_sublist limit options)) as Hle.
  destruct limit as [k|]; unfold limit_bound; [|lia].
  destruct (Z.ltb_spec 0 k); [|lia].
  rewrite apply_limit_positive by done. rewrite length_take. lia.
Qed.

Lemma apply_limit_nil limit : apply_limit limit [] = [].
Proof.
  pose proof (sublist_length _ _ (apply_limit_sublist limit [])) as Hle.
  destruct (apply_limit limit []); [done | cbn in Hle; lia].
Qed.

(** ** The explorer *)

Section ExplorerFacts.

Context {Page : Type} {browser : Playwright Page}.

Variable LIMITS : FilterLimits.

Lemma clear_all_filters_ok p : exists p', clear_all_filters p = (p', Ok tt).
Proof. destruct (clear_all_filters_returns p) as (p' & [] & Hp & _). eauto. Qed.

Lemma wait_for_loading_ok p : exists p', wait_for_loading p = (p', Ok tt).
Proof. destruct (wait_for_loading_returns p) as (p' & [] & Hp & _). eauto. Qed.

Lemma returns_also {A : Type} (m : M Page A) (Q1 Q2 : A -> Prop) :
  returns m Q1 -> yields m Q2 -> returns m (fun a => Q1 a /\ Q2 a).
Proof.
  intros H1 H2 p. destruct (H1 p) as (p' & a & Hp & Ha). exists p', a. eauto.
Qed.

(** One pass through a loop body up to its query: the filters are
    cleared, then each selection either fails, which ends the pass with
    [complete_chains] as it was, or is followed by the wait. *)
Ltac enter_body :=
  eapply returns_bind; [apply clear_all_filters_returns | intros _ _];
  repeat
    (eapply returns_bind;
       [apply select_dropdown_option_returns
       | intros [] _; cbn [negb]; [| by apply returns_ret];
         eapply returns_bind; [apply wait_for_loading_returns | intros _ _]]).

Tactic Notation "query" constr(Hq) "as" ident(l) ident(Hl) :=
  eapply returns_bind;
    [apply (returns_also _ _ _ (get_dropdown_options_returns _) Hq)
    | intros l [_ Hl]; cbv zeta; rewrite Forall_forall in Hl].

(** Properties of the values of each dimension, kept by the limits,
    carry over to every chain the explorer builds. *)
Section Invariant.

Variables G_region G_area G_distributor G_territory G_point : string -> Prop.

Hypothesis query_region :
  yields (get_dropdown_options "Filter by Region")
    (fun l => Forall G_region (apply_limit (lim_region LIMITS) l)).
Hypothesis query_area :
  yields (get_dropdown_options "Filter by Area")
    (fun l => Forall G_area (apply_limit (lim_area LIMITS) l)).
Hypothesis query_distributor :
  yields (get_dropdown_options "Filter by Distribution house")
    (fun l => Forall G_distributor (apply_limit (lim_distributor LIMITS) l)).
Hypothesis query_territory :
  yields (get_dropdown_options "Filter by Territory")
    (fun l => Forall G_territory (apply_limit (lim_territory LIMITS) l)).
Hypothesis query_point :
  yields (get_dropdown_options "Filter by Point")
    (fun l => Forall G_point (apply_limit (lim_point LIMITS) l)).

Abbreviation chain_good :=
  (chain_good G_region G_area G_distributor G_territory G_point).

Lemma territory_body_good region area distributor territory cc :
  G_region region -> G_area area -> G_distributor distributor ->
  G_territory territory -> Forall chain_good cc ->
  returns (territory_body LIMITS region area distributor territory cc)
    (Forall chain_good).
Proof.
  intros Hr Ha Hd Ht Hcc. unfold territory_body. enter_body.
  query query_point as points Hpoints.
  apply returns_for_each; [done|].
  intros point cc' Hpoint Hcc'. apply returns_ret.
  apply Forall_app. split; [done|]. constructor; [|done].
  by repeat split; try apply Hpoints.
Qed.

Lemma distributor_body_good region area distributor cc :
  G_region region -> G_area area -> G_distributor distributor ->
  Forall chain_good cc ->
  returns (distributor_body LIMITS region area distributor cc) (Forall chain_good).
Proof.
  intros Hr Ha Hd Hcc. unfold distributor_body. enter_body.
  query query_territory as territories Hterritories.
  apply returns_for_each; [done|].
  intros territory cc' Hterritory Hcc'. apply territory_body_good; try done.
  by apply Hterritories.
Qed.

Lemma area_body_good region area cc :
  G_region region -> G_area area -> Forall chain_good cc ->
  returns (area_body LIMITS region area cc) (Forall chain_good).
Proof.
  intros Hr Ha Hcc. unfold area_body. enter_body.
  query query_distributor as distributors Hdistributors.
  apply returns_for_each; [done|].
  intros distributor cc' Hdistributor Hcc'. apply distributor_body_good; try done.
  by apply Hdistributors.
Qed.

Lemma region_body_good region cc :
  G_region region -> Forall chain_good cc ->
  returns (region_body LIMITS region cc) (Forall chain_good).
Proof.
  intros Hr Hcc. unfold region_body. enter_body. query query_area as areas Hareas.
  apply returns_for_each; [done|].
  intros area cc' Harea Hcc'. apply area_body_good; try done.
  by apply Hareas.
Qed.

Lemma build_complete_filter_chains_good :
  returns (build_complete_filter_chains LIMITS) (Forall chain_good).
Proof.
  unfold build_complete_filter_chains.
  eapply returns_bind; [apply clear_all_filters_returns | intros _ _].
  query query_region as regions Hregions.
  destruct (apply_limit (lim_region LIMITS) regions) as [|region explored].
  - by apply returns_ret.
  - apply returns_for_each; [done|].
    intros r cc' Hr Hcc'. apply region_body_good; try done.
    by apply Hregions.
Qed.

End Invariant.

End ExplorerFacts.

Section ExplorerClaims.

Context {Page : Type} {browser : Playwright Page}.

Variable LIMITS : FilterLimits.

Lemma query_options_ok name limit :
  yields (get_dropdown_options name)
    (fun l => Forall option_text_ok (apply_limit limit l)).
Proof.
  eapply yields_weaken; [apply returns_yields, get_dropdown_options_returns|].
  intros l [Hall _]. rewrite Forall_forall in Hall. apply Forall_forall.
  intros v Hv. by apply Hall, (apply_limit_elem limit).
Qed.

(** C3. A query of a dropdown never raises and returns texts that are
    not empty, have no blank at their ends and do not repeat.  Every
    chain the explorer returns has a value for each of the five
    dimensions, and each value is such a text; the explorer itself
    never raises. *)
Theorem explorer_chains_complete :
  (forall name,
      returns (get_dropdown_options name)
        (fun options => Forall option_text_ok options /\ NoDup options))
  /\ returns (build_complete_filter_chains LIMITS) (Forall chain_complete).
Proof.
  split; [apply get_dropdown_options_returns|].
  eapply returns_weaken.
  - apply (build_complete_filter_chains_good LIMITS
             option_text_ok option_text_ok option_text_ok option_text_ok
             option_text_ok); apply query_options_ok.
  - intros chains Hchains. eapply Forall_impl; [exact Hchains|].
    intros c (Hr & Ha & Hd & Ht & Hp).
    split; [done|]. unfold Chain_items.
    do 5 (constructor; [assumption|]). constructor.
Qed.

Lemma returns_both {A : Type} (m : M Page A) (Q1 Q2 : A -> Prop) :
  returns m Q1 -> returns m Q2 -> returns m (fun a => Q1 a /\ Q2 a).
Proof. intros H1 H2. apply returns_also; [done | by apply returns_yields]. Qed.

Lemma query_explored name limit :
  yields (get_dropdown_options name)
    (fun l => Forall (explored name limit) (apply_limit limit l)).
Proof.
  intros p p' l Hl. apply Forall_forall. intros v Hv. by exists p, p', l.
Qed.

(** *** Counting the chains *)

Lemma bound_step (a b c x y : nat) : a <= b -> x <= y + a * c -> x <= y + b * c.
Proof. intros Hab Hx. pose proof (Nat.mul_le_mono_r a b c Hab). lia. Qed.

Section Counting.

Variables n_region n_area n_distributor n_territory n_point : nat.

Hypothesis size_region :
  yields (get_dropdown_options "Filter by Region") (fun l => length l <= n_region).
Hypothesis size_area :
  yields (get_dropdown_options "Filter by Area") (fun l => length l <= n_area).
Hypothesis size_distributor :
  yields (get_dropdown_options "Filter by Distribution house")
    (fun l => length l <= n_distributor).
Hypothesis size_territory :
  yields (get_dropdown_options "Filter by Territory")
    (fun l => length l <= n_territory).
Hypothesis size_point :
  yields (get_dropdown_options "Filter by Point") (fun l => length l <= n_point).

Abbreviation b_region := (limit_bound (lim_region LIMITS) n_region).
Abbreviation b_area := (limit_bound (lim_area LIMITS) n_area).
Abbreviation b_distributor := (limit_bound (lim_distributor LIMITS) n_distributor).
Abbreviation b_territory := (limit_bound (lim_territory LIMITS) n_territory).
Abbreviation b_point := (limit_bound (lim_point LIMITS) n_point).

(** A loop body up to its query; a selection that fails leaves the
    chains as they were, which is within any bound. *)
Ltac enter_counting :=
  eapply returns_bind; [apply clear_all_filters_returns | intros _ _];
  repeat
    (eapply returns_bind;
       [apply select_dropdown_option_returns
       | intros [] _; cbn [negb]; [| apply returns_ret; lia];
         eapply returns_bind; [apply wait_for_loading_returns | intros _ _]]).

Tactic Notation "count_query" constr(Hsize) constr(limit) "as" ident(l) ident(Hl) :=
  eapply returns_bind;
    [apply (returns_also _ _ _ (get_dropdown_options_returns _) Hsize)
    | intros l [_ Hl]; cbv zeta; cbv beta in Hl;
      apply (apply_limit_length limit) in Hl].

Lemma territory_body_count region area distributor territory cc :
  returns (territory_body LIMITS region area distributor territory cc)
    (fun cc' => length cc' <= length cc + b_point).
Proof.
  unfold territory_body. enter_counting.
  count_query size_point (lim_point LIMITS) as points Hpoints.
  eapply returns_weaken.
  - apply (returns_for_each_length _ _ 1). intros point cc'.
    apply returns_ret. rewrite length_app. cbn. lia.
  - intros cc'. cbv beta. lia.
Qed.

Lemma distributor_body_count region area distributor cc :
  returns (distributor_body LIMITS region area distributor cc)
    (fun cc' => length cc' <= length cc + b_territory * b_point).
Proof.
  unfold distributor_body. enter_counting.
  count_query size_territory (lim_territory LIMITS) as territories Hterritories.
  eapply returns_weaken.
  - apply (returns_for_each_length _ _ b_point). intros territory cc'.
    apply territory_body_count.
  - intros cc'. by apply bound_step.
Qed.

Lemma area_body_count region area cc :
  returns (area_body LIMITS region area cc)
    (fun cc' => length cc' <= length cc + b_distributor * (b_territory * b_point)).
Proof.
  unfold area_body. enter_counting.
  count_query size_distributor (lim_distributor LIMITS) as distributors Hdistributors.
  eapply returns_weaken.
  - apply (returns_for_each_length _ _ (b_territory * b_point)).
    intros distributor cc'. apply distributor_body_count.
  - intros cc'. by apply bound_step.
Qed.

Lemma region_body_count region cc :
  returns (region_body LIMITS region cc)
    (fun cc' =>
       length cc' <= length cc + b_area * (b_distributor * (b_territory * b_point))).
Proof.
  unfold region_body. enter_counting.
  count_query size_area (lim_area LIMITS) as areas Hareas.
  eapply returns_weaken.
  - apply (returns_for_each_length _ _ (b_distributor * (b_territory * b_point))).
    intros area cc'. apply area_body_count.
  - intros cc'. by apply bound_step.
Qed.

Lemma build_complete_filter_chains_count :
  returns (build_complete_filter_chains LIMITS)
    (fun chains =>
       length chains
       <= b_region * (b_area * (b_distributor * (b_territory * b_point)))).
Proof.
  unfold build_complete_filter_chains.
  eapply returns_bind; [apply clear_all_filters_returns | intros _ _].
  count_query size_region (lim_region LIMITS) as regions Hregions.
  destruct (apply_limit (lim_region LIMITS) regions) as [|region explored] eqn:Hcut.
  - apply returns_ret. cbn. lia.
  - eapply returns_weaken.
    + apply (returns_for_each_length _ _
               (b_area * (b_distributor * (b_territory * b_point)))).
      intros r cc'. apply region_body_count.
    + intros cc'. cbv beta. intros Hle.
      apply (bound_step _ _ _ _ 0 Hregions) in Hle. lia.
Qed.

End Counting.

End ExplorerClaims.

(** C4. A limit [k > 0] cuts an option list to its first [k] items, in
    the order of discovery.  Every value of every chain the explorer
    returns is among the options so cut of a query of its dropdown; the
    regions are among the cut options of the first query.  When no query
    of a dropdown returns more than [n] options, the number of chains is
    at most the product over the dimensions of [min k n] where a limit
    [k > 0] is set and [n] elsewhere. *)
Theorem explorer_respects_limits {Page : Type} {browser : Playwright Page}
    (LIMITS : FilterLimits) (n_region n_area n_distributor n_territory n_point : nat)
    (size_region :
       yields (get_dropdown_options "Filter by Region")
         (fun l => length l <= n_region))
    (size_area :
       yields (get_dropdown_options "Filter by Area") (fun l => length l <= n_area))
    (size_distributor :
       yields (get_dropdown_options "Filter by Distribution house")
         (fun l => length l <= n_distributor))
    (size_territory :
       yields (get_dropdown_options "Filter by Territory")
         (fun l => length l <= n_territory))
    (size_point :
       yields (get_dropdown_options "Filter by Point") (fun l => length l <= n_point)) :
  (forall (k : Z) (options : list string),
      (0 < k)%Z -> apply_limit (Some k) options = take (Z.to_nat k) options)
  /\ returns (build_complete_filter_chains LIMITS)
       (fun chains =>
          Forall (chain_explored LIMITS) chains
          /\ length chains
             <= limit_bound (lim_region LIMITS) n_region
                * (limit_bound (lim_area LIMITS) n_area
                   * (limit_bound (lim_distributor LIMITS) n_distributor
                      * (limit_bound (lim_territory LIMITS) n_territory
                         * limit_bound (lim_point LIMITS) n_point))))
  /\ (forall p p1 p2 regions,
        clear_all_filters p = (p1, Ok tt) ->
        get_dropdown_options "Filter by Region" p1 = (p2, Ok regions) ->
        exists p' chains,
          build_complete_filter_chains LIMITS p = (p', Ok chains)
          /\ Forall (fun c => c_region c ∈ apply_limit (lim_region LIMITS) regions)
               chains).
Proof.
  split; [apply apply_limit_positive|]. split.
  - apply returns_both.
    + eapply returns_weaken.
      * apply (build_complete_filter_chains_good LIMITS
                 (explored "Filter by Region" (lim_region LIMITS))
                 (explored "Filter by Area" (lim_area LIMITS))
                 (explored "Filter by Distribution house" (lim_distributor LIMITS))
                 (explored "Filter by Territory" (lim_territory LIMITS))
                 (explored "Filter by Point" (lim_point LIMITS)));
          apply query_explored.
      * done.
    + by apply build_complete_filter_chains_count.
  - intros p p1 p2 regions Hclear Hquery. unfold build_complete_filter_chains.
    rewrite (bind_ok _ _ _ _ _ Hclear), (bind_ok _ _ _ _ _ Hquery). cbv zeta.
    destruct (apply_limit (lim_region LIMITS) regions) as [|region cut] eqn:Hcut.
    + by exists p2, [].
    + apply (returns_weaken _ (Forall (chain_good (.∈ region :: cut) (fun _ => True)
                (fun _ => True) (fun _ => True) (fun _ => True)))).
      * apply returns_for_each; [done|]. intros r cc Hr Hcc.
        apply region_body_good; try done;
          intros ? ? ? _; by apply Forall_forall.
      * intros chains Hchains. eapply Forall_impl; [exact Hchains|].
        by intros c [Hc _].
Qed.

(** C9. When the query of the regions returns no option, the explorer
    returns the empty list of chains, and does not raise. *)
Theorem explorer_no_regions {Page : Type} {browser : Playwright Page}
    (LIMITS : FilterLimits) (p p1 p2 : Page) :
  clear_all_filters p = (p1, Ok tt) ->
  get_dropdown_options "Filter by Region" p1 = (p2, Ok []) ->
  build_complete_filter_chains LIMITS p = (p2, Ok []).
Proof.
  intros Hclear Hquery. unfold build_complete_filter_chains.
  rewrite (bind_ok _ _ _ _ _ Hclear), (bind_ok _ _ _ _ _ Hquery). cbv zeta.
  by rewrite apply_limit_nil.
Qed.

(** C10. A limit of [0] is no limit: the option list is left whole, as
    with [None], and in each dimension the explorer with limit [0] is
    the explorer with limit [None].  Any other int cuts the list by the
    slice [options[:k]]. *)
Theorem zero_limit_is_unbounded {Page : Type} {browser : Playwright Page}
    (l1 l2 l3 l4 : option Z) :
  (forall options, apply_limit (Some 0%Z) options = options)
  /\ (forall options, apply_limit None options = options)
  /\ (forall k options, k <> 0%Z -> apply_limit (Some k) options = slice_to k options)
  /\ build_complete_filter_chains (mkLimits (Some 0%Z) l1 l2 l3 l4)
     = build_complete_filter_chains (mkLimits None l1 l2 l3 l4)
  /\ build_complete_filter_chains (mkLimits l1 (Some 0%Z) l2 l3 l4)
     = build_complete_filter_chains (mkLimits l1 None l2 l3 l4)
  /\ build_complete_filter_chains (mkLimits l1 l2 (Some 0%Z) l3 l4)
     = build_complete_filter_chains (mkLimits l1 l2 None l3 l4)
  /\ build_complete_filter_chains (mkLimits l1 l2 l3 (Some 0%Z) l4)
     = build_complete_filter_chains (mkLimits l1 l2 l3 None l4)
  /\ build_complete_filter_chains (mkLimits l1 l2 l3 l4 (Some 0%Z))
     = build_complete_filter_chains (mkLimits l1 l2 l3 l4 None).
Proof.
  split; [reflexivity|]. split; [reflexivity|]. split.
  - intros k options Hk. unfold apply_limit. by destruct (Z.eqb_spec k 0).
  - repeat split; reflexivity.
Qed.

(** *** A selection that fails *)

Section Skips.

Context {Page : Type} {browser : Playwright Page}.

Variable LIMITS : FilterLimits.

(** Follow the selections of a loop body to the one that fails. *)
Ltac follow Hfails :=
  let Hsel := fresh "Hsel" in
  let Hwait := fresh "Hwait" in
  let Hrest := fresh "Hrest" in
  inversion Hfails as [? ? ? ? ? Hsel | ? ? ? ? ? ? ? Hsel Hwait Hrest]; subst;
  clear Hfails; rewrite (bind_ok _ _ _ _ _ Hsel); cbn [negb];
  first [ reflexivity | rewrite (bind_ok _ _ _ _ _ Hwait); follow Hrest ].

Lemma region_body_skips region cc p p0 p' :
  clear_all_filters p = (p0, Ok tt) ->
  selection_fails [("Filter by Region", region)] p0 p' ->
  region_body LIMITS region cc p = (p', Ok cc).
Proof.
  intros Hclear Hfails. unfold region_body. rewrite (bind_ok _ _ _ _ _ Hclear).
  follow Hfails.
Qed.

Lemma area_body_skips region area cc p p0 p' :
  clear_all_filters p = (p0, Ok tt) ->
  selection_fails [("Filter by Region", region); ("Filter by Area", area)] p0 p' ->
  area_body LIMITS region area cc p = (p', Ok cc).
Proof.
  intros Hclear Hfails. unfold area_body. rewrite (bind_ok _ _ _ _ _ Hclear).
  follow Hfails.
Qed.

Lemma distributor_body_skips region area distributor cc p p0 p' :
  clear_all_filters p = (p0, Ok tt) ->
  selection_fails
    [("Filter by Region", region); ("Filter by Area", area);
     ("Filter by Distribution house", distributor)] p0 p' ->
  distributor_body LIMITS region area distributor cc p = (p', Ok cc).
Proof.
  intros Hclear Hfails. unfold distributor_body. rewrite (bind_ok _ _ _ _ _ Hclear).
  follow Hfails.
Qed.

Lemma territory_body_skips region area distributor territory cc p p0 p' :
  clear_all_filters p = (p0, Ok tt) ->
  selection_fails
    [("Filter by Region", region); ("Filter by Area", area);
     ("Filter by Distribution house", distributor);
     ("Filter by Territory", territory)] p0 p' ->
  territory_body LIMITS region area distributor territory cc p = (p', Ok cc).
Proof.
  intros Hclear Hfails. unfold territory_body. rewrite (bind_ok _ _ _ _ _ Hclear).
  follow Hfails.
Qed.

Lemma for_each_cons_ok {A S : Type} (x : A) (rest : list A)
    (body : A -> S -> M Page S) (s s' : S) p p' :
  body x s p = (p', Ok s') ->
  for_each (x :: rest) body s p = for_each rest body s' p'.
Proof. intros Hbody. cbn [for_each]. by rewrite (bind_ok _ _ _ _ _ Hbody). Qed.

End Skips.


(** ** [str] of a row determines the row *)

Lemma unrepr_char (q c : ascii) (tail : string) :
  q = PyStr.quote1 \/ q = PyStr.quote2 ->
  unrepr_body q (PyStr.repr_char q c tail) = cons_fst c (unrepr_body q tail).
Proof.
  intros [-> | ->];
    destruct c as [[] [] [] [] [] [] [] []]; reflexivity.
Qed.

Lemma unrepr_repr_body (q : ascii) (s rest : string) :
  q = PyStr.quote1 \/ q = PyStr.quote2 ->
  unrepr_body q (PyStr.repr_body q s (String q rest)) = Some (s, rest).
Proof.
  intros Hq. induction s as [|c s IH]; cbn [PyStr.repr_body].
  - by destruct Hq as [-> | ->].
  - by rewrite unrepr_char, IH.
Qed.

Lemma repr_quote_cases s :
  PyStr.repr_quote s = PyStr.quote1 \/ PyStr.repr_quote s = PyStr.quote2.
Proof. unfold PyStr.repr_quote. destruct (_ && _); auto. Qed.

Lemma repr_then_inj a b x y :
  PyStr.repr_then a x = PyStr.repr_then b y -> a = b /\ x = y.
Proof.
  unfold PyStr.repr_then. intros [= Hq Hbody].
  apply (f_equal (unrepr_body (PyStr.repr_quote a))) in Hbody.
  rewrite unrepr_repr_body in Hbody by apply repr_quote_cases.
  rewrite <- Hq in Hbody.
  rewrite unrepr_repr_body in Hbody by apply repr_quote_cases.
  by injection Hbody.
Qed.

Lemma append_inv_head (p a b : string) : p +:+ a = p +:+ b -> a = b.
Proof. induction p as [|c p IH]; cbn; [done|]. intros [= Heq]. auto. Qed.

Lemma key_value_inj k v1 v2 x y :
  PyStr.repr_then k (": " +:+ PyStr.repr_then v1 x)
  = PyStr.repr_then k (": " +:+ PyStr.repr_then v2 y) ->
  v1 = v2 /\ x = y.
Proof.
  intros [_ Heq]%repr_then_inj.
  by apply append_inv_head, repr_then_inj in Heq.
Qed.

Lemma str_row_inj r1 r2 : str_row r1 = str_row r2 -> r1 = r2.
Proof.
  destruct r1 as [n1 c1 g1 a1 d1 t1 p1], r2 as [n2 c2 g2 a2 d2 t2 p2].
  unfold str_row, Dict.str, Row_items. cbn [r_name r_code r_region r_area
    r_distributor r_territory r_point Dict.items_str].
  intros Heq. apply append_inv_head in Heq.
  do 6 (apply key_value_inj in Heq as [<- Heq]; apply append_inv_head in Heq).
  by apply key_value_inj in Heq as [<- _].
Qed.

(** ** Merging pages *)

Lemma elem_of_keys r rows : str_row r ∈ keys rows <-> r ∈ rows.
Proof.
  unfold keys. rewrite elem_of_list_to_set, list_elem_of_In, in_map_iff. split.
  - intros (r' & Heq & Hin). apply str_row_inj in Heq. subst.
    by apply list_elem_of_In.
  - intros Hin. exists r. by rewrite <- list_elem_of_In.
Qed.

Lemma keys_app rows1 rows2 : keys (rows1 ++ rows2) = keys rows1 ∪ keys rows2.
Proof. unfold keys. rewrite map_app. apply list_to_set_app_L. Qed.

Lemma append_unseen_spec rows all seen :
  exists extra,
    fst (append_unseen rows all seen) = all ++ extra
    /\ extra `sublist_of` rows
    /\ NoDup extra
    /\ (forall r, r ∈ extra -> str_row r ∉ seen)
    /\ (forall r, r ∈ rows -> str_row r ∈ seen \/ r ∈ extra).
Proof.
  revert all seen. induction rows as [|row rest IH]; intros all seen;
    cbn [append_unseen].
  - exists []. rewrite app_nil_r. split; [done|]. split; [done|].
    split; [constructor|]. split; intros r Hr; by apply elem_of_nil in Hr.
  - cbv zeta. case_bool_decide as Hseen.
    + destruct (IH all seen) as (extra & Heq & Hsub & Hnd & Hnew & Hall).
      exists extra. repeat split; try done.
      * by apply sublist_cons.
      * intros r [-> | Hr]%elem_of_cons; auto.
    + destruct (IH (all ++ [row]) ({[str_row row]} ∪ seen))
        as (extra & Heq & Hsub & Hnd & Hnew & Hall).
      exists (row :: extra). repeat split.
      * by rewrite Heq, <- app_assoc.
      * by apply sublist_skip.
      * apply NoDup_cons. split; [|done]. intros Hin. apply Hnew in Hin.
        set_solver.
      * intros r [-> | Hr]%elem_of_cons; [done|]. apply Hnew in Hr. set_solver.
      * intros r [-> | Hr]%elem_of_cons; [right; left|].
        destruct (Hall r Hr) as [Hk | Hin]; [|right; by right].
        apply elem_of_union in Hk as [Hk%elem_of_singleton | Hk]; [|by left].
        apply str_row_inj in Hk. subst. right; left.
Qed.

Lemma append_unseen_union first last :
  union_dedup first last (fst (append_unseen last first (∅ ∪ keys first))).
Proof.
  destruct (append_unseen_spec last first (∅ ∪ keys first))
    as (extra & Heq & Hsub & Hnd & Hnew & Hall).
  exists extra. repeat split; try done.
  - intros r Hr Hin. apply (Hnew r Hr). apply elem_of_union. right.
    by apply elem_of_keys.
  - intros r Hr. destruct (Hall r Hr) as [Hk | Hin]; [left | by right].
    apply elem_of_union in Hk as [Hk | Hk]; [set_solver|]. by apply elem_of_keys.
Qed.

(** Rows already seen are not appended again. *)
Lemma append_unseen_seen rows all seen :
  (forall r, r ∈ rows -> str_row r ∈ seen) ->
  append_unseen rows all seen = (all, seen).
Proof.
  intros Hseen. induction rows as [|row rest IH]; cbn [append_unseen]; [done|].
  cbv zeta. rewrite bool_decide_eq_true_2 by (apply Hseen; left).
  apply IH. intros r Hr. apply Hseen. by right.
Qed.

Lemma append_unseen_keeps rows all seen :
  seen ⊆ snd (append_unseen rows all seen)
  /\ forall r, r ∈ rows -> str_row r ∈ snd (append_unseen rows all seen).
Proof.
  revert all seen. induction rows as [|row rest IH]; intros all seen;
    cbn [append_unseen].
  - split; [done|]. intros r Hr. by apply elem_of_nil in Hr.
  - cbv zeta. case_bool_decide as Hseen.
    + destruct (IH all seen) as [Hsub Hall]. split; [done|].
      intros r [-> | Hr]%elem_of_cons; auto.
    + destruct (IH (all ++ [row]) ({[str_row row]} ∪ seen)) as [Hsub Hall].
      assert (Hrow : str_row row ∈ {[str_row row]} ∪ seen).
      { apply elem_of_union. left. by apply elem_of_singleton. }
      split.
      * intros k Hk. apply Hsub, elem_of_union. by right.
      * intros r [-> | Hr]%elem_of_cons; auto.
Qed.

(** Reading the same page a second time appends nothing. *)
Lemma append_unseen_idemp rows all seen :
  let merged := append_unseen rows all seen in
  append_unseen rows (fst merged) (snd merged) = merged.
Proof.
  intros merged. rewrite append_unseen_seen; [by destruct merged|].
  apply append_unseen_keeps.
Qed.

Lemma forallb_seen (new : list Row) (seen : gset string) :
  forallb (fun d => bool_decide (d ∈ seen)) (map str_row new) = true
  <-> forall r, r ∈ new -> str_row r ∈ seen.
Proof.
  rewrite forallb_forall. split.
  - intros Hall r Hr. specialize (Hall (str_row r)).
    rewrite bool_decide_eq_true in Hall. apply Hall, in_map.
    by apply list_elem_of_In.
  - intros Hall k (r & <- & Hr)%in_map_iff. apply bool_decide_eq_true, Hall.
    by apply list_elem_of_In.
Qed.

Lemma extend_if_new_seen new all seen :
  (forall r, r ∈ new -> str_row r ∈ seen) -> extend_if_new new all seen = None.
Proof.
  intros Hseen. unfold extend_if_new. cbv zeta.
  apply forallb_seen in Hseen. rewrite Hseen. by rewrite andb_false_r.
Qed.

Lemma extend_if_new_Some new all seen all' seen' :
  extend_if_new new all seen = Some (all', seen') ->
  all' = (all ++ new) /\ seen' = seen ∪ keys new
  /\ exists r, r ∈ new /\ str_row r ∉ seen.
Proof.
  unfold extend_if_new. cbv zeta.
  destruct (forallb _ _) eqn:Hall; [by rewrite andb_false_r|].
  destruct (bool_decide (new = [])); cbn [negb andb]; [done|].
  intros [= <- <-]. split; [done|]. split; [done|].
  apply not_true_iff_false in Hall. rewrite forallb_seen in Hall.
  rewrite <- (Forall_forall (fun r => str_row r ∈ seen)) in Hall.
  apply not_Forall_Exists in Hall; [|apply _].
  apply Exists_exists in Hall as (r & Hr & Hnot). eauto.
Qed.

(** A page with a new row is appended whole, the rows already seen
    included. *)
Lemma extend_if_new_whole_page new all seen r :
  r ∈ new -> str_row r ∉ seen ->
  extend_if_new new all seen = Some (all ++ new, seen ∪ keys new).
Proof.
  intros Hr Hnew. unfold extend_if_new. cbv zeta.
  destruct (forallb _ _) eqn:Hall.
  - pose proof (proj1 (forallb_seen new seen) Hall) as Hseen.
    by destruct (Hnew (Hseen r Hr)).
  - rewrite bool_decide_eq_false_2; [done|]. intros ->. by apply elem_of_nil in Hr.
Qed.

(** ** Scanning the pagination buttons *)

Lemma int_acc_digits s acc :
  PyStr.all_chars PyStr.isdigit_char s = true -> exists n, PyStr.int_acc acc s = Some n.
Proof.
  revert acc. induction s as [|c s IH]; intros acc; cbn; [eauto|].
  intros [Hc Hs]%andb_true_iff. unfold PyStr.decimal_char.
  unfold PyStr.isdigit_char in Hc. rewrite Hc. auto.
Qed.

Lemma isdigit_int s : PyStr.isdigit s = true -> exists n, PyStr.int s = Some n.
Proof.
  unfold PyStr.isdigit. intros [Ht Hs]%andb_true_iff.
  destruct s; [done|]. by apply int_acc_digits.
Qed.

Lemma is_highest_pick labels last label :
  is_highest labels last ->
  is_highest (labels ++ [label]) (pick last label (length labels)).
Proof.
  intros Hlast.
  assert (Hnew : (labels ++ [label]) !! length labels = Some label).
  { by rewrite lookup_app_r, Nat.sub_diag. }
  assert (Hold : forall j t, (labels ++ [label]) !! j = Some (Some t) ->
            labels !! j = Some (Some t) \/ (j = length labels /\ label = Some t)).
  { intros j t Hj. destruct (decide (j < length labels)) as [Hlt | Hge].
    - left. by rewrite lookup_app_l in Hj.
    - right. rewrite lookup_app_r in Hj by lia.
      destruct (j - length labels) as [|k] eqn:Hk; [|by destruct k].
      cbn in Hj. split; [lia | congruence]. }
  destruct label as [text|], last as [[best i]|]; cbn [pick is_highest] in *.
  - destruct Hlast as (Hi & Hle & Hlt).
    destruct (Z.ltb_spec (page_number best) (page_number text)) as [Hlarger | Hnot].
    + split; [done|]. split.
      * intros j t [Hj | [_ [= ->]]]%Hold; [|lia]. specialize (Hle j t Hj). lia.
      * intros j t Hji [Hj | [-> _]]%Hold; [|lia]. specialize (Hle j t Hj). lia.
    + split; [by apply lookup_app_l_Some|]. split.
      * intros j t [Hj | [_ [= ->]]]%Hold; [eauto | lia].
      * intros j t Hji [Hj | [-> _]]%Hold; [eauto|].
        apply lookup_lt_Some in Hi. lia.
  - split; [done|]. split.
    + intros j t [Hj | [_ [= ->]]]%Hold; [|lia].
      apply lookup_lt_Some in Hj as Hlen. rewrite (Hlast j Hlen) in Hj. done.
    + intros j t Hlen [Hj | [-> _]]%Hold; [|lia]. rewrite (Hlast j Hlen) in Hj. done.
  - destruct Hlast as (Hi & Hle & Hlt). split; [by apply lookup_app_l_Some|]. split.
    + intros j t [Hj | [_ [=]]]%Hold. eauto.
    + intros j t Hji [Hj | [_ [=]]]%Hold. eauto.
  - intros j Hj. rewrite length_app in Hj. cbn in Hj.
    destruct (decide (j < length labels)) as [Hlt | Hge].
    + rewrite lookup_app_l by done. auto.
    + replace j with (length labels) by lia. done.
Qed.

Section Scan.

Context {Page : Type} {browser : Playwright Page}.

Lemma scan_button_label buttons i last p :
  digits_last last ->
  exists p' label,
    button_label buttons i p = (p', Ok label)
    /\ scan_button buttons i last p = (p', Ok (pick last label i))
    /\ digits_last (pick last label i).
Proof.
  intros Hlast. unfold button_label, scan_button, try_except, bind, ret.
  destruct (is_visible (Nth buttons i) p) as [p1 [[]|]];
    [|by exists p1, None..].
  destruct (inner_text (Nth buttons i) p1) as [p2 [inner|]]; [|by exists p2, None].
  cbv zeta. destruct (PyStr.isdigit (PyStr.strip inner)) eqn:Hdigit;
    [|by exists p2, None].
  exists p2, (Some (PyStr.strip inner)).
  destruct last as [[best j]|]; cbn [pick].
  - destruct (isdigit_int _ Hdigit) as [n Hn].
    destruct (isdigit_int best (Hlast _ _ eq_refl)) as [m Hm].
    unfold page_number, get_or_raise, raise, ret. rewrite Hn, Hm.
    cbn [default from_option id].
    destruct (m <? n)%Z; repeat split; try done.
    intros t k [= <- <-]. done.
  - repeat split. intros t k [= <- <-]. done.
Qed.

Lemma scan_labels buttons n k last labels p :
  length labels = k -> digits_last last -> is_highest labels last ->
  exists p' labels' last',
    for_each (seq k n) (read_label buttons) labels p = (p', Ok labels')
    /\ for_each (seq k n) (scan_button buttons) last p = (p', Ok last')
    /\ is_highest labels' last'
    /\ length labels' = k + n.
Proof.
  revert k last labels p. induction n as [|n IH]; intros k last labels p Hk Hd Hh;
    cbn [seq for_each].
  - exists p, labels, last. repeat split; [done | lia].
  - destruct (scan_button_label buttons k last p Hd) as (p1 & label & Hl & Hs & Hd').
    assert (Hr : read_label buttons k labels p = (p1, Ok (labels ++ [label]))).
    { unfold read_label. by rewrite (bind_ok _ _ _ _ _ Hl). }
    rewrite (bind_ok _ _ _ _ _ Hs), (bind_ok _ _ _ _ _ Hr).
    destruct (IH (S k) (pick last label k) (labels ++ [label]) p1)
      as (p' & labels' & last' & Hl' & Hs' & Hh' & Hlen');
      [rewrite length_app; cbn; lia | done | subst k; by apply is_highest_pick |].
    exists p', labels', last'. repeat split; [done.. | lia].
Qed.

End Scan.

(** ** The sampled collector *)

Section Sampled.

Context {Page : Type} {browser : Playwright Page}.

Lemma try_except_ok {A : Type} (m h : M Page A) p p' a :
  m p = (p', Ok a) -> try_except m h p = (p', Ok a).
Proof. intros Hm. unfold try_except. by rewrite Hm. Qed.

Lemma try_except_raise {A : Type} (m h : M Page A) p p' :
  m p = (p', Raise) -> try_except m h p = h p'.
Proof. intros Hm. unfold try_except. by rewrite Hm. Qed.

Lemma get_table_data_returns : returns get_table_data (fun _ => True).
Proof. apply returns_try; [apply yields_any | by apply returns_ret]. Qed.

Lemma get_table_data_ok p : exists p' data, get_table_data p = (p', Ok data).
Proof. destruct (get_table_data_returns p) as (p' & data & Hp & _). eauto. Qed.

Lemma first_page_ok p :
  exists p0 p1 first,
    wait_for_loading p = (p0, Ok tt) /\ get_table_data p0 = (p1, Ok first).
Proof.
  destruct (wait_for_loading_ok p) as [p0 Hwait].
  destruct (get_table_data_ok p0) as (p1 & first & Hfirst). eauto 6.
Qed.

Lemma get_first_and_last_page_data_after p p0 p1 first :
  wait_for_loading p = (p0, Ok tt) ->
  get_table_data p0 = (p1, Ok first) ->
  get_first_and_last_page_data p
  = try_except (fetch_last_page first (∅ ∪ keys first)) (ret first) p1.
Proof.
  intros Hwait Hfirst. unfold get_first_and_last_page_data. cbv zeta.
  unfold try_except at 1.
  rewrite (bind_ok _ _ _ _ _ Hwait), (bind_ok _ _ _ _ _ Hfirst). cbv zeta.
  change ([] ++ first) with first. unfold keys, try_except.
  by destruct (fetch_last_page _ _ p1) as [p' [a|]].
Qed.

End Sampled.


(** ** The exhaustive collector *)

Lemma pages_fresh_snoc seen pages page :
  pages_fresh seen pages ->
  (exists r, r ∈ page /\ str_row r ∉ seen ∪ keys (concat pages)) ->
  pages_fresh seen (pages ++ [page]).
Proof.
  revert seen. induction pages as [|pg rest IH]; intros seen;
    cbn [pages_fresh app concat].
  - intros _ (r & Hr & Hnew). split; [|done]. exists r. split; [done|].
    intros Hs. apply Hnew, elem_of_union. by left.
  - intros [Hpg Hrest] (r & Hr & Hnew). split; [done|]. apply IH; [done|].
    exists r. split; [done|]. rewrite keys_app in Hnew.
    by rewrite <- (assoc_L (∪)).
Qed.

Lemma collected_extend first new all seen all' seen' :
  collected first all seen ->
  extend_if_new new all seen = Some (all', seen') ->
  collected first all' seen'.
Proof.
  intros [-> (pages & -> & Hfresh)] (-> & -> & r & Hr & Hnew)%extend_if_new_Some.
  split; [by rewrite (keys_app (first ++ concat pages) new)|].
  exists (pages ++ [new]). split.
  - rewrite concat_app. cbn. by rewrite app_nil_r, app_assoc.
  - apply pages_fresh_snoc; [done|]. exists r. split; [done|].
    by rewrite <- keys_app.
Qed.

Section Exhaustive.

Context {Page : Type} {browser : Playwright Page}.

Variable first : list Row.

Abbreviation collected_next := (collected_next first).
Abbreviation collected_state := (collected_state first).
Abbreviation collected_result := (collected_result first).

Ltac skip_call := eapply yields_bind; [apply yields_any | intros ? _].

Lemma try_next_button_returns all seen :
  collected first all seen ->
  returns (try_next_button all seen) collected_next.
Proof.
  intros Hinv. apply returns_try; [|by apply returns_ret].
  cbv zeta. skip_call. eapply yields_bind; [apply yields_any | intros visible _].
  destruct visible; [|by apply yields_ret].
  eapply yields_bind; [apply yields_any | intros is_disabled _].
  destruct (negb (attribute_truthy is_disabled)); [|by apply yields_ret].
  do 4 skip_call. eapply yields_bind; [apply yields_any | intros new_data _].
  apply yields_ret. intros all' seen' Hext. by eapply collected_extend.
Qed.

Lemma visit_button_returns buttons i st :
  collected_state st -> returns (visit_button buttons i st) collected_state.
Proof.
  intros Hinv. apply returns_try; [|by apply returns_ret].
  eapply yields_bind; [apply yields_any | intros visible _].
  destruct visible; [|by apply yields_ret].
  eapply yields_bind; [apply yields_any | intros inner _]. cbv zeta.
  destruct (_ && _); [|by apply yields_ret].
  apply yields_try; [|by apply yields_ret].
  do 4 skip_call. eapply yields_bind; [apply yields_any | intros new_data _].
  cbn [all_data seen_data visited_pages].
  destruct (extend_if_new _ _ _) as [[all' seen']|] eqn:Hext;
    apply yields_ret; [|done].
  by eapply collected_extend.
Qed.

Lemma numbered_pagination_returns st :
  collected_state st -> returns (numbered_pagination st) collected_state.
Proof.
  intros Hinv. apply returns_try; [|by apply returns_ret].
  cbv zeta. eapply yields_bind; [apply yields_any | intros n _].
  apply yields_for_each; [done|].
  intros i st' _ Hst'. by apply returns_yields, visit_button_returns.
Qed.

Lemma pagination_loop_returns fuel st :
  collected_state st -> returns (pagination_loop fuel st) collected_result.
Proof.
  revert st. induction fuel as [|fuel IH]; intros st Hinv; cbn [pagination_loop].
  - by apply returns_ret.
  - cbv zeta. cbn [all_data seen_data visited_pages].
    eapply returns_bind; [by apply try_next_button_returns|].
    intros [[all' seen']|] Hnext.
    + apply IH. by apply Hnext.
    + eapply returns_bind; [by apply numbered_pagination_returns|].
      intros st' Hst'. destruct (moved_to_next st'); [by apply IH|].
      apply returns_ret. intros all [= <-]. apply Hst'.
Qed.

End Exhaustive.

Section Rereading.

Context {Page : Type} {browser : Playwright Page}.

Lemma only_new_refl first : only_new first first.
Proof.
  exists []. rewrite app_nil_r. split; [done|]. split; [constructor|].
  intros r Hr. by apply elem_of_nil in Hr.
Qed.

Lemma fetch_last_page_yields first :
  yields (fetch_last_page first (∅ ∪ keys first)) (only_new first).
Proof.
  unfold fetch_last_page. cbv zeta.
  eapply yields_bind; [apply yields_any | intros n _].
  eapply yields_bind; [apply yields_any | intros last _].
  destruct last as [[text i]|]; [|apply yields_ret, only_new_refl].
  eapply yields_bind; [apply yields_any | intros _ _].
  eapply yields_bind; [apply yields_any | intros last_page _].
  apply yields_ret.
  destruct (append_unseen_union first last_page)
    as (extra & Heq & _ & Hnd & Hnew & _).
  by exists extra.
Qed.

Lemma get_first_and_last_page_data_new p :
  exists p0 p1 first,
    wait_for_loading p = (p0, Ok tt)
    /\ get_table_data p0 = (p1, Ok first)
    /\ exists p' all,
         get_first_and_last_page_data p = (p', Ok all) /\ only_new first all.
Proof.
  destruct (first_page_ok p) as (p0 & p1 & first & Hwait & Hfirst).
  exists p0, p1, first. split; [done|]. split; [done|].
  rewrite (get_first_and_last_page_data_after p p0 p1 first Hwait Hfirst).
  apply returns_try; [apply fetch_last_page_yields|].
  apply returns_ret, only_new_refl.
Qed.

Lemma get_all_pages_data_collected fuel p :
  exists p0 p1 first,
    wait_for_loading p = (p0, Ok tt)
    /\ get_table_data p0 = (p1, Ok first)
    /\ exists p' r,
         get_all_pages_data fuel p = (p', Ok r) /\ collected_result first r.
Proof.
  destruct (first_page_ok p) as (p0 & p1 & first & Hwait & Hfirst).
  exists p0, p1, first. split; [done|]. split; [done|].
  unfold get_all_pages_data. cbv zeta. unfold try_except at 1.
  rewrite (bind_ok _ _ _ _ _ Hwait), (bind_ok _ _ _ _ _ Hfirst). cbv zeta.
  change ([] ++ first) with first.
  edestruct (pagination_loop_returns first fuel) as (p' & r & Hloop & Hr);
    [|rewrite (try_except_ok _ _ _ _ _ Hloop); by exists p', r].
  split; cbn [all_data seen_data].
  - unfold keys. by rewrite (left_id_L ∅ (∪)).
  - exists []. cbn. by rewrite app_nil_r.
Qed.

End Rereading.


(** ** The rows the collectors hand to the verifier *)

Section Stripped.

Context {Page : Type} {browser : Playwright Page}.

Lemma cell_text_yields cells i :
  yields (cell_text cells i) (fun text => PyStr.strip text = text).
Proof.
  unfold cell_text.
  eapply yields_bind; [apply yields_any | intros cell _].
  eapply yields_bind; [apply yields_any | intros inner _].
  apply yields_ret, strip_idemp.
Qed.

Lemma read_row_yields row data :
  Forall row_stripped data -> yields (read_row row data) (Forall row_stripped).
Proof.
  intros Hdata. unfold read_row. apply yields_try; [|by apply yields_ret].
  eapply yields_bind; [apply yields_any | intros cells _].
  destruct (7 <=? length cells); [|by apply yields_ret].
  do 7 (eapply yields_bind; [apply cell_text_yields | intros ? ?]).
  apply yields_ret. apply Forall_app. split; [done|]. constructor; [|done].
  unfold row_stripped, Row_items. cbn [r_name r_code r_region r_area r_distributor
    r_territory r_point]. by repeat constructor.
Qed.

Lemma get_table_data_stripped : returns get_table_data (Forall row_stripped).
Proof.
  unfold get_table_data. apply returns_try; [|by apply returns_ret].
  do 4 (eapply yields_bind; [apply yields_any | intros ? _]).
  apply yields_for_each; [done|]. intros row data _. apply read_row_yields.
Qed.

Lemma append_unseen_Forall (P : Row -> Prop) rows all seen :
  Forall P rows -> Forall P all -> Forall P (fst (append_unseen rows all seen)).
Proof.
  intros Hrows. revert all seen.
  induction Hrows as [|row rest Hrow Hrest IH]; intros all seen Hall;
    cbn [append_unseen]; [done|].
  cbv zeta. case_bool_decide; apply IH; [done|].
  apply Forall_app. split; [done | by constructor].
Qed.

(** The rows the sampled collector hands to the verifier have no blank
    at the ends of their fields. *)
Lemma get_first_and_last_page_data_stripped :
  returns get_first_and_last_page_data (Forall row_stripped).
Proof.
  unfold get_first_and_last_page_data. cbv zeta.
  apply returns_try; [|by apply returns_ret].
  eapply yields_bind; [apply yields_any | intros _ _].
  eapply yields_bind; [apply returns_yields, get_table_data_stripped|].
  intros first Hfirst. change ([] ++ first) with first.
  apply yields_try; [|by apply yields_ret].
  unfold fetch_last_page. cbv zeta.
  eapply yields_bind; [apply yields_any | intros n _].
  eapply yields_bind; [apply yields_any | intros last _].
  destruct last as [[text i]|]; [|by apply yields_ret].
  eapply yields_bind; [apply yields_any | intros _ _].
  eapply yields_bind; [apply returns_yields, get_table_data_stripped|].
  intros last_page Hlast. apply yields_ret. by apply append_unseen_Forall.
Qed.

End Stripped.

(** ** The claims on concrete sites *)

(** On a site with fixed options a query returns them, whatever the page. *)
Ltac fixed_size :=
  let Heq := fresh "Heq" in
  intros ? ? ? Heq; vm_compute in Heq; injection Heq as _ <-; cbn; lia.

Lemma overlap_region_size :
  yields (get_dropdown_options (browser := Mock.playwright Sites.overlap)
            "Filter by Region")
    (fun l => length l <= 3).
Proof. fixed_size. Qed.

Lemma overlap_area_size :
  yields (get_dropdown_options (browser := Mock.playwright Sites.overlap)
            "Filter by Area")
    (fun l => length l <= 2).
Proof. fixed_size. Qed.

Lemma overlap_distributor_size :
  yields (get_dropdown_options (browser := Mock.playwright Sites.overlap)
            "Filter by Distribution house")
    (fun l => length l <= 1).
Proof. fixed_size. Qed.

Lemma overlap_territory_size :
  yields (get_dropdown_options (browser := Mock.playwright Sites.overlap)
            "Filter by Territory")
    (fun l => length l <= 1).
Proof. fixed_size. Qed.

Lemma overlap_point_size :
  yields (get_dropdown_options (browser := Mock.playwright Sites.overlap)
            "Filter by Point")
    (fun l => length l <= 1).
Proof. fixed_size. Qed.

(** With the limit 2 on the regions, a site that offers three regions,
    two areas and one option elsewhere gives at most [2 * 2] chains. *)
Lemma explorer_respects_limits_witness :
  (yields (get_dropdown_options (browser := Mock.playwright Sites.overlap)
             "Filter by Region") (fun l => length l <= 3)
   /\ yields (get_dropdown_options (browser := Mock.playwright Sites.overlap)
                "Filter by Area") (fun l => length l <= 2)
   /\ yields (get_dropdown_options (browser := Mock.playwright Sites.overlap)
                "Filter by Distribution house") (fun l => length l <= 1)
   /\ yields (get_dropdown_options (browser := Mock.playwright Sites.overlap)
                "Filter by Territory") (fun l => length l <= 1)
   /\ yields (get_dropdown_options (browser := Mock.playwright Sites.overlap)
                "Filter by Point") (fun l => length l <= 1))
  /\ returns
       (build_complete_filter_chains (browser := Mock.playwright Sites.overlap)
          Sites.region_limit_2)
       (fun chains =>
          Forall (chain_explored (browser := Mock.playwright Sites.overlap)
                    Sites.region_limit_2) chains
          /\ length chains <= 2 * (2 * (1 * (1 * 1)))).
Proof.
  split.
  { repeat split; [apply overlap_region_size | apply overlap_area_size
                   | apply overlap_distributor_size | apply overlap_territory_size
                   | apply overlap_point_size]. }
  apply (explorer_respects_limits (browser := Mock.playwright Sites.overlap)
           Sites.region_limit_2 3 2 1 1 1
           overlap_region_size overlap_area_size overlap_distributor_size
           overlap_territory_size overlap_point_size).
Defined.

(** On the site with no options the explorer returns no chain. *)
Lemma explorer_no_regions_witness :
  clear_all_filters (browser := Mock.playwright Sites.empty) Mock.start
  = (Mock.start, Ok tt)
  /\ get_dropdown_options (browser := Mock.playwright Sites.empty)
       "Filter by Region" Mock.start
     = (Mock.mkState (Some "Filter by Region") [] 0, Ok [])
  /\ build_complete_filter_chains (browser := Mock.playwright Sites.empty)
       FILTER_LIMITS Mock.start
     = (Mock.mkState (Some "Filter by Region") [] 0, Ok []).
Proof.
  split; [reflexivity|]. split; [reflexivity|].
  apply (explorer_no_regions (browser := Mock.playwright Sites.empty)
           FILTER_LIMITS Mock.start Mock.start); reflexivity.
Defined.


(** The explorer on that site: the chains of the other regions. *)
Example explorer_on_broken_site :
  snd (build_complete_filter_chains (browser := Mock.playwright Sites.broken)
         FILTER_LIMITS Mock.start)
  = Ok [mkChain "Sylhet" "Uttara" "House" "North" "Point";
        mkChain "Sylhet" "Mirpur" "House" "North" "Point";
        mkChain "Khulna" "Uttara" "House" "North" "Point";
        mkChain "Khulna" "Mirpur" "House" "North" "Point"].
Proof. vm_compute. reflexivity. Qed.

Example explorer_on_two_territories :
  snd (build_complete_filter_chains
         (browser := Mock.playwright Sites.two_territories) FILTER_LIMITS Mock.start)
  = Ok [mkChain "Dhaka" "Uttara" "House" "North" "Point";
        mkChain "Dhaka" "Uttara" "House" "South" "Point"].
Proof. vm_compute. reflexivity. Qed.

(** The sampled collector on two pages of 3 and 2 rows that share one
    row: 4 rows, each once. *)
Example sampled_on_numbered_site :
  snd (get_first_and_last_page_data (browser := Mock.playwright Sites.numbered)
         Mock.start)
  = Ok [Sites.row "1"; Sites.row "2"; Sites.row "3"; Sites.row "4"].
Proof. vm_compute. reflexivity. Qed.

(** Both collectors on a single page whose button leads back to it:
    the page is read twice and returned once. *)
Example sampled_on_single_page :
  snd (get_first_and_last_page_data (browser := Mock.playwright Sites.single)
         Mock.start)
  = Ok [Sites.row "1"; Sites.row "2"; Sites.row "3"].
Proof. vm_compute. reflexivity. Qed.

Example exhaustive_on_single_page :
  snd (get_all_pages_data (browser := Mock.playwright Sites.single) 2 Mock.start)
  = Ok (Some [Sites.row "1"; Sites.row "2"; Sites.row "3"]).
Proof. vm_compute. reflexivity. Qed.

(** C2. On two pages of 3 and 2 rows that share row 3, reached by the
    Next button, the exhaustive collector returns 5 rows: row 3 is in
    the result twice. *)
Theorem exhaustive_keeps_overlap :
  snd (get_all_pages_data (browser := Mock.playwright Sites.overlap) 3 Mock.start)
  = Ok (Some [Sites.row "1"; Sites.row "2"; Sites.row "3";
              Sites.row "3"; Sites.row "4"])
  /\ ~ NoDup [Sites.row "1"; Sites.row "2"; Sites.row "3";
              Sites.row "3"; Sites.row "4"].
Proof.
  split; [vm_compute; reflexivity|].
  intros Hnd. apply NoDup_cons in Hnd as [_ Hnd]. apply NoDup_cons in Hnd as [_ Hnd].
  apply NoDup_cons in Hnd as [Hin _]. apply Hin. left.
Qed.

(** The example of the specification: Dhaka against Chittagong. *)
Example verify_region_mismatch :
  invalid_records
    (verify_filters
       [mkRow "Shop" "C1" "Chittagong" "Uttara" "House" "North" "Point"]
       (Chain_items (mkChain "Dhaka" "Uttara" "House" "North" "Point")))
  = [mkInvalid (mkRow "Shop" "C1" "Chittagong" "Uttara" "House" "North" "Point")
       ["region: expected 'Dhaka', got 'Chittagong'"]].
Proof. vm_compute. reflexivity. Qed.

Example verify_region_substring :
  valid_records
    (verify_filters
       [mkRow "Shop" "C1" "Dhaka North" "Uttara" "House" "North" "Point"]
       (Chain_items (mkChain "north" "Uttara" "House" "North" "Point")))
  = 1.
Proof. vm_compute. reflexivity. Qed.

(** ** The verifier on any [filters] *)

Lemma filter_split_length {A : Type} (f : A -> bool) (l : list A) :
  length (List.filter f l) + length (List.filter (fun x => negb (f x)) l) = length l.
Proof.
  induction l as [|x l IH]; cbn [List.filter]; [done|].
  destruct (f x); cbn [negb length]; lia.
Qed.

Lemma filter_length_mono {A : Type} (f g : A -> bool) (l : list A) :
  (forall x, f x = true -> g x = true) ->
  length (List.filter f l) <= length (List.filter g l).
Proof.
  intros Hfg. induction l as [|x l IH]; cbn [List.filter]; [done|].
  destruct (f x) eqn:Hf.
  - rewrite (Hfg x Hf). cbn [length]. lia.
  - destruct (g x); cbn [length]; lia.
Qed.

Lemma item_issue_length rec item : length (item_issue rec item) <= 1.
Proof.
  unfold item_issue. destruct (Dict.get filter_mapping _); [|cbn; lia].
  cbv zeta. destruct (field_compliant _ _); cbn; lia.
Qed.

Lemma item_issue_ok rec item : item_issue rec item = [] <-> item_ok rec item = true.
Proof.
  unfold item_issue, item_ok. destruct (Dict.get filter_mapping _); [|done].
  cbv zeta. by destruct (field_compliant _ _).
Qed.

Lemma issues_length rec filters :
  length (flat_map (item_issue rec) filters) <= length filters.
Proof.
  induction filters as [|item filters IH]; cbn [flat_map length]; [done|].
  rewrite length_app. pose proof (item_issue_length rec item). lia.
Qed.

Lemma issues_nil rec filters :
  flat_map (item_issue rec) filters = [] <-> forallb (item_ok rec) filters = true.
Proof.
  induction filters as [|item filters IH]; cbn [flat_map forallb]; [done|].
  rewrite andb_true_iff, <- IH, <- item_issue_ok. split.
  - by intros [? ?]%app_eq_nil.
  - by intros [-> ->].
Qed.

(** X1. For every [filters] and every list of records: the total is
    the number of records, each record is counted as valid or listed as
    invalid and not both, an invalid record is a record of the input
    with at least one issue and at most one issue per filter, and no
    record is invalid exactly when all are counted valid. *)
Theorem verify_filters_partition (data : list Row) (filters : list (string * string)) :
  let res := verify_filters data filters in
  total_records res = length data
  /\ valid_records res + length (invalid_records res) = length data
  /\ Forall (fun inv => In (record inv) data
                        /\ issues inv <> []
                        /\ length (issues inv) <= length filters)
       (invalid_records res)
  /\ (invalid_records res = [] <-> valid_records res = length data).
Proof.
  intros res. unfold res. rewrite verify_filters_unfold.
  cbn [total_records valid_records invalid_records].
  pose proof (filter_split_length (fun r => forallb (item_ok r) filters) data) as Hsplit.
  split; [done|]. split; [by rewrite length_map|]. split.
  - apply Forall_forall. intros inv (r & <- & Hr)%list_elem_of_In%in_map_iff.
    apply filter_In in Hr as [Hin Hbad]. cbn [record issues].
    split; [done|]. split; [|apply issues_length].
    intros Hnil%issues_nil. by rewrite Hnil in Hbad.
  - split.
    + intros Hnil%(f_equal (@length _)). rewrite length_map in Hnil.
      cbn in Hnil. lia.
    + intros Hall. destruct (List.filter (fun r => negb _) data) eqn:Hbad; [done|].
      cbn [length] in Hsplit. lia.
Qed.

Lemma dict_get_In {V : Type} (d : list (string * V)) k v :
  Dict.get d k = Some v -> In (k, v) d.
Proof.
  induction d as [|[k' v'] d IH]; cbn [Dict.get]; [done|].
  destruct (String.eqb_spec k k') as [-> | Hne].
  - intros [= ->]. by left.
  - intros Hget. right. auto.
Qed.

Lemma dict_get_keys {V : Type} (d : list (string * V)) k :
  k ∈ Dict.keys d <-> is_Some (Dict.get d k).
Proof.
  unfold Dict.keys. induction d as [|[k' v'] d IH]; cbn [map fst Dict.get].
  - split; [by intros ?%elem_of_nil | by intros [? ?]].
  - rewrite elem_of_cons, IH. destruct (String.eqb_spec k k') as [-> | Hne].
    + split; [by eexists | by left].
    + split; [by intros [? | ?] | by right].
Qed.

Lemma compliance_insert_lookup data filters (fc : gmap string Compliance) k0 k :
  compliance_insert data filters fc k0 !! k
  = match Dict.get filter_mapping k, Dict.get filters k with
    | Some field, Some v =>
        if bool_decide (k = k0) then Some (compliance_entry data v field) else fc !! k
    | _, _ => fc !! k
    end.
Proof.
  unfold compliance_insert. destruct (decide (k = k0)) as [-> | Hne].
  - destruct (Dict.get filter_mapping k0), (Dict.get filters k0); try done.
    by rewrite lookup_insert_eq, bool_decide_eq_true_2.
  - assert (Hk : (match Dict.get filter_mapping k0, Dict.get filters k0 with
                  | Some field, Some v => <[k0 := compliance_entry data v field]> fc
                  | _, _ => fc
                  end) !! k = fc !! k).
    { destruct (Dict.get filter_mapping k0), (Dict.get filters k0); try done.
      by rewrite lookup_insert_ne. }
    rewrite Hk. destruct (Dict.get filter_mapping k), (Dict.get filters k); try done.
    by rewrite bool_decide_eq_false_2.
Qed.

Lemma compliance_fold_lookup data filters ks fc k :
  fold_left (compliance_insert data filters) ks fc !! k
  = match Dict.get filter_mapping k, Dict.get filters k with
    | Some field, Some v =>
        if bool_decide (k ∈ ks) then Some (compliance_entry data v field) else fc !! k
    | _, _ => fc !! k
    end.
Proof.
  revert fc. induction ks as [|k0 ks IH]; intros fc; cbn [fold_left].
  - by destruct (Dict.get filter_mapping k), (Dict.get filters k).
  - rewrite IH, compliance_insert_lookup.
    destruct (Dict.get filter_mapping k) as [field|]; [|done].
    destruct (Dict.get filters k) as [v|]; [|done].
    destruct (decide (k = k0)) as [-> | Hne].
    + rewrite (bool_decide_eq_true_2 (k0 ∈ k0 :: ks)) by left.
      rewrite (bool_decide_eq_true_2 (k0 = k0)) by done. by case_bool_decide.
    + rewrite (bool_decide_eq_false_2 (k = k0)) by done.
      assert (Hin : k ∈ k0 :: ks <-> k ∈ ks).
      { rewrite elem_of_cons. split; [by intros [? | ?] | by right]. }
      by rewrite (bool_decide_ext _ _ Hin).
Qed.

Lemma filter_compliance_lookup (data : list Row) (filters : list (string * string))
    (k : string) :
  filter_compliance (verify_filters data filters) !! k
  = match Dict.get filter_mapping k, Dict.get filters k with
    | Some field, Some filter_value =>
        let count :=
          length (List.filter
                    (fun r => field_compliant filter_value (Row_get r field ""))
                    data) in
        Some (mkCompliance count (length data) (expected_percentage count data))
    | _, _ => None
    end.
Proof.
  rewrite verify_filters_unfold. cbn [filter_compliance].
  rewrite compliance_fold_lookup, lookup_empty.
  destruct (Dict.get filter_mapping k) as [field|]; [|done].
  destruct (Dict.get filters k) as [v|] eqn:Hget; [|done].
  rewrite bool_decide_eq_true_2 by (apply dict_get_keys; by rewrite Hget).
  unfold compliance_entry. cbv zeta.
  by rewrite compliant_count_length, percentage_of_expected.
Qed.

(** X2. For every [filters], the compliance table has an entry for a key
    exactly when the key is one of the five dimensions and is bound in
    [filters]; the entry holds the number of records whose field passes
    the rule for the value bound to the key, the number of records, and
    the percentage of the two.  A dimension missing from [filters] and a
    key that is no dimension get no entry. *)
Theorem verify_filters_table (data : list Row) (filters : list (string * string))
    (k : string) :
  filter_compliance (verify_filters data filters) !! k
  = match Dict.get filter_mapping k, Dict.get filters k with
    | Some field, Some filter_value =>
        let count :=
          length (List.filter
                    (fun r => field_compliant filter_value (Row_get r field ""))
                    data) in
        Some (mkCompliance count (length data) (expected_percentage count data))
    | _, _ => None
    end.
Proof.
  rewrite verify_filters_unfold. cbn [filter_compliance].
  rewrite compliance_fold_lookup, lookup_empty.
  destruct (Dict.get filter_mapping k) as [field|]; [|done].
  destruct (Dict.get filters k) as [v|] eqn:Hget; [|done].
  rewrite bool_decide_eq_true_2 by (apply dict_get_keys; by rewrite Hget).
  unfold compliance_entry. cbv zeta.
  by rewrite compliant_count_length, percentage_of_expected.
Qed.

Lemma filter_app_list {A : Type} (f : A -> bool) (l1 l2 : list A) :
  List.filter f (l1 ++ l2) = List.filter f l1 ++ List.filter f l2.
Proof.
  induction l1 as [|x l1 IH]; cbn [app List.filter]; [done|].
  destruct (f x); [cbn [app]; by rewrite IH | done].
Qed.

(** X3. Verifying two lists of records one after the other is verifying
    them apart: the totals and the valid counts add up, the invalid
    records follow each other, and in each entry of the compliance
    table the compliant counts and the totals add up. *)
Theorem verify_filters_app (data1 data2 : list Row) (filters : list (string * string)) :
  let res := verify_filters (data1 ++ data2) filters in
  let res1 := verify_filters data1 filters in
  let res2 := verify_filters data2 filters in
  total_records res = total_records res1 + total_records res2
  /\ valid_records res = valid_records res1 + valid_records res2
  /\ invalid_records res = invalid_records res1 ++ invalid_records res2
  /\ forall k e,
       filter_compliance res !! k = Some e ->
       exists e1 e2,
         filter_compliance res1 !! k = Some e1
         /\ filter_compliance res2 !! k = Some e2
         /\ compliant e = compliant e1 + compliant e2
         /\ total e = total e1 + total e2.
Proof.
  intros res res1 res2. split; [|split; [|split]].
  - unfold res, res1, res2. rewrite !verify_filters_unfold.
    cbn [total_records]. by rewrite length_app.
  - unfold res, res1, res2. rewrite !verify_filters_unfold.
    cbn [valid_records]. by rewrite filter_app_list, length_app.
  - unfold res, res1, res2. rewrite !verify_filters_unfold.
    cbn [invalid_records]. by rewrite filter_app_list, map_app.
  - intros k e. unfold res, res1, res2. rewrite !filter_compliance_lookup.
    destruct (Dict.get filter_mapping k) as [field|]; [|done].
    destruct (Dict.get filters k) as [v|]; [|done].
    cbv zeta. intros [= <-]. eexists _, _. split; [done|]. split; [done|].
    cbn [compliant total]. by rewrite filter_app_list, !length_app.
Qed.

Lemma dict_get_known (filters : list (string * string)) k :
  is_Some (Dict.get filter_mapping k) ->
  Dict.get (List.filter known_key filters) k = Dict.get filters k.
Proof.
  intros Hk. induction filters as [|[k' v'] filters IH];
    cbn [List.filter Dict.get]; [done|].
  unfold known_key at 1. cbn [fst].
  destruct (String.eqb_spec k k') as [<- | Hne].
  - destruct Hk as [field ->]. cbn [Dict.get].
    by rewrite String.eqb_refl.
  - destruct (Dict.get filter_mapping k'); [|done].
    cbn [Dict.get]. by destruct (String.eqb_spec k k').
Qed.

Lemma item_ok_known rec filters :
  forallb (item_ok rec) (List.filter known_key filters)
  = forallb (item_ok rec) filters.
Proof.
  induction filters as [|item filters IH]; cbn [List.filter forallb]; [done|].
  destruct (known_key item) eqn:Hk; cbn [forallb]; rewrite IH; [done|].
  replace (item_ok rec item) with true; [done|].
  unfold known_key in Hk. unfold item_ok.
  by destruct (Dict.get filter_mapping (fst item)).
Qed.

Lemma item_issue_known rec filters :
  flat_map (item_issue rec) (List.filter known_key filters)
  = flat_map (item_issue rec) filters.
Proof.
  induction filters as [|item filters IH]; cbn [List.filter flat_map]; [done|].
  destruct (known_key item) eqn:Hk; cbn [flat_map]; rewrite IH; [done|].
  replace (item_issue rec item) with (@nil string); [done|].
  unfold known_key in Hk. unfold item_issue.
  by destruct (Dict.get filter_mapping (fst item)).
Qed.

Lemma filter_ext_list {A : Type} (f g : A -> bool) (l : list A) :
  (forall x, f x = g x) -> List.filter f l = List.filter g l.
Proof.
  intros Hfg. induction l as [|x l IH]; cbn [List.filter]; [done|].
  by rewrite Hfg, IH.
Qed.

(** X4. The verifier looks only at the filter keys [region], [area],
    [distributor], [territory] and [point]: an item of [filters] under
    another key changes nothing in the result.  With no item under one
    of the five keys, every record is valid and the compliance table is
    empty. *)
Theorem verify_filters_unknown_keys (data : list Row) (filters : list (string * string)) :
  verify_filters data filters = verify_filters data (List.filter known_key filters)
  /\ (List.filter known_key filters = [] ->
      verify_filters data filters = mkResult (length data) (length data) [] ∅).
Proof.
  assert (Heq : verify_filters data filters
                = verify_filters data (List.filter known_key filters)).
  { rewrite !verify_filters_unfold. f_equal.
    - f_equal. apply filter_ext_list. intros r. by rewrite item_ok_known.
    - rewrite (filter_ext_list
                 (fun r => negb (forallb (item_ok r) (List.filter known_key filters)))
                 (fun r => negb (forallb (item_ok r) filters)))
        by (intros r; by rewrite item_ok_known).
      apply map_ext. intros r. by rewrite item_issue_known.
    - apply map_eq. intros k.
      pose proof (filter_compliance_lookup data filters k) as H1.
      pose proof (filter_compliance_lookup data (List.filter known_key filters) k) as H2.
      rewrite verify_filters_unfold in H1, H2.
      cbn [filter_compliance] in H1, H2. rewrite H1, H2.
      destruct (Dict.get filter_mapping k) as [field|] eqn:Hk; [|done].
      by rewrite dict_get_known by (by rewrite Hk). }
  split; [exact Heq|].
  intros Hnone. rewrite Heq, Hnone, verify_filters_unfold.
  cbn [forallb negb Dict.keys map fold_left]. clear Heq. f_equal.
  - induction data as [|r data IH]; simpl; [done | by f_equal].
  - induction data as [|r data IH]; simpl; done.
Qed.

Lemma lstrip_suffix s : exists u, s = u +:+ PyStr.lstrip s.
Proof.
  induction s as [|c s [u Hu]]; cbn [PyStr.lstrip].
  - by exists "".
  - destruct (PyStr.isspace c).
    + exists (String c u). exact (f_equal (String c) Hu).
    + by exists "".
Qed.

Lemma rstrip_prefix s : exists v, s = PyStr.rstrip s +:+ v.
Proof.
  induction s as [|c s [v Hv]]; cbn [PyStr.rstrip].
  - by exists "".
  - destruct (PyStr.rstrip s) as [|d t] eqn:Hr.
    + destruct (PyStr.isspace c).
      * by exists (String c s).
      * exists s. done.
    + exists v. exact (f_equal (String c) Hv).
Qed.

Lemma strip_substring s : exists u v, s = u +:+ PyStr.strip s +:+ v.
Proof.
  destruct (lstrip_suffix s) as [u Hu].
  destruct (rstrip_prefix (PyStr.lstrip s)) as [v Hv].
  exists u, v. unfold PyStr.strip. by rewrite <- Hv.
Qed.

Lemma lower_app u v : PyStr.lower (u +:+ v) = PyStr.lower u +:+ PyStr.lower v.
Proof.
  induction u as [|c u IH]; [done|].
  exact (f_equal (String (PyStr.lower_char c)) IH).
Qed.

Lemma string_app_assoc (a b c : string) : (a +:+ b) +:+ c = a +:+ b +:+ c.
Proof.
  induction a as [|x a IH]; [done | exact (f_equal (String x) IH)].
Qed.

Lemma field_compliant_strip filter_value field_value :
  field_compliant filter_value (PyStr.strip field_value) = true ->
  field_compliant filter_value field_value = true.
Proof.
  unfold field_compliant. rewrite !contains_substring.
  intros (u & v & Huv).
  destruct (strip_substring field_value) as (u' & v' & Hs).
  exists (PyStr.lower u' +:+ u), (v +:+ PyStr.lower v').
  rewrite Hs at 1. rewrite !lower_app, Huv, !string_app_assoc. done.
Qed.

(** X5. The compliance table is at least as generous as the count of
    valid records: validity tests the field with the blanks at its ends
    removed, the table tests the field as it is, and a value that occurs
    in the stripped field occurs in the field.  So no entry of the table
    has fewer compliant records than there are valid records; and it can
    have more, when the filter value itself starts with a blank. *)
Theorem verify_filters_valid_le_compliant :
  (forall (data : list Row) (filters : list (string * string)) k e,
     filter_compliance (verify_filters data filters) !! k = Some e ->
     valid_records (verify_filters data filters) <= compliant e)
  /\ (exists (data : list Row) (filters : list (string * string)) k e,
        filter_compliance (verify_filters data filters) !! k = Some e
        /\ valid_records (verify_filters data filters) < compliant e).
Proof.
  split.
  - intros data filters k e. rewrite filter_compliance_lookup.
    destruct (Dict.get filter_mapping k) as [field|] eqn:Hk; [|done].
    destruct (Dict.get filters k) as [v|] eqn:Hv; [|done].
    cbv zeta. intros [= <-]. cbn [compliant].
    rewrite verify_filters_unfold. cbn [valid_records].
    apply filter_length_mono. intros r Hall.
    apply field_compliant_strip.
    rewrite forallb_forall in Hall.
    specialize (Hall (k, v) (dict_get_In _ _ _ Hv)).
    unfold item_ok in Hall. cbn [fst snd] in Hall. by rewrite Hk in Hall.
  - exists [mkRow "n" "c" " north" "a" "d" "t" "p"], [("region", " north")],
      "region".
    eexists. split; [by vm_compute|]. vm_compute. lia.
Qed.

(** ** No exception escapes *)

Section NeverRaises.

Context {Page : Type} {browser : Playwright Page}.

Lemma get_first_and_last_page_data_returns :
  returns get_first_and_last_page_data (fun _ => True).
Proof. apply returns_try; [apply yields_any | by apply returns_ret]. Qed.

Lemma get_all_pages_data_returns fuel :
  returns (get_all_pages_data fuel) (fun _ => True).
Proof. apply returns_try; [apply yields_any | by apply returns_ret]. Qed.

End NeverRaises.


(** ** What a dropdown offers *)

Lemma filter_filter_list {A : Type} (f g : A -> bool) (l : list A) :
  List.filter f (List.filter g l) = List.filter (fun x => g x && f x) l.
Proof.
  induction l as [|x l IH]; cbn [List.filter]; [done|].
  destruct (g x); cbn [andb List.filter]; [|done].
  destruct (f x); by rewrite IH.
Qed.

Lemma keep_first_occurrences (texts acc : list string) :
  fold_left (fun acc x => if bool_decide (x ∈ acc) then acc else acc ++ [x]) texts acc
  = acc ++ List.filter (fun y => negb (bool_decide (y ∈ acc))) (first_occurrences texts).
Proof.
  revert acc. induction texts as [|x texts IH]; intros acc;
    cbn [fold_left first_occurrences List.filter].
  - by rewrite app_nil_r.
  - rewrite filter_filter_list. case_bool_decide as Hx; cbn [negb].
    + rewrite IH. f_equal. apply filter_ext_list. intros y.
      destruct (String.eqb_spec y x) as [-> | Hne]; cbn [negb andb]; [|done].
      by rewrite bool_decide_eq_true_2.
    + rewrite IH, <- app_assoc. cbn [app]. do 2 f_equal.
      apply filter_ext_list. intros y.
      destruct (String.eqb_spec y x) as [-> | Hne]; cbn [negb andb].
      * rewrite bool_decide_eq_true_2; [done|]. apply elem_of_app. right.
        by apply list_elem_of_singleton.
      * apply (f_equal negb). apply bool_decide_ext.
        rewrite elem_of_app, list_elem_of_singleton.
        split; [intros [? | ?]; [assumption | contradiction] | by left].
Qed.

Lemma keep_offered (labels : list (option string)) (acc : list string) :
  fold_left keep labels acc
  = fold_left (fun acc x => if bool_decide (x ∈ acc) then acc else acc ++ [x])
      (List.filter PyStr.truthy (omap id labels)) acc.
Proof.
  revert acc. induction labels as [|[text|] labels IH]; intros acc;
    cbn [fold_left omap option_bind mbind id List.filter keep]; [done | | apply IH].
  cbn. destruct (PyStr.truthy text); cbn [andb fold_left].
  - rewrite IH. by case_bool_decide.
  - apply IH.
Qed.

Lemma fold_keep_offered (labels : list (option string)) :
  fold_left keep labels [] = offered labels.
Proof.
  rewrite keep_offered, keep_first_occurrences. cbn [app]. unfold offered.
  induction (first_occurrences _) as [|x l IH]; cbn [List.filter]; [done|].
  rewrite bool_decide_eq_false_2 by apply not_elem_of_nil. cbn [negb].
  by rewrite IH.
Qed.

Section DropdownFacts.

Context {Page : Type} {browser : Playwright Page}.

Lemma option_label_ok option p : exists p' label, option_label option p = (p', Ok label).
Proof.
  assert (H : returns (option_label option) (fun _ => True)).
  { apply returns_try; [apply yields_any | by apply returns_ret]. }
  destruct (H p) as (p' & label & Hp & _). eauto.
Qed.

Lemma read_option_keep option option_texts p p' label :
  option_label option p = (p', Ok label) ->
  read_option option option_texts p = (p', Ok (keep option_texts label)).
Proof.
  unfold option_label, read_option, try_except, bind, ret.
  destruct (is_visible option p) as [p1 [[]|]].
  - destruct (inner_text option p1) as [p2 [inner|]].
    + intros [= <- <-]. cbn [keep].
      by destruct (PyStr.truthy (PyStr.strip inner)
                   && negb (bool_decide (PyStr.strip inner ∈ option_texts))).
    + by intros [= <- <-].
  - by intros [= <- <-].
  - by intros [= <- <-].
Qed.

Lemma read_options_keep options option_texts labels p :
  exists p' labels',
    for_each options read_option_label labels p = (p', Ok (labels ++ labels'))
    /\ length labels' = length options
    /\ for_each options read_option option_texts p
       = (p', Ok (fold_left keep labels' option_texts)).
Proof.
  revert option_texts labels p.
  induction options as [|option options IH]; intros option_texts labels p;
    cbn [for_each].
  - exists p, []. by rewrite app_nil_r.
  - destruct (option_label_ok option p) as (p1 & label & Hlabel).
    assert (Hread : read_option_label option labels p = (p1, Ok (labels ++ [label]))).
    { unfold read_option_label. by rewrite (bind_ok _ _ _ _ _ Hlabel). }
    rewrite (bind_ok _ _ _ _ _ Hread),
      (bind_ok _ _ _ _ _ (read_option_keep _ option_texts _ _ _ Hlabel)).
    destruct (IH (keep option_texts label) (labels ++ [label]) p1)
      as (p' & labels' & Hlabels & Hlen & Hoptions).
    exists p', (label :: labels'). rewrite Hlabels, Hoptions, <- app_assoc.
    cbn [length fold_left app]. by rewrite Hlen.
Qed.

Lemma close_dropdown_ok dropdown p : exists p', close_dropdown dropdown p = (p', Ok tt).
Proof.
  assert (H : returns (close_dropdown dropdown) (fun _ => True)).
  { unfold close_dropdown. apply returns_try; [apply yields_any|].
    apply returns_try; [apply yields_any|]. apply swallow_returns. }
  destruct (H p) as (p' & [] & Hp & _). eauto.
Qed.

End DropdownFacts.

(** X7. When the dropdown opens, [get_dropdown_options] returns the
    texts read of its options, in the order of the options: stripped,
    without the empty ones, and each text once, at the place of its
    first occurrence.  A hidden option and an option that cannot be read
    are left out; the dropdown is closed afterwards. *)
Theorem get_dropdown_options_offered {Page : Type} {browser : Playwright Page}
    (name : string) (p p3 : Page) (n : nat) :
  opens name p n p3 ->
  exists p4 labels p5,
    option_labels (shown n) p3 = (p4, Ok labels)
    /\ length labels = n
    /\ close_dropdown (Textbox name) p4 = (p5, Ok tt)
    /\ get_dropdown_options name p = (p5, Ok (offered labels)).
Proof.
  intros (p1 & p2 & Hclick & Hwait & Hcount).
  destruct (read_options_keep (shown n) [] [] p3)
    as (p4 & labels & Hlabels & Hlen & Hoptions).
  destruct (close_dropdown_ok (Textbox name) p4) as (p5 & Hclose).
  exists p4, labels, p5. split; [exact Hlabels|]. split.
  { rewrite Hlen. unfold shown. by rewrite length_map, length_seq. }
  split; [exact Hclose|].
  unfold get_dropdown_options, try_except. cbv zeta.
  rewrite (bind_ok _ _ _ _ _ Hclick).
  unfold time_sleep at 1. unfold bind at 1.
  rewrite (bind_ok _ _ _ _ _ Hwait).
  unfold all. unfold bind at 1. rewrite (bind_ok _ _ _ _ _ Hcount).
  unfold ret at 1. fold (shown n).
  rewrite (bind_ok _ _ _ _ _ Hoptions), (bind_ok _ _ _ _ _ Hclose).
  unfold ret. by rewrite fold_keep_offered.
Qed.

(** On the untidy site the region dropdown shows five options, and two
    texts are offered. *)
Lemma get_dropdown_options_offered_witness :
  opens (browser := Mock.playwright Samples.untidy) "Filter by Region" Mock.start 5
    (Mock.mkState (Some "Filter by Region") [] 0)
  /\ exists p4 labels p5,
       option_labels (browser := Mock.playwright Samples.untidy) (shown 5)
         (Mock.mkState (Some "Filter by Region") [] 0) = (p4, Ok labels)
       /\ length labels = 5
       /\ close_dropdown (browser := Mock.playwright Samples.untidy)
            (Textbox "Filter by Region") p4 = (p5, Ok tt)
       /\ get_dropdown_options (browser := Mock.playwright Samples.untidy)
            "Filter by Region" Mock.start
          = (p5, Ok (offered labels)).
Proof.
  assert (Hopens : opens (browser := Mock.playwright Samples.untidy)
            "Filter by Region" Mock.start 5
            (Mock.mkState (Some "Filter by Region") [] 0)).
  { eexists _, _. repeat split; reflexivity. }
  split; [exact Hopens|].
  exact (get_dropdown_options_offered (browser := Mock.playwright Samples.untidy)
           "Filter by Region" Mock.start _ 5 Hopens).
Defined.

Example offered_on_untidy_site :
  snd (get_dropdown_options (browser := Mock.playwright Samples.untidy)
         "Filter by Region" Mock.start)
  = Ok ["Dhaka"; "Sylhet"].
Proof. reflexivity. Qed.

Lemma select_dropdown_option_unopened {Page : Type} {browser : Playwright Page}
    (name option_text : string) (p p' : Page) :
  opening_fails name p p' ->
  select_dropdown_option name option_text p = (p', Ok false).
Proof.
  intros Hfails. unfold select_dropdown_option. cbv zeta.
  erewrite try_except_raise; [reflexivity|].
  destruct Hfails as [Hclick | p1 Hclick Hwait | p1 p2 Hclick Hwait Hcount].
  - by rewrite (bind_raise _ _ _ _ Hclick).
  - rewrite (bind_ok _ _ _ _ _ Hclick).
    unfold time_sleep at 1. unfold bind at 1.
    by rewrite (bind_raise _ _ _ _ Hwait).
  - rewrite (bind_ok _ _ _ _ _ Hclick).
    unfold time_sleep at 1. unfold bind at 1.
    rewrite (bind_ok _ _ _ _ _ Hwait). unfold all.
    unfold bind at 1. by rewrite (bind_raise _ _ _ _ Hcount).
Qed.

(** X8. When a dropdown does not open, because the click on its
    textbox, the wait for a visible option or the count of the options
    raises, [get_dropdown_options] returns the empty list and
    [select_dropdown_option] returns [False]; both leave the page as the
    failing call left it, without pressing Escape. *)
Theorem dropdown_opening_fails {Page : Type} {browser : Playwright Page}
    (name : string) (p p' : Page) :
  opening_fails name p p' ->
  get_dropdown_options name p = (p', Ok [])
  /\ forall option_text, select_dropdown_option name option_text p = (p', Ok false).
Proof.
  intros Hfails. split; [|intros; by apply select_dropdown_option_unopened].
  unfold get_dropdown_options. cbv zeta.
  erewrite try_except_raise; [reflexivity|].
  destruct Hfails as [Hclick | p1 Hclick Hwait | p1 p2 Hclick Hwait Hcount].
  - by rewrite (bind_raise _ _ _ _ Hclick).
  - rewrite (bind_ok _ _ _ _ _ Hclick).
    unfold time_sleep at 1. unfold bind at 1.
    by rewrite (bind_raise _ _ _ _ Hwait).
  - rewrite (bind_ok _ _ _ _ _ Hclick).
    unfold time_sleep at 1. unfold bind at 1.
    rewrite (bind_ok _ _ _ _ _ Hwait). unfold all.
    unfold bind at 1. by rewrite (bind_raise _ _ _ _ Hcount).
Qed.

(** On the site without options the wait for a visible option raises. *)
Lemma dropdown_opening_fails_witness :
  opening_fails (browser := Mock.playwright Sites.empty) "Filter by Area" Mock.start
    (Mock.mkState (Some "Filter by Area") [] 0)
  /\ get_dropdown_options (browser := Mock.playwright Sites.empty)
       "Filter by Area" Mock.start
     = (Mock.mkState (Some "Filter by Area") [] 0, Ok [])
  /\ forall option_text,
       select_dropdown_option (browser := Mock.playwright Sites.empty)
         "Filter by Area" option_text Mock.start
       = (Mock.mkState (Some "Filter by Area") [] 0, Ok false).
Proof.
  assert (Hfails : opening_fails (browser := Mock.playwright Sites.empty)
            "Filter by Area" Mock.start (Mock.mkState (Some "Filter by Area") [] 0)).
  { eapply wait_fails; reflexivity. }
  split; [exact Hfails|].
  exact (dropdown_opening_fails (browser := Mock.playwright Sites.empty)
           "Filter by Area" Mock.start _ Hfails).
Defined.

(** ** Selecting an option *)

Lemma option_matches_spec option_text option_inner_text :
  PyStr.contains option_text option_inner_text
  || PyStr.contains option_inner_text option_text = true
  <-> option_matches option_text option_inner_text.
Proof.
  unfold option_matches, is_substring.
  by rewrite orb_true_iff, !contains_substring.
Qed.

Section SelectFacts.

Context {Page : Type} {browser : Playwright Page}.

Lemma click_matching_cons option_text option rest :
  click_matching option_text (option :: rest)
  = (returned <- try_option option_text option ;;
     if returned : bool then ret true else click_matching option_text rest).
Proof. reflexivity. Qed.

Lemma try_option_cases option_text option p :
  (exists p', try_option option_text option p = (p', Ok false)
              /\ passed_over option_text option p p')
  \/ (exists p', try_option option_text option p = (sleep 1000%N p', Ok true)
                 /\ clicked option_text option p p').
Proof.
  unfold try_option, try_except, bind, ret, time_sleep.
  destruct (is_visible option p) as [p1 [[]|]] eqn:Hvisible.
  - destruct (inner_text option p1) as [p2 [inner|]] eqn:Hinner.
    + cbv zeta.
      destruct (PyStr.contains option_text (PyStr.strip inner)
                || PyStr.contains (PyStr.strip inner) option_text) eqn:Hmatch.
      * apply option_matches_spec in Hmatch.
        destruct (click option p2) as [p3 [[]|]] eqn:Hclick.
        -- right. exists p3. split; [done|]. by exists p1, p2, inner.
        -- left. exists p3. split; [done|]. by eapply click_raises.
      * left. exists p2. split; [done|]. eapply text_differs; [done.. |].
        rewrite <- option_matches_spec. by rewrite Hmatch.
    + left. exists p2. split; [done|]. by eapply text_raises.
  - left. exists p1. split; [done|]. by apply option_hidden.
  - left. exists p1. split; [done|]. by apply visible_raises.
Qed.

Lemma passed_over_false option_text option p p' :
  passed_over option_text option p p' ->
  try_option option_text option p = (p', Ok false).
Proof.
  unfold try_option, try_except, bind, ret, time_sleep.
  intros [Hv | Hv | p1 Hv Ht | p1 inner Hv Ht Hno | p1 p2 inner Hv Ht Hyes Hc];
    rewrite Hv; try done; rewrite Ht; try done; cbv zeta.
  - rewrite <- option_matches_spec in Hno.
    by destruct (PyStr.contains option_text (PyStr.strip inner)
                 || PyStr.contains (PyStr.strip inner) option_text).
  - apply option_matches_spec in Hyes. by rewrite Hyes, Hc.
Qed.

Lemma clicked_true option_text option p p' :
  clicked option_text option p p' ->
  try_option option_text option p = (sleep 1000%N p', Ok true).
Proof.
  intros (p1 & p2 & inner & Hv & Ht & Hyes & Hc).
  unfold try_option, try_except, bind, ret, time_sleep.
  rewrite Hv, Ht. cbv zeta. apply option_matches_spec in Hyes.
  by rewrite Hyes, Hc.
Qed.

Lemma click_matching_false option_text options p p' :
  click_matching option_text options p = (p', Ok false)
  <-> passes_over option_text options p p'.
Proof.
  revert p. induction options as [|option rest IH]; intros p.
  - cbn [click_matching]. unfold ret. split.
    + intros [= <-]. constructor.
    + intros Hp. by inversion Hp.
  - rewrite click_matching_cons. split.
    + destruct (try_option_cases option_text option p)
        as [(p1 & Htry & Hover) | (p1 & Htry & _)];
        rewrite (bind_ok _ _ _ _ _ Htry); [|by intros [=]].
      intros Hrest%IH. by econstructor.
    + intros Hp. inversion Hp as [|? ? ? p1 ? Hover Hrest]; subst.
      rewrite (bind_ok _ _ _ _ _ (passed_over_false _ _ _ _ Hover)).
      by apply IH.
Qed.

Lemma click_matching_true option_text options p p' :
  click_matching option_text options p = (p', Ok true)
  <-> exists i option p1 p2,
        options !! i = Some option
        /\ passes_over option_text (take i options) p p1
        /\ clicked option_text option p1 p2
        /\ p' = sleep 1000%N p2.
Proof.
  revert p. induction options as [|option rest IH]; intros p.
  - cbn [click_matching]. unfold ret. split; [by intros [=]|].
    by intros (i & o & p1 & p2 & Hi & _).
  - rewrite click_matching_cons. split.
    + destruct (try_option_cases option_text option p)
        as [(p1 & Htry & Hover) | (p1 & Htry & Hclicked)];
        rewrite (bind_ok _ _ _ _ _ Htry).
      * intros (i & o & p2 & p3 & Hi & Hpre & Hc & ->)%IH.
        exists (S i), o, p2, p3. repeat split; [done | | done].
        cbn [take]. by econstructor.
      * intros [= <-]. exists 0, option, p, p1. repeat split; [|done].
        cbn [take]. constructor.
    + intros (i & o & p1 & p2 & Hi & Hpre & Hc & ->). destruct i as [|i].
      * cbn in Hi. injection Hi as ->. cbn [take] in Hpre.
        inversion Hpre; subst.
        by rewrite (bind_ok _ _ _ _ _ (clicked_true _ _ _ _ Hc)).
      * cbn in Hi. cbn [take] in Hpre.
        inversion Hpre as [|? ? ? p0 ? Hover Hrest]; subst.
        rewrite (bind_ok _ _ _ _ _ (passed_over_false _ _ _ _ Hover)).
        apply IH. by exists i, o, p1, p2.
Qed.

Lemma click_matching_ok option_text options p :
  exists p' returned, click_matching option_text options p = (p', Ok returned).
Proof.
  revert p. induction options as [|option rest IH]; intros p.
  - by exists p, false.
  - rewrite click_matching_cons.
    destruct (try_option_cases option_text option p)
      as [(p1 & Htry & _) | (p1 & Htry & _)];
      rewrite (bind_ok _ _ _ _ _ Htry); [apply IH|].
    by eexists _, _.
Qed.

(** The dropdown opens or not. *)
Lemma opens_or_fails name p :
  (exists p', opening_fails name p p') \/ (exists n p', opens name p n p').
Proof.
  destruct (click (Textbox name) p) as [p1 [[]|]] eqn:Hclick;
    [|left; exists p1; by apply click_fails].
  destruct (page_wait_for_selector visible_option None 10000%N (sleep 1000%N p1))
    as [p2 [[]|]] eqn:Hwait; [|left; exists p2; by eapply wait_fails].
  destruct (count (Css visible_option) p2) as [p3 [n|]] eqn:Hcount;
    [|left; exists p3; by eapply count_fails].
  right. exists n, p3. by exists p1, p2.
Qed.

Lemma opens_unique name p n1 p1 n2 p2 :
  opens name p n1 p1 -> opens name p n2 p2 -> n1 = n2 /\ p1 = p2.
Proof.
  intros (a1 & b1 & Hc1 & Hw1 & Hn1) (a2 & b2 & Hc2 & Hw2 & Hn2).
  rewrite Hc1 in Hc2. injection Hc2 as <-.
  rewrite Hw1 in Hw2. injection Hw2 as <-.
  rewrite Hn1 in Hn2. by injection Hn2 as <- <-.
Qed.

Lemma opens_not_fails name p n p1 p2 :
  opens name p n p1 -> opening_fails name p p2 -> False.
Proof.
  intros (a1 & b1 & Hc1 & Hw1 & Hn1) [Hc | a2 Hc Hw | a2 b2 Hc Hw Hn];
    rewrite Hc1 in Hc; try done; injection Hc as <-;
    rewrite Hw1 in Hw; try done; injection Hw as <-;
    by rewrite Hn1 in Hn.
Qed.

(** After the dropdown opened, the selection is the loop over its options. *)
Lemma select_dropdown_option_opened name option_text p n p3 :
  opens name p n p3 ->
  select_dropdown_option name option_text p
  = match click_matching option_text (shown n) p3 with
    | (p4, Ok true) => (p4, Ok true)
    | (p4, Ok false) =>
        (fst (try_except (keyboard_press "Escape") (ret tt) p4), Ok false)
    | (p4, Raise) => (p4, Ok false)
    end.
Proof.
  intros (p1 & p2 & Hclick & Hwait & Hcount).
  unfold select_dropdown_option, try_except at 1. cbv zeta.
  rewrite (bind_ok _ _ _ _ _ Hclick).
  unfold time_sleep at 1. unfold bind at 1.
  rewrite (bind_ok _ _ _ _ _ Hwait).
  unfold all. unfold bind at 1. rewrite (bind_ok _ _ _ _ _ Hcount).
  unfold ret at 1. fold (shown n). unfold bind at 1.
  destruct (click_matching option_text (shown n) p3) as [p4 [[]|]]; [done | | done].
  unfold bind, try_except, ret.
  by destruct (keyboard_press "Escape" p4) as [p5 [[]|]].
Qed.

End SelectFacts.

(** X9. [select_dropdown_option] returns [True] exactly when the
    dropdown opens and one of its options is clicked: the first option,
    in the order shown, that is visible, whose stripped text contains the
    requested text or is contained in it, and whose click does not
    raise.  The options before it are passed over; the page is the one
    after the click and the pause. *)
Theorem select_dropdown_option_true {Page : Type} {browser : Playwright Page}
    (name option_text : string) (p p' : Page) :
  select_dropdown_option name option_text p = (p', Ok true)
  <-> exists n p3 i option p4 p5,
        opens name p n p3
        /\ shown n !! i = Some option
        /\ passes_over option_text (take i (shown n)) p3 p4
        /\ clicked option_text option p4 p5
        /\ p' = sleep 1000%N p5.
Proof.
  split.
  - destruct (opens_or_fails name p) as [(p1 & Hfails) | (n & p3 & Hopens)].
    { by rewrite (select_dropdown_option_unopened _ _ _ _ Hfails). }
    rewrite (select_dropdown_option_opened _ _ _ _ _ Hopens).
    destruct (click_matching option_text (shown n) p3) as [p4 [[]|]] eqn:Hloop;
      [|done..].
    intros [= <-]. apply click_matching_true in Hloop
      as (i & option & p1 & p2 & Hi & Hpre & Hc & ->).
    by exists n, p3, i, option, p1, p2.
  - intros (n & p3 & i & option & p4 & p5 & Hopens & Hi & Hpre & Hc & ->).
    rewrite (select_dropdown_option_opened _ _ _ _ _ Hopens).
    assert (Hloop : click_matching option_text (shown n) p3
                    = (sleep 1000%N p5, Ok true)).
    { apply click_matching_true. by exists i, option, p4, p5. }
    by rewrite Hloop.
Qed.

(** X10. [select_dropdown_option] returns [False] exactly when the
    dropdown does not open, or it opens and every option is passed over:
    hidden, with a text that does not match, or with a call that raises.
    In the second case Escape is pressed, and an exception of that call is
    dropped. *)
Theorem select_dropdown_option_false {Page : Type} {browser : Playwright Page}
    (name option_text : string) (p p' : Page) :
  select_dropdown_option name option_text p = (p', Ok false)
  <-> opening_fails name p p'
      \/ exists n p3 p4,
           opens name p n p3
           /\ passes_over option_text (shown n) p3 p4
           /\ p' = fst (try_except (keyboard_press "Escape") (ret tt) p4).
Proof.
  split.
  - destruct (opens_or_fails name p) as [(p1 & Hfails) | (n & p3 & Hopens)].
    { rewrite (select_dropdown_option_unopened _ _ _ _ Hfails).
      intros [= <-]. by left. }
    rewrite (select_dropdown_option_opened _ _ _ _ _ Hopens).
    destruct (click_matching_ok option_text (shown n) p3) as (p4 & [] & Hloop);
      rewrite Hloop; [done|].
    intros [= <-]. right. exists n, p3, p4. split; [done|]. split; [|done].
    by apply click_matching_false.
  - intros [Hfails | (n & p3 & p4 & Hopens & Hpasses & ->)].
    + by apply select_dropdown_option_unopened.
    + rewrite (select_dropdown_option_opened _ _ _ _ _ Hopens).
      apply click_matching_false in Hpasses. by rewrite Hpasses.
Qed.

Lemma is_substring_empty (s : string) : is_substring "" s.
Proof. by exists "", s. Qed.

(** X11. An option with a blank text matches every request: when the
    first option shown is visible, its text is empty once stripped, and
    its click succeeds, [select_dropdown_option] clicks it and returns
    [True] whatever text is asked for. *)
Theorem blank_option_is_selected {Page : Type} {browser : Playwright Page}
    (name : string) (p p3 p4 p5 p6 : Page) (n : nat) (inner : string) :
  let first := Nth (Css visible_option) 0 in
  opens name p n p3 ->
  0 < n ->
  is_visible first p3 = (p4, Ok true) ->
  inner_text first p4 = (p5, Ok inner) ->
  PyStr.strip inner = "" ->
  click first p5 = (p6, Ok tt) ->
  forall option_text,
    select_dropdown_option name option_text p = (sleep 1000%N p6, Ok true).
Proof.
  intros first Hopens Hn Hvisible Hinner Hblank Hclick option_text.
  rewrite (select_dropdown_option_opened _ _ _ _ _ Hopens).
  assert (Hloop : click_matching option_text (shown n) p3
                  = (sleep 1000%N p6, Ok true)).
  { apply click_matching_true. exists 0, first, p3, p6.
    destruct n as [|n]; [lia|]. split; [reflexivity|].
    split; [apply passes_nil|]. split; [|done].
    exists p4, p5, inner. repeat split; try done.
    right. rewrite Hblank. apply is_substring_empty. }
  by rewrite Hloop.
Qed.

(** On the site whose dropdowns begin with a blank option, the request
    for Sylhet clicks the blank option. *)
Lemma blank_option_is_selected_witness :
  opens (browser := Mock.playwright Samples.placeholder) "Filter by Region"
    Mock.start 3 (Mock.mkState (Some "Filter by Region") [] 0)
  /\ 0 < 3
  /\ PyStr.strip "  " = ""
  /\ forall option_text,
       select_dropdown_option (browser := Mock.playwright Samples.placeholder)
         "Filter by Region" option_text Mock.start
       = (Mock.mkState None [("Filter by Region", "")] 0, Ok true).
Proof.
  assert (Hopens : opens (browser := Mock.playwright Samples.placeholder)
            "Filter by Region" Mock.start 3
            (Mock.mkState (Some "Filter by Region") [] 0)).
  { eexists _, _. repeat split; reflexivity. }
  split; [exact Hopens|]. split; [lia|]. split; [reflexivity|].
  apply (blank_option_is_selected (browser := Mock.playwright Samples.placeholder)
           "Filter by Region" Mock.start
           (Mock.mkState (Some "Filter by Region") [] 0)
           (Mock.mkState (Some "Filter by Region") [] 0)
           (Mock.mkState (Some "Filter by Region") [] 0)
           (Mock.mkState None [("Filter by Region", "")] 0) 3 "  " Hopens);
    [lia | reflexivity..].
Defined.

(** The request for North clicks North East, the first option that
    contains it; when that click raises, North is clicked. *)
Example select_first_match :
  select_dropdown_option (browser := Mock.playwright Samples.north)
    "Filter by Region" "North" Mock.start
  = (Mock.mkState None [("Filter by Region", "North East")] 0, Ok true)
  /\ select_dropdown_option (browser := Mock.playwright Samples.north_broken)
       "Filter by Region" "North" Mock.start
     = (Mock.mkState None [("Filter by Region", "North")] 0, Ok true)
  /\ select_dropdown_option (browser := Mock.playwright Samples.north)
       "Filter by Region" "West" Mock.start
     = (Mock.mkState None [] 0, Ok false).
Proof. repeat split; reflexivity. Qed.

(** ** Reading the table *)

Section TableFacts.

Context {Page : Type} {browser : Playwright Page}.

Lemma lookup_first_cells row n i :
  i < n -> first_cells row n !! i = Some (Nth (Within row "td") i).
Proof.
  intros Hi. unfold first_cells. rewrite list_lookup_fmap.
  by rewrite lookup_seq_lt.
Qed.

Lemma cell_text_ok row n i p p' text :
  i < n ->
  inner_text (Nth (Within row "td") i) p = (p', Ok text) ->
  cell_text (first_cells row n) i p = (p', Ok (PyStr.strip text)).
Proof.
  intros Hi Hinner. unfold cell_text. rewrite (lookup_first_cells _ _ _ Hi).
  cbn [get_or_raise]. unfold bind at 1, ret at 1.
  by rewrite (bind_ok _ _ _ _ _ Hinner).
Qed.

Lemma cell_text_raise row n i p p' :
  i < n ->
  inner_text (Nth (Within row "td") i) p = (p', Raise) ->
  cell_text (first_cells row n) i p = (p', Raise).
Proof.
  intros Hi Hinner. unfold cell_text. rewrite (lookup_first_cells _ _ _ Hi).
  cbn [get_or_raise]. unfold bind at 1, ret at 1.
  by rewrite (bind_raise _ _ _ _ Hinner).
Qed.

Lemma reads_length cells texts p p' :
  reads cells texts p p' -> length cells = length texts.
Proof.
  revert texts p. induction cells as [|cell cells IH]; intros [|text texts] p;
    cbn [reads length]; try done.
  intros (p1 & _ & Hrest). f_equal. by eapply IH.
Qed.

Lemma read_row_ok row data p : exists p' data', read_row row data p = (p', Ok data').
Proof.
  assert (H : returns (read_row row data) (fun _ => True)).
  { apply returns_try; [apply yields_any | by apply returns_ret]. }
  destruct (H p) as (p' & data' & Hp & _). eauto.
Qed.

Lemma read_row_length row data :
  returns (read_row row data) (fun data' => length data' <= length data + 1).
Proof.
  unfold read_row. apply returns_try; [|apply returns_ret; lia].
  eapply yields_bind; [apply yields_any | intros cells _].
  destruct (7 <=? length cells); [|apply yields_ret; lia].
  do 7 (eapply yields_bind; [apply yields_any | intros ? _]).
  apply yields_ret. rewrite length_app. cbn. lia.
Qed.

Lemma read_rows_length rows :
  returns (for_each rows read_row []) (fun data => length data <= length rows).
Proof.
  eapply returns_weaken.
  - apply (returns_for_each_length rows read_row 1). intros. apply read_row_length.
  - intros data. cbn [length]. lia.
Qed.

End TableFacts.

(** X12. What [get_table_data] makes of one row.  A row with fewer than
    seven cells adds nothing.  A row with seven cells or more whose first
    seven texts can be read adds one record, made of these texts
    stripped, in the order name, code, region, area, distributor,
    territory, point; the cells after the seventh are not read.  A row
    whose cells cannot be counted adds nothing. *)
Theorem read_row_record {Page : Type} {browser : Playwright Page}
    (row : Locator) (data : list Row) (p : Page) :
  (forall p0, count (Within row "td") p = (p0, Raise) ->
     read_row row data p = (p0, Ok data))
  /\ (forall p0 n, count (Within row "td") p = (p0, Ok n) -> n < 7 ->
        read_row row data p = (p0, Ok data))
  /\ (forall p0 n texts p' record,
        count (Within row "td") p = (p0, Ok n) -> 7 <= n ->
        reads (first_cells row 7) texts p0 p' ->
        record_of texts = Some record ->
        read_row row data p = (p', Ok (data ++ [record]))).
Proof.
  split; [|split].
  - intros p0 Hcount. unfold read_row, all.
    erewrite try_except_raise; [reflexivity|].
    unfold bind at 1. by rewrite (bind_raise _ _ _ _ Hcount).
  - intros p0 n Hcount Hn. unfold read_row, all, try_except.
    unfold bind at 1. rewrite (bind_ok _ _ _ _ _ Hcount). unfold ret at 1.
    rewrite length_map, length_seq.
    destruct (Nat.leb_spec 7 n) as [Hle | _]; [lia | done].
  - intros p0 n texts p' record Hcount Hn Hreads Hrecord.
    pose proof (reads_length _ _ _ _ Hreads) as Hlen.
    unfold first_cells in Hlen. rewrite length_map, length_seq in Hlen.
    destruct texts as [|t0 [|t1 [|t2 [|t3 [|t4 [|t5 [|t6 [|]]]]]]]];
      try (cbn [length] in Hlen; lia).
    cbn [first_cells seq map reads] in Hreads.
    destruct Hreads as (p1 & H0 & p2 & H1 & p3 & H2 & p4 & H3 & p5 & H4 & p6 & H5
                        & p7 & H6 & ->).
    cbn in Hrecord. injection Hrecord as <-.
    unfold read_row, all, try_except.
    unfold bind at 1. rewrite (bind_ok _ _ _ _ _ Hcount). unfold ret at 1.
    fold (first_cells row n). unfold first_cells at 1.
    rewrite length_map, length_seq.
    destruct (Nat.leb_spec 7 n) as [_ | Hlt]; [|lia].
    rewrite (bind_ok _ _ _ _ _ (cell_text_ok row n 0 _ _ _ ltac:(lia) H0)).
    rewrite (bind_ok _ _ _ _ _ (cell_text_ok row n 1 _ _ _ ltac:(lia) H1)).
    rewrite (bind_ok _ _ _ _ _ (cell_text_ok row n 2 _ _ _ ltac:(lia) H2)).
    rewrite (bind_ok _ _ _ _ _ (cell_text_ok row n 3 _ _ _ ltac:(lia) H3)).
    rewrite (bind_ok _ _ _ _ _ (cell_text_ok row n 4 _ _ _ ltac:(lia) H4)).
    rewrite (bind_ok _ _ _ _ _ (cell_text_ok row n 5 _ _ _ ltac:(lia) H5)).
    rewrite (bind_ok _ _ _ _ _ (cell_text_ok row n 6 _ _ _ ltac:(lia) H6)).
    reflexivity.
Qed.

(** On the ragged table: the first row has three cells, the second has
    eight, padded. *)
Lemma read_row_record_witness :
  read_row (browser := Mock.playwright Tables.ragged) (Nth (Css "tbody tr") 0) []
    Mock.start = (Mock.start, Ok [])
  /\ read_row (browser := Mock.playwright Tables.ragged) (Nth (Css "tbody tr") 1) []
       Mock.start
     = (Mock.start, Ok [mkRow "Shop 2" "C2" "Dhaka" "Uttara" "House" "North" "Point"]).
Proof.
  split.
  - apply (proj1 (proj2 (read_row_record (browser := Mock.playwright Tables.ragged)
                           (Nth (Css "tbody tr") 0) [] Mock.start)) Mock.start 3);
      [reflexivity | lia].
  - apply (proj2 (proj2 (read_row_record (browser := Mock.playwright Tables.ragged)
                           (Nth (Css "tbody tr") 1) [] Mock.start))
             Mock.start 8
             [" Shop 2 "; "C2 "; " Dhaka"; "Uttara"; "House"; "North"; "Point"]
             Mock.start);
      [reflexivity | lia | | reflexivity].
    cbn [reads first_cells seq map]. repeat (eexists; split; [reflexivity|]).
    reflexivity.
Defined.

Section TableRows.

Context {Page : Type} {browser : Playwright Page}.

Lemma get_table_data_shown p rows p2 :
  table_shows p rows p2 -> get_table_data p = for_each rows read_row [] p2.
Proof.
  intros Hshows.
  destruct (read_rows_length rows p2) as (p' & data & Hrows & _).
  rewrite Hrows. unfold get_table_data.
  destruct Hshows as [p0 p1 n Hwait Htable Hcount -> | p0 p1 p3 m Hwait Htable Hcount Hall ->];
    apply try_except_ok;
    rewrite (bind_ok _ _ _ _ _ Hwait), (bind_ok _ _ _ _ _ Htable);
    unfold all; unfold bind at 1; unfold bind at 1;
    rewrite Hcount; unfold ret at 1.
  - cbn [seq map]. unfold bind at 1, ret at 1. exact Hrows.
  - cbn [seq map]. unfold bind, ret. rewrite Hall.
    rewrite length_map, length_seq.
    destruct (Nat.ltb_spec 1 m) as [Hm | Hm].
    + rewrite <- Hrows. f_equal. rewrite <- fmap_drop. f_equal.
      destruct m as [|m]; [lia|]. cbn [seq drop]. rewrite drop_0. f_equal. lia.
    + rewrite <- Hrows. destruct m as [|[|m]]; [done | done | lia].
Qed.

End TableRows.

(** X13. When the table shows, [get_table_data] reads the rows of the
    table body in order, or, when the body has no row, all rows of the
    table but the first, taken for the header.  Each row gives one record
    or none, so there are no more records than rows, and no field of a
    record begins or ends with a blank. *)
Theorem get_table_data_rows {Page : Type} {browser : Playwright Page}
    (p : Page) (rows : list Locator) (p2 : Page) :
  table_shows p rows p2 ->
  exists p' data,
    get_table_data p = (p', Ok data)
    /\ for_each rows read_row [] p2 = (p', Ok data)
    /\ length data <= length rows
    /\ Forall row_stripped data.
Proof.
  intros Hshows.
  destruct (read_rows_length rows p2) as (p' & data & Hrows & Hlen).
  exists p', data. rewrite (get_table_data_shown _ _ _ Hshows).
  repeat split; try done.
  destruct (get_table_data_stripped p) as (p1 & data1 & Hdata & Hstripped).
  rewrite (get_table_data_shown _ _ _ Hshows), Hrows in Hdata.
  by injection Hdata as _ <-.
Qed.

(** On the ragged table three rows are read and two records are made. *)
Lemma get_table_data_rows_witness :
  table_shows (browser := Mock.playwright Tables.ragged) Mock.start
    (map (Nth (Css "tbody tr")) (seq 0 3)) Mock.start
  /\ exists p' data,
       get_table_data (browser := Mock.playwright Tables.ragged) Mock.start
       = (p', Ok data)
       /\ for_each (map (Nth (Css "tbody tr")) (seq 0 3))
            (read_row (browser := Mock.playwright Tables.ragged)) [] Mock.start
          = (p', Ok data)
       /\ length data <= length (map (Nth (Css "tbody tr")) (seq 0 3))
       /\ Forall row_stripped data.
Proof.
  assert (Hshows : table_shows (browser := Mock.playwright Tables.ragged) Mock.start
            (map (Nth (Css "tbody tr")) (seq 0 3)) Mock.start).
  { eapply body_rows; reflexivity. }
  split; [exact Hshows|].
  exact (get_table_data_rows (browser := Mock.playwright Tables.ragged)
           Mock.start _ Mock.start Hshows).
Defined.

Example table_data_on_ragged_site :
  snd (get_table_data (browser := Mock.playwright Tables.ragged) Mock.start)
  = Ok [mkRow "Shop 2" "C2" "Dhaka" "Uttara" "House" "North" "Point"; Sites.row "3"].
Proof. reflexivity. Qed.

(** X14. When the table does not show, because the wait for it or the
    count of its rows raises, [get_table_data] returns the empty list, as
    for a table without rows, and leaves the page as the failing call left
    it. *)
Theorem get_table_data_no_table {Page : Type} {browser : Playwright Page}
    (p p' : Page) :
  table_fails p p' -> get_table_data p = (p', Ok []).
Proof.
  intros Hfails. unfold get_table_data.
  erewrite try_except_raise; [reflexivity|].
  destruct Hfails as [p0 Hwait Htable | p0 p1 Hwait Htable Hcount
                      | p0 p1 p2 Hwait Htable Hcount Hall];
    rewrite (bind_ok _ _ _ _ _ Hwait).
  - by rewrite (bind_raise _ _ _ _ Htable).
  - rewrite (bind_ok _ _ _ _ _ Htable). unfold all.
    unfold bind at 1. unfold bind at 1. by rewrite Hcount.
  - rewrite (bind_ok _ _ _ _ _ Htable). unfold all.
    unfold bind at 1. unfold bind at 1. rewrite Hcount. unfold ret at 1.
    cbn [seq map]. unfold bind, ret. by rewrite Hall.
Qed.

(** On the page where every call raises, the wait for the table raises. *)
Lemma get_table_data_no_table_witness :
  table_fails (browser := Tables.dead) tt tt
  /\ get_table_data (browser := Tables.dead) tt = (tt, Ok []).
Proof.
  assert (Hfails : table_fails (browser := Tables.dead) tt tt).
  { eapply table_wait_fails; reflexivity. }
  split; [exact Hfails|].
  exact (get_table_data_no_table (browser := Tables.dead) tt tt Hfails).
Defined.

(** ** The key of a row *)

(** X15. The key under which the collectors remember a row, [str(row)],
    is the same for two rows exactly when the rows are equal in all
    seven fields: dropping the rows whose key was seen drops the rows
    that were seen, and no other. *)
Theorem str_row_key (r1 r2 : Row) :
  str_row r1 = str_row r2 <-> r1 = r2.
Proof.
  split.
  - apply str_row_inj.
  - intros Heq. by rewrite Heq.
Qed.

(** ** From the collector to the verifier *)

Lemma filter_length_all {A : Type} (f : A -> bool) (l : list A) :
  length (List.filter f l) = length l <-> Forall (fun x => f x = true) l.
Proof.
  induction l as [|x l IH]; cbn [List.filter]; [by split|].
  pose proof (filter_length_mono f (fun _ => true) l (fun _ _ => eq_refl)) as Hle.
  assert (Hall : length (List.filter (fun _ : A => true) l) = length l).
  { clear. induction l as [|y l IH]; cbn; [done | by rewrite IH]. }
  rewrite Forall_cons. destruct (f x) eqn:Hx; cbn [length].
  - rewrite <- IH. split; [intros [= ?]; by split | intros [_ ->]; done].
  - split; [lia | by intros [? _]].
Qed.

Lemma invalid_records_nil (data : list Row) (filters : list (string * string)) :
  invalid_records (verify_filters data filters) = []
  <-> Forall (fun r => forallb (item_ok r) filters = true) data.
Proof.
  rewrite verify_filters_unfold. cbn [invalid_records].
  rewrite <- filter_length_all.
  pose proof (filter_split_length (fun r => forallb (item_ok r) filters) data) as Hsplit.
  split.
  - intros Hnil%(f_equal (@length _)). rewrite length_map in Hnil.
    cbn [length] in Hnil. lia.
  - intros Hall. destruct (List.filter (fun r => negb _) data) eqn:Hbad; [done|].
    cbn [length] in Hsplit. lia.
Qed.

Lemma compliance_full (data : list Row) (c : FilterChain) :
  (forall k e, filter_compliance (verify_filters data (Chain_items c)) !! k = Some e ->
     compliant e = total e)
  <-> Forall
        (fun r =>
           forallb (fun item => field_compliant (snd item) (Row_get r (fst item) ""))
             (Chain_items c) = true)
        data.
Proof.
  destruct c as [region area distributor territory point]. split.
  - intros Hfull.
    pose proof (Hfull "region" _ (filter_compliance_lookup data _ _)) as Hregion.
    pose proof (Hfull "area" _ (filter_compliance_lookup data _ _)) as Harea.
    pose proof (Hfull "distributor" _ (filter_compliance_lookup data _ _)) as Hdistributor.
    pose proof (Hfull "territory" _ (filter_compliance_lookup data _ _)) as Hterritory.
    pose proof (Hfull "point" _ (filter_compliance_lookup data _ _)) as Hpoint.
    cbn [compliant total c_region c_area c_distributor c_territory c_point] in *.
    apply filter_length_all in Hregion, Harea, Hdistributor, Hterritory, Hpoint.
    rewrite Forall_forall in *. intros r Hr.
    cbn [forallb Chain_items fst snd c_region c_area c_distributor c_territory c_point].
    rewrite (Hregion r Hr), (Harea r Hr), (Hdistributor r Hr), (Hterritory r Hr),
      (Hpoint r Hr). done.
  - intros Hall k e. rewrite filter_compliance_lookup.
    destruct (Dict.get filter_mapping k) as [field|] eqn:Hk; [|done].
    destruct (Dict.get (Chain_items _) k) as [v|] eqn:Hv; [|done].
    cbv zeta. intros [= <-]. cbn [compliant total].
    apply filter_length_all. rewrite Forall_forall in *. intros r Hr.
    specialize (Hall r Hr). rewrite forallb_forall in Hall.
    apply dict_get_In in Hv, Hk. specialize (Hall _ Hv). cbn [fst snd] in Hall.
    assert (field = k) as ->; [|done].
    unfold filter_mapping in Hk.
    repeat (destruct Hk as [Hk | Hk]; [by injection Hk as <- <-|]). done.
Qed.

(** X16. On the records the sampled collector returns, whose fields have
    no blank at their ends, the two tests of the verifier agree: a record
    is valid exactly when it passes, in each of the five dimensions, the
    test of the compliance table.  So for a filter chain no record is
    invalid exactly when every entry of the table has all records
    compliant. *)
Theorem sampled_data_validity {Page : Type} {browser : Playwright Page}
    (p p' : Page) (data : list Row) (c : FilterChain) :
  get_first_and_last_page_data p = (p', Ok data) ->
  let res := verify_filters data (Chain_items c) in
  valid_records res
  = length (List.filter
              (fun r =>
                 forallb (fun item => field_compliant (snd item) (Row_get r (fst item) ""))
                   (Chain_items c))
              data)
  /\ (invalid_records res = []
      <-> forall k e, filter_compliance res !! k = Some e -> compliant e = total e).
Proof.
  intros Hdata res.
  assert (Hstripped : Forall row_stripped data).
  { destruct (get_first_and_last_page_data_stripped p) as (p1 & data1 & Hp & Hs).
    rewrite Hdata in Hp. by injection Hp as _ <-. }
  assert (Hsame : forall r, r ∈ data ->
            forallb (item_ok r) (Chain_items c)
            = forallb (fun item => field_compliant (snd item) (Row_get r (fst item) ""))
                (Chain_items c)).
  { rewrite Forall_forall in Hstripped. intros r Hr.
    rewrite item_ok_chain. by apply chain_valid_stripped, Hstripped. }
  split.
  - unfold res. rewrite verify_filters_unfold. cbn [valid_records]. f_equal.
    apply filter_ext_in. intros r Hr%list_elem_of_In. by apply Hsame.
  - unfold res. rewrite invalid_records_nil, compliance_full, !Forall_forall.
    split; intros Hall r Hr; [rewrite <- Hsame | rewrite Hsame]; auto.
Qed.

(** On the site with numbered buttons, the four records collected are
    valid for the chain of their values. *)
Lemma sampled_data_validity_witness :
  let data := [Sites.row "1"; Sites.row "2"; Sites.row "3"; Sites.row "4"] in
  let c := mkChain "Dhaka" "Uttara" "House" "North" "Point" in
  let res := verify_filters data (Chain_items c) in
  snd (get_first_and_last_page_data (browser := Mock.playwright Sites.numbered)
         Mock.start) = Ok data
  /\ valid_records res = 4
  /\ (invalid_records res = []
      <-> forall k e, filter_compliance res !! k = Some e -> compliant e = total e).
Proof.
  intros data c res. split; [vm_compute; reflexivity|].
  destruct (get_first_and_last_page_data (browser := Mock.playwright Sites.numbered)
              Mock.start) as [p' out] eqn:Hrun.
  assert (Hout : out = Ok data).
  { apply (f_equal snd) in Hrun. cbn [snd] in Hrun. rewrite <- Hrun.
    vm_compute. reflexivity. }
  subst out.
  destruct (sampled_data_validity (browser := Mock.playwright Sites.numbered)
              Mock.start p' data c Hrun) as [Hvalid Hiff].
  split; [|exact Hiff].
  unfold res. rewrite Hvalid. vm_compute. reflexivity.
Defined.

(** ** The fuel of the exhaustive collector *)

Section Fuel.

Context {Page : Type} {browser : Playwright Page}.

Lemma pagination_loop_more fuel k st p p' out :
  pagination_loop fuel st p = (p', out) -> out <> Ok None ->
  pagination_loop (fuel + k) st p = (p', out).
Proof.
  revert st p. induction fuel as [|fuel IH]; intros st p.
  - cbn [pagination_loop]. unfold ret. by intros [= <- <-].
  - cbn [Nat.add pagination_loop]. cbv zeta. unfold bind.
    destruct (try_next_button _ _ p) as [p1 [[[all' seen']|]|]]; [by apply IH | | done].
    destruct (numbered_pagination _ p1) as [p2 [st'|]]; [|done].
    destruct (moved_to_next st'); [by apply IH | done].
Qed.

End Fuel.



(** ** The chains come in the order of the options, each once *)

Lemma grouped_NoDup key keys chains :
  NoDup keys -> grouped key keys chains -> NoDup chains.
Proof.
  intros Hkeys (blocks & -> & Hblocks).
  induction Hblocks as [|k block keys blocks [Hk Hblock] Hrest IH]; cbn [concat].
  - constructor.
  - apply NoDup_cons in Hkeys as [Hnew Hkeys]. apply NoDup_app.
    split; [done|]. split; [|by apply IH].
    intros c Hc Hc'. rewrite Forall_forall in Hk. specialize (Hk c Hc).
    apply Hnew. clear IH Hkeys Hnew Hblock Hc.
    induction Hrest as [|k' block' keys blocks [Hk' _] Hrest IH]; cbn [concat] in Hc'.
    + by apply elem_of_nil in Hc'.
    + apply elem_of_app in Hc' as [Hc' | Hc'].
      * rewrite Forall_forall in Hk'. rewrite <- Hk, (Hk' c Hc'). by left.
      * right. by apply IH.
Qed.

Lemma appended_refl P cc : appended P cc cc.
Proof. exists []. rewrite app_nil_r. split; [done|]. split; constructor. Qed.

Lemma appended_impl (P Q : FilterChain -> Prop) cc cc' :
  (forall c, P c -> Q c) -> appended P cc cc' -> appended Q cc cc'.
Proof.
  intros HPQ (extra & -> & HP & Hnd). exists extra. split; [done|].
  split; [|done]. eapply Forall_impl; [exact HP | exact HPQ].
Qed.

Section Order.

Context {Page : Type} {browser : Playwright Page}.

Variable LIMITS : FilterLimits.

(** A loop over keys whose body appends, for its key, distinct chains
    with that key: the loop appends one block for each key. *)
Lemma for_each_grouped (P : FilterChain -> Prop) key
    (body : string -> list FilterChain -> M Page (list FilterChain)) keys cc :
  (forall k cc, k ∈ keys ->
     returns (body k cc) (appended (fun c => P c /\ key c = k) cc)) ->
  returns (for_each keys body cc)
    (fun cc' => exists extra,
       cc' = cc ++ extra /\ Forall P extra /\ grouped key keys extra).
Proof.
  revert cc. induction keys as [|k keys IH]; intros cc Hbody; cbn [for_each].
  - apply returns_ret. exists []. rewrite app_nil_r. split; [done|].
    split; [constructor|]. exists []. split; [done | constructor].
  - eapply returns_bind; [apply Hbody; by left|].
    intros cc1 (block & -> & Hk & Hblock).
    eapply returns_weaken; [apply IH; intros; apply Hbody; by right|].
    intros cc' (extra & -> & HP & blocks & -> & Hblocks).
    exists (block ++ concat blocks). rewrite app_assoc. split; [done|]. split.
    + apply Forall_app. split; [|done].
      eapply Forall_impl; [exact Hk | by intros c [? _]].
    + exists (block :: blocks). split; [done|]. constructor; [|done].
      split; [|done]. eapply Forall_impl; [exact Hk | by intros c [_ ?]].
Qed.

Lemma for_each_appended (P : FilterChain -> Prop) key
    (body : string -> list FilterChain -> M Page (list FilterChain)) keys cc :
  NoDup keys ->
  (forall k cc, k ∈ keys ->
     returns (body k cc) (appended (fun c => P c /\ key c = k) cc)) ->
  returns (for_each keys body cc) (appended P cc).
Proof.
  intros Hkeys Hbody. eapply returns_weaken; [by apply for_each_grouped|].
  intros cc' (extra & -> & HP & Hgrouped). exists extra. split; [done|].
  split; [done|]. by eapply grouped_NoDup.
Qed.

(** The options of a query, cut by the limit, are distinct. *)
Lemma query_distinct name limit :
  returns (get_dropdown_options name)
    (fun options => NoDup (apply_limit limit options)).
Proof.
  eapply returns_weaken; [apply get_dropdown_options_returns|].
  intros options [_ Hnd].
  exact (sublist_NoDup _ _ Hnd (apply_limit_sublist limit options)).
Qed.

Lemma point_loop region area distributor territory points cc :
  returns (Page := Page)
    (for_each points (point_body region area distributor territory) cc)
    (fun cc' => cc' = cc ++ map (mkChain region area distributor territory) points).
Proof.
  revert cc. induction points as [|point points IH]; intros cc; cbn [for_each map].
  - apply returns_ret. by rewrite app_nil_r.
  - unfold point_body at 1.
    eapply (returns_bind _ _
              (fun cc1 => cc1 = cc ++ [mkChain region area distributor territory point]));
      [by apply returns_ret|].
    intros cc1 ->. eapply returns_weaken; [apply IH|].
    intros cc' ->. by rewrite <- app_assoc.
Qed.

(** One pass through a loop body up to its query. *)
Ltac enter :=
  eapply returns_bind; [apply clear_all_filters_returns | intros _ _];
  repeat
    (eapply returns_bind;
       [apply select_dropdown_option_returns
       | intros [] _; cbn [negb]; [| by apply returns_ret, appended_refl];
         eapply returns_bind; [apply wait_for_loading_returns | intros _ _]]).

Lemma territory_body_appends region area distributor territory cc :
  returns (territory_body LIMITS region area distributor territory cc)
    (appended
       (fun c => (c_region c = region /\ c_area c = area
                  /\ c_distributor c = distributor)
                 /\ c_territory c = territory) cc).
Proof.
  unfold territory_body. enter.
  eapply returns_bind; [apply (query_distinct _ (lim_point LIMITS))|].
  intros points Hpoints. cbv zeta.
  eapply returns_weaken; [apply point_loop|]. intros cc' ->.
  eexists. split; [done|]. split.
  - apply Forall_forall. intros c (point & -> & _)%list_elem_of_fmap. done.
  - assert (Hinj : Inj eq eq (mkChain region area distributor territory)).
    { by intros x y [= ->]. }
    by apply (NoDup_fmap_2 _).
Qed.

Lemma distributor_body_appends region area distributor cc :
  returns (distributor_body LIMITS region area distributor cc)
    (appended
       (fun c => (c_region c = region /\ c_area c = area)
                 /\ c_distributor c = distributor) cc).
Proof.
  unfold distributor_body. enter.
  eapply returns_bind; [apply (query_distinct _ (lim_territory LIMITS))|].
  intros territories Hterritories. cbv zeta.
  eapply returns_weaken.
  - apply (for_each_appended
             (fun c => c_region c = region /\ c_area c = area
                       /\ c_distributor c = distributor) c_territory); [done|].
    intros territory cc' _. apply territory_body_appends.
  - intros cc'. apply appended_impl. intros c. tauto.
Qed.

Lemma area_body_appends region area cc :
  returns (area_body LIMITS region area cc)
    (appended (fun c => c_region c = region /\ c_area c = area) cc).
Proof.
  unfold area_body. enter.
  eapply returns_bind; [apply (query_distinct _ (lim_distributor LIMITS))|].
  intros distributors Hdistributors. cbv zeta.
  apply (for_each_appended
           (fun c => c_region c = region /\ c_area c = area) c_distributor); [done|].
  intros distributor cc' _. apply distributor_body_appends.
Qed.

Lemma region_body_appends region cc :
  returns (region_body LIMITS region cc)
    (appended (fun c => True /\ c_region c = region) cc).
Proof.
  unfold region_body. enter.
  eapply returns_bind; [apply (query_distinct _ (lim_area LIMITS))|].
  intros areas Hareas. cbv zeta.
  eapply returns_weaken.
  - apply (for_each_appended (fun c => c_region c = region) c_area); [done|].
    intros area cc' _. apply area_body_appends.
  - intros cc'. apply appended_impl. intros c. tauto.
Qed.

Lemma region_loop_grouped regions :
  returns (for_each regions (region_body LIMITS) [])
    (grouped c_region regions).
Proof.
  eapply returns_weaken.
  - apply (for_each_grouped (fun _ => True) c_region).
    intros region cc _. apply region_body_appends.
  - by intros cc' (extra & -> & _ & Hgrouped).
Qed.

End Order.

(** X18. The explorer returns no chain twice: the options of a dropdown
    are distinct, each loop appends to the chains built before, and the
    chains a pass appends carry the values of the loops around it. *)
Theorem explorer_chains_distinct {Page : Type} {browser : Playwright Page}
    (LIMITS : FilterLimits) :
  returns (build_complete_filter_chains LIMITS) (fun chains => NoDup chains).
Proof.
  unfold build_complete_filter_chains.
  eapply returns_bind; [apply clear_all_filters_returns | intros _ _].
  eapply returns_bind; [apply (query_distinct _ (lim_region LIMITS))|].
  intros regions Hregions. cbv zeta. cbv beta in Hregions.
  destruct (apply_limit (lim_region LIMITS) regions) as [|region rest].
  - apply returns_ret. constructor.
  - eapply returns_weaken; [apply region_loop_grouped|].
    intros chains Hgrouped. exact (grouped_NoDup _ _ _ Hregions Hgrouped).
Qed.



Example explorer_on_fixed_site :
  map c_region
    (match snd (build_complete_filter_chains
                  (browser := Mock.playwright Sites.overlap) FILTER_LIMITS Mock.start)
     with Ok chains => chains | Raise => [] end)
  = ["Dhaka"; "Dhaka"; "Sylhet"; "Sylhet"; "Khulna"; "Khulna"].
Proof. vm_compute. reflexivity. Qed.

(** ** Applying a chain *)

Section RunFacts.

Context {Page : Type} {browser : Playwright Page} {session : Session Page}.

Lemma apply_filter_true name value p p1 p2 :
  select_dropdown_option name value p = (p1, Ok true) ->
  wait_for_loading p1 = (p2, Ok tt) ->
  apply_filter true name value p = (p2, Ok true).
Proof.
  intros Hsel Hwait. unfold apply_filter. rewrite (bind_ok _ _ _ _ _ Hsel).
  cbn [andb]. by rewrite (bind_ok _ _ _ _ _ Hwait).
Qed.

Lemma apply_filter_false name value p p1 :
  select_dropdown_option name value p = (p1, Ok false) ->
  apply_filter true name value p = (p1, Ok false).
Proof.
  intros Hsel. unfold apply_filter. by rewrite (bind_ok _ _ _ _ _ Hsel).
Qed.

(** A selection returns, with [True] and then the wait, or with [False]. *)
Lemma apply_filter_cases name value p :
  (exists p1, select_dropdown_option name value p = (p1, Ok false)
              /\ apply_filter true name value p = (p1, Ok false))
  \/ (exists p1 p2, select_dropdown_option name value p = (p1, Ok true)
                    /\ wait_for_loading p1 = (p2, Ok tt)
                    /\ apply_filter true name value p = (p2, Ok true)).
Proof.
  destruct (select_dropdown_option_returns name value p) as (p1 & [] & Hsel & _).
  - right. destruct (wait_for_loading_ok p1) as [p2 Hwait].
    exists p1, p2. split; [done|]. split; [done|]. by apply (apply_filter_true _ _ _ p1).
  - left. exists p1. split; [done|]. by apply apply_filter_false.
Qed.

Lemma apply_chain_fails chain p p' :
  selection_fails (chain_selections chain) p p' ->
  apply_chain chain p = (p', Ok false).
Proof.
  unfold chain_selections, apply_chain. cbv zeta. intros H.
  repeat
    (inversion H as [? ? ? ? ? Hsel | ? ? ? ? ? ? ? Hsel Hwait Hrest]; subst; clear H;
     [ first [ by rewrite (bind_ok _ _ _ _ _ (apply_filter_false _ _ _ _ Hsel))
             | by apply apply_filter_false ]
     | first [ rewrite (bind_ok _ _ _ _ _ (apply_filter_true _ _ _ _ _ Hsel Hwait))
             | idtac ];
       clear Hsel Hwait; rename Hrest into H ]).
  inversion H.
Qed.

Lemma apply_chain_succeeds chain p p' :
  selection_succeeds (chain_selections chain) p p' ->
  apply_chain chain p = (p', Ok true).
Proof.
  unfold chain_selections, apply_chain. cbv zeta. intros H.
  do 4 (inversion H as [|? ? ? ? ? ? ? Hsel Hwait Hrest]; subst; clear H;
        rewrite (bind_ok _ _ _ _ _ (apply_filter_true _ _ _ _ _ Hsel Hwait));
        clear Hsel Hwait; rename Hrest into H).
  inversion H as [|? ? ? ? ? ? ? Hsel Hwait Hrest]; subst; clear H.
  inversion Hrest; subst. eapply apply_filter_true; eassumption.
Qed.

(** The selections of a chain fail at some place or succeed all. *)
Lemma selections_cases (selections : list (string * string)) p :
  (exists p', selection_fails selections p p')
  \/ (exists p', selection_succeeds selections p p').
Proof.
  revert p. induction selections as [|[name value] rest IH]; intros p.
  - right. exists p. constructor.
  - destruct (apply_filter_cases name value p)
      as [(p1 & Hsel & _) | (p1 & p2 & Hsel & Hwait & _)].
    + left. exists p1. by apply fails_here.
    + destruct (IH p2) as [[p' Hfails] | [p' Hsucceeds]].
      * left. exists p'. by eapply fails_later.
      * right. exists p'. by eapply succeeds_cons.
Qed.

Lemma apply_chain_ok chain p : exists p' success, apply_chain chain p = (p', Ok success).
Proof.
  destruct (selections_cases (chain_selections chain) p)
    as [[p' Hfails] | [p' Hsucceeds]].
  - exists p', false. by apply apply_chain_fails.
  - exists p', true. by apply apply_chain_succeeds.
Qed.

Lemma get_first_and_last_page_data_ok p :
  exists p' data,
    get_first_and_last_page_data p = (p', Ok data) /\ Forall row_stripped data.
Proof. apply get_first_and_last_page_data_stripped. Qed.

End RunFacts.

(** X20. One test of the run.  After the filters are cleared, the five
    values of the chain are selected in order.  When a selection returns
    [False] the test is dropped: no later value is selected, no record
    is read and [results] stays as it was.  When all five succeed, the
    records of the first and the last page are collected and one result
    is added: the chain, the number of records and their verification
    against the chain. *)
Theorem test_chain_outcome {Page : Type} {browser : Playwright Page}
    (chain : FilterChain) (results : list TestResult) (p p0 : Page) :
  clear_all_filters p = (p0, Ok tt) ->
  (forall p', selection_fails (chain_selections chain) p0 p' ->
     test_chain chain results p = (p', Ok results))
  /\ (forall p1, selection_succeeds (chain_selections chain) p0 p1 ->
        exists p2 p3 all_data,
          wait_for_loading p1 = (p2, Ok tt)
          /\ get_first_and_last_page_data p2 = (p3, Ok all_data)
          /\ test_chain chain results p
             = (p3, Ok (results
                        ++ [mkTest chain (length all_data)
                              (verify_filters all_data (Chain_items chain))]))).
Proof.
  intros Hclear. split.
  - intros p' Hfails. unfold test_chain.
    rewrite (bind_ok _ _ _ _ _ Hclear).
    by rewrite (bind_ok _ _ _ _ _ (apply_chain_fails _ _ _ Hfails)).
  - intros p1 Hsucceeds.
    destruct (wait_for_loading_ok p1) as [p2 Hwait].
    destruct (get_first_and_last_page_data_ok p2) as (p3 & all_data & Hdata & _).
    exists p2, p3, all_data. split; [done|]. split; [done|].
    unfold test_chain. rewrite (bind_ok _ _ _ _ _ Hclear).
    rewrite (bind_ok _ _ _ _ _ (apply_chain_succeeds _ _ _ Hsucceeds)).
    cbn [negb]. rewrite (bind_ok _ _ _ _ _ Hwait).
    by rewrite (bind_ok _ _ _ _ _ Hdata).
Qed.

(** On the site where the click on the point raises, the test of a
    chain is dropped at the fifth selection. *)
Lemma test_chain_outcome_witness :
  let chain := mkChain "Dhaka" "Uttara" "House" "North" "Point" in
  clear_all_filters (browser := Mock.playwright Runs.point_broken) Mock.start
  = (Mock.start, Ok tt)
  /\ (exists p', selection_fails (browser := Mock.playwright Runs.point_broken)
                   (chain_selections chain) Mock.start p')
  /\ snd (test_chain (browser := Mock.playwright Runs.point_broken)
            chain [] Mock.start) = Ok [].
Proof.
  intros chain. split; [reflexivity|].
  assert (Hfails : selection_fails (browser := Mock.playwright Runs.point_broken)
            (chain_selections chain) Mock.start
            (Mock.mkState None
               [("Filter by Region", "Dhaka"); ("Filter by Area", "Uttara");
                ("Filter by Distribution house", "House");
                ("Filter by Territory", "North")] 0)).
  { unfold chain_selections, chain. cbn [c_region c_area c_distributor c_territory c_point].
    do 4 (eapply fails_later; [vm_compute; reflexivity | vm_compute; reflexivity |]).
    apply fails_here. vm_compute. reflexivity. }
  split; [by eexists|].
  by rewrite (proj1 (test_chain_outcome (browser := Mock.playwright Runs.point_broken)
                       chain [] Mock.start Mock.start eq_refl) _ Hfails).
Defined.

(** ** The results of the run *)

Lemma chain_table_keys (data : list Row) (c : FilterChain) (k : string) :
  is_Some (filter_compliance (verify_filters data (Chain_items c)) !! k)
  <-> k ∈ dimensions.
Proof.
  rewrite filter_compliance_lookup.
  change dimensions with (Dict.keys filter_mapping) at 1.
  pose proof (dict_get_keys filter_mapping k) as Hmapping.
  pose proof (dict_get_keys (Chain_items c) k) as Hchain.
  change (Dict.keys (Chain_items c)) with (Dict.keys filter_mapping) in Hchain.
  destruct (Dict.get filter_mapping k) as [field|].
  - destruct (Dict.get (Chain_items c) k) as [v|].
    + cbv zeta. split; [intros _; by apply Hmapping | by eexists].
    + split; [by intros [? ?]|]. intros Hk%Hchain. by destruct Hk.
  - split; [by intros [? ?]|]. intros Hk%Hmapping. by destruct Hk.
Qed.

Lemma verified_consistent (chain : FilterChain) (all_data : list Row) :
  result_consistent
    (mkTest chain (length all_data) (verify_filters all_data (Chain_items chain))).
Proof.
  unfold result_consistent. cbn [verification data_count].
  split; [|split].
  - by rewrite verify_filters_unfold.
  - rewrite verify_filters_unfold. cbn [valid_records invalid_records].
    rewrite length_map. apply filter_split_length.
  - intros k. apply chain_table_keys.
Qed.

Section Results.

Context {Page : Type} {browser : Playwright Page}.

Lemma test_chain_cases c results p :
  (exists p', test_chain c results p = (p', Ok results))
  \/ (exists p' all_data,
        test_chain c results p
        = (p', Ok (results
                   ++ [mkTest c (length all_data)
                         (verify_filters all_data (Chain_items c))]))).
Proof.
  destruct (clear_all_filters_ok p) as [p0 Hclear]. unfold test_chain.
  rewrite (bind_ok _ _ _ _ _ Hclear).
  destruct (selections_cases (chain_selections c) p0)
    as [[p1 Hfails] | [p1 Hsucceeds]].
  - left. exists p1. by rewrite (bind_ok _ _ _ _ _ (apply_chain_fails _ _ _ Hfails)).
  - right. rewrite (bind_ok _ _ _ _ _ (apply_chain_succeeds _ _ _ Hsucceeds)).
    cbn [negb]. destruct (wait_for_loading_ok p1) as [p2 Hwait].
    destruct (get_first_and_last_page_data_ok p2) as (p3 & all_data & Hdata & _).
    exists p3, all_data. rewrite (bind_ok _ _ _ _ _ Hwait).
    by rewrite (bind_ok _ _ _ _ _ Hdata).
Qed.

Lemma test_chain_step c results :
  returns (test_chain c results)
    (fun results' =>
       results' = results
       \/ exists r, results' = results ++ [r]
                    /\ chain r = c /\ result_consistent r).
Proof.
  intros p.
  destruct (test_chain_cases c results p)
    as [(p' & Hrun) | (p' & all_data & Hrun)]; rewrite Hrun.
  - exists p', results. split; [done | by left].
  - eexists p', _. split; [done|]. right. eexists. split; [done|].
    split; [done | apply verified_consistent].
Qed.

Lemma test_loop_results chains results :
  returns (for_each chains test_chain results)
    (fun results' =>
       exists new,
         results' = results ++ new
         /\ map chain new `sublist_of` chains
         /\ Forall result_consistent new).
Proof.
  revert results. induction chains as [|c chains IH]; intros results; cbn [for_each].
  - apply returns_ret. exists []. rewrite app_nil_r. split; [done|].
    split; [done | constructor].
  - eapply returns_bind; [apply test_chain_step|].
    intros results1 [-> | (r & -> & Hr & Hconsistent)].
    + eapply returns_weaken; [apply IH|].
      intros results' (new & -> & Hsub & Hall). exists new. split; [done|].
      split; [by apply sublist_cons | done].
    + eapply returns_weaken; [apply IH|].
      intros results' (new & -> & Hsub & Hall). exists (r :: new).
      rewrite <- app_assoc. split; [done|]. cbn [map]. rewrite Hr.
      split; [by apply sublist_skip | by constructor].
Qed.

End Results.

(** X21. The results of the run follow the chains: the chains of the
    results are chains of the explorer, in the same order, without those
    whose test was dropped.  In each result the count is the number of
    records verified, each record is counted as valid or listed as
    invalid, and the compliance table has an entry for each of the five
    dimensions and no other. *)
Theorem test_results_consistent {Page : Type} {browser : Playwright Page}
    (complete_chains : list FilterChain) :
  returns (for_each complete_chains test_chain [])
    (fun results =>
       map chain results `sublist_of` complete_chains
       /\ length results <= length complete_chains
       /\ Forall result_consistent results).
Proof.
  eapply returns_weaken; [apply test_loop_results|].
  intros results (new & -> & Hsub & Hall). cbn [app].
  split; [done|]. split; [|done].
  apply sublist_length in Hsub. by rewrite length_map in Hsub.
Qed.

(** ** The summary *)

Lemma count_ones {A : Type} (l : list A) : list_sum (map (fun _ => 1) l) = length l.
Proof. induction l as [|x l IH]; simpl; [done | by rewrite IH]. Qed.

Lemma some_invalid_negb r : some_invalid r = negb (no_invalid r).
Proof.
  unfold some_invalid, no_invalid.
  by destruct (length (invalid_records (verification r))).
Qed.

Lemma summary_ok {Page : Type} (results : list TestResult) (p : Page) :
  results <> [] -> exists s, summary results p = (p, Ok s).
Proof.
  intros Hresults. destruct results as [|r0 results]; [done|].
  unfold summary. cbv zeta. change (length (r0 :: results) =? 0) with false.
  cbv iota. unfold bind, ret. by eexists.
Qed.

(** X22. The summary of the run.  Without results the success rate is
    a division by zero, which raises.  With results, the passed tests
    are the results without invalid record, the failed tests are the
    others, and the two counts add up to the number of results; a result
    for which no record was collected counts as passed. *)
Theorem summary_counts {Page : Type} (results : list TestResult) (p : Page) :
  (results = [] -> summary results p = (p, Raise))
  /\ (results <> [] ->
      exists s,
        summary results p = (p, Ok s)
        /\ total_tests s = length results
        /\ passed_tests s = length (successful_tests s)
        /\ failed_count s = Z.of_nat (length (failed_tests s))
        /\ passed_tests s + length (failed_tests s) = total_tests s
        /\ successful_tests s = List.filter no_invalid results
        /\ failed_tests s = List.filter (fun r => negb (no_invalid r)) results
        /\ forall r, r ∈ results -> result_consistent r -> data_count r = 0 ->
             r ∈ successful_tests s).
Proof.
  split.
  - intros ->. reflexivity.
  - intros Hresults. unfold summary. cbv zeta.
    destruct results as [|r0 results]; [done|].
    set (all := r0 :: results).
    change (length all =? 0) with false. cbv iota.
    unfold bind, ret. eexists. split; [reflexivity|].
    cbn [total_tests passed_tests failed_count failed_tests successful_tests].
    rewrite count_ones.
    assert (Hfailed : List.filter some_invalid all
                      = List.filter (fun r => negb (no_invalid r)) all).
    { apply filter_ext_list, some_invalid_negb. }
    rewrite Hfailed.
    pose proof (filter_split_length no_invalid all) as Hsplit.
    repeat split; try done; try lia.
    intros r Hr (Hcount & Hsum & _) Hnone.
    apply list_elem_of_In, filter_In. split; [by apply list_elem_of_In|].
    unfold no_invalid. apply Nat.eqb_eq. lia.
Qed.

Example summary_of_empty_data :
  no_invalid (mkTest (mkChain "Dhaka" "Uttara" "House" "North" "Point") 0
                (verify_filters [] (Chain_items
                                      (mkChain "Dhaka" "Uttara" "House" "North" "Point"))))
  = true.
Proof. reflexivity. Qed.

(** ** The run *)

Section RunOutcomes.

Context {Page : Type} {browser : Playwright Page} {session : Session Page}.

Lemma guarded_ok (m : M Page unit) p :
  exists p', try_except m (ret tt) p = (p', Ok tt).
Proof. destruct (swallow_returns m p) as (p' & [] & Hp & _). eauto. Qed.

End RunOutcomes.

(** X23. The outcomes of the [try] block of the run, once the login went
    through and the explorer returned its chains.  Without chains the
    block returns early.  With chains, each is tested, and the block ends
    with the summary of the results; when every test was dropped there
    is no result, and the block ends with the exception of the division
    by zero. *)
Theorem run_tests_outcomes {Page : Type} {browser : Playwright Page}
    {session : Session Page} (p p1 p2 : Page) (complete_chains : list FilterChain) :
  login p = (p1, Ok tt) ->
  build_complete_filter_chains FILTER_LIMITS p1 = (p2, Ok complete_chains) ->
  (complete_chains = [] -> run_tests p = (p2, Ok None))
  /\ (complete_chains <> [] ->
      exists p3 results,
        for_each complete_chains test_chain [] p2 = (p3, Ok results)
        /\ (results = [] -> run_tests p = (p3, Raise))
        /\ (results <> [] ->
            exists s, run_tests p = (p3, Ok (Some s))
                      /\ summary results p3 = (p3, Ok s))).
Proof.
  intros Hlogin Hbuild. unfold run_tests.
  rewrite (bind_ok _ _ _ _ _ Hlogin), (bind_ok _ _ _ _ _ Hbuild).
  split; [by intros ->|].
  intros Hchains. destruct complete_chains as [|c chains]; [done|].
  destruct (test_loop_results (c :: chains) [] p2) as (p3 & results & Hloop & _).
  exists p3, results. split; [done|]. rewrite (bind_ok _ _ _ _ _ Hloop).
  split.
  - intros ->. reflexivity.
  - intros Hresults.
    destruct (summary_ok results p3 Hresults) as (s & Hs).
    exists s. split; [|done]. by rewrite (bind_ok _ _ _ _ _ Hs).
Qed.

(** On the site where the click on the point raises, the explorer
    builds six chains, every test is dropped, and the block raises. *)
Lemma run_tests_outcomes_witness :
  let after :=
    Mock.mkState None
      [("Filter by Region", "Khulna"); ("Filter by Area", "Mirpur");
       ("Filter by Distribution house", "House"); ("Filter by Territory", "North")] 0 in
  let chains :=
    flat_map
      (fun region =>
         map (fun area => mkChain region area "House" "North" "Point")
           ["Uttara"; "Mirpur"])
      ["Dhaka"; "Sylhet"; "Khulna"] in
  login (browser := Mock.playwright Runs.point_broken) (session := MockRun.session)
    Mock.start = (Mock.start, Ok tt)
  /\ build_complete_filter_chains (browser := Mock.playwright Runs.point_broken)
       FILTER_LIMITS Mock.start = (after, Ok chains)
  /\ run_tests (browser := Mock.playwright Runs.point_broken)
       (session := MockRun.session) Mock.start = (after, Raise).
Proof.
  intros after chains.
  assert (Hlogin : login (browser := Mock.playwright Runs.point_broken)
                     (session := MockRun.session) Mock.start = (Mock.start, Ok tt)).
  { vm_compute. reflexivity. }
  assert (Hbuild : build_complete_filter_chains
                     (browser := Mock.playwright Runs.point_broken)
                     FILTER_LIMITS Mock.start = (after, Ok chains)).
  { vm_compute. reflexivity. }
  split; [exact Hlogin|]. split; [exact Hbuild|].
  destruct (proj2 (run_tests_outcomes (browser := Mock.playwright Runs.point_broken)
                     (session := MockRun.session)
                     Mock.start Mock.start after chains Hlogin Hbuild))
    as (p3 & results & Hloop & Hnone & _); [done|].
  assert (Hrun : for_each chains
                   (test_chain (browser := Mock.playwright Runs.point_broken)) [] after
                 = (after, Ok [])).
  { vm_compute. reflexivity. }
  rewrite Hrun in Hloop. injection Hloop as <- <-. by apply Hnone.
Defined.

(** On the site with one chain and a row of another region: one test,
    which fails. *)
Example run_on_one_chain :
  match run_tests (browser := Mock.playwright Runs.one_chain)
          (session := MockRun.session) Mock.start with
  | (_, Ok (Some s)) =>
      total_tests s = 1 /\ passed_tests s = 0 /\ failed_count s = 1%Z
      /\ map data_count (failed_tests s) = [2]
      /\ map (fun r => valid_records (verification r)) (failed_tests s) = [1]
  | _ => False
  end.
Proof. vm_compute. repeat split. Qed.


(** ** Limits below zero *)

Lemma apply_limit_negative (k : Z) (options : list string) :
  (k < 0)%Z ->
  apply_limit (Some k) options = take (length options - Z.to_nat (- k)) options.
Proof.
  intros Hk. unfold apply_limit, slice_to.
  destruct (Z.eqb_spec k 0); [lia|]. by destruct (Z.leb_spec 0 k); [lia|].
Qed.

(** X25. A limit below zero cuts from the end: with the limit [-n] the
    last [n] options of the dropdown are left out, as the slice
    [options[:-n]] does.  When the region dropdown offers no more than
    [n] regions, the explorer is left without region and returns no
    chain. *)
Theorem negative_limit_cuts_the_end {Page : Type} {browser : Playwright Page}
    (LIMITS : FilterLimits) (k : Z) (p p1 p2 : Page) (regions : list string) :
  lim_region LIMITS = Some k ->
  (k < 0)%Z ->
  clear_all_filters p = (p1, Ok tt) ->
  get_dropdown_options "Filter by Region" p1 = (p2, Ok regions) ->
  apply_limit (Some k) regions ++ drop (length regions - Z.to_nat (- k)) regions
  = regions
  /\ length (apply_limit (Some k) regions) = length regions - Z.to_nat (- k)
  /\ (length regions <= Z.to_nat (- k) ->
      build_complete_filter_chains LIMITS p = (p2, Ok [])).
Proof.
  intros Hlimit Hk Hclear Hregions.
  rewrite (apply_limit_negative _ _ Hk). split; [apply take_drop|]. split.
  - rewrite length_take. lia.
  - intros Hfew. unfold build_complete_filter_chains.
    rewrite (bind_ok _ _ _ _ _ Hclear), (bind_ok _ _ _ _ _ Hregions). cbv zeta.
    rewrite Hlimit, (apply_limit_negative _ _ Hk).
    replace (length regions - Z.to_nat (- k)) with 0 by lia. done.
Qed.

(** On the site with three regions, the limit [-3] leaves no region. *)
Lemma negative_limit_cuts_the_end_witness :
  let limits := mkLimits (Some (-3)%Z) None None None None in
  (-3 < 0)%Z
  /\ apply_limit (Some (-1)%Z) ["Dhaka"; "Sylhet"; "Khulna"] = ["Dhaka"; "Sylhet"]
  /\ build_complete_filter_chains (browser := Mock.playwright Sites.overlap)
       limits Mock.start = (Mock.start, Ok []).
Proof.
  intros limits. split; [lia|]. split; [reflexivity|].
  apply (negative_limit_cuts_the_end (browser := Mock.playwright Sites.overlap)
           limits (-3)%Z Mock.start Mock.start Mock.start
           ["Dhaka"; "Sylhet"; "Khulna"]);
    [reflexivity | lia | reflexivity | reflexivity | cbn; lia].
Defined.

(** ** The case of the letters *)

Lemma lower_char_idemp c : PyStr.lower_char (PyStr.lower_char c) = PyStr.lower_char c.
Proof. destruct c as [[] [] [] [] [] [] [] []]; reflexivity. Qed.

Lemma lower_idemp s : PyStr.lower (PyStr.lower s) = PyStr.lower s.
Proof.
  induction s as [|c s IH]; cbn [PyStr.lower]; [done|].
  by rewrite lower_char_idemp, IH.
Qed.

Lemma item_ok_case rec item1 item2 :
  fst item1 = fst item2 ->
  PyStr.lower (snd item1) = PyStr.lower (snd item2) ->
  item_ok rec item1 = item_ok rec item2.
Proof.
  intros Hkey Hvalue. unfold item_ok, field_compliant. by rewrite Hkey, Hvalue.
Qed.

Lemma forallb_item_ok_case rec filters1 filters2 :
  same_up_to_case filters1 filters2 ->
  forallb (item_ok rec) filters1 = forallb (item_ok rec) filters2.
Proof.
  induction 1 as [|item1 item2 filters1 filters2 [Hkey Hvalue] _ IH];
    cbn [forallb]; [done|].
  by rewrite IH, (item_ok_case rec item1 item2).
Qed.

Lemma dict_get_case filters1 filters2 k :
  same_up_to_case filters1 filters2 ->
  match Dict.get filters1 k, Dict.get filters2 k with
  | Some v1, Some v2 => PyStr.lower v1 = PyStr.lower v2
  | None, None => True
  | _, _ => False
  end.
Proof.
  induction 1 as [|[k1 v1] [k2 v2] filters1 filters2 [Hkey Hvalue] _ IH];
    cbn [Dict.get]; [done|].
  cbn [fst snd] in Hkey, Hvalue. subst k2.
  by destruct (String.eqb k k1).
Qed.

(** X26. The verifier does not look at the case of the letters of the
    filter values: two [filters] with the same keys whose values differ
    only in case give the same number of valid records, the same invalid
    records in the same order, and the same counts in the compliance
    table.  So does a filter value and its lower case. *)
Theorem verify_filters_ignores_case (data : list Row)
    (filters1 filters2 : list (string * string)) :
  same_up_to_case filters1 filters2 ->
  let res1 := verify_filters data filters1 in
  let res2 := verify_filters data filters2 in
  valid_records res1 = valid_records res2
  /\ map record (invalid_records res1) = map record (invalid_records res2)
  /\ (forall k,
        compliant <$> (filter_compliance res1 !! k)
        = compliant <$> (filter_compliance res2 !! k))
  /\ same_up_to_case filters1
       (map (fun item => (fst item, PyStr.lower (snd item))) filters1).
Proof.
  intros Hsame res1 res2. unfold res1, res2.
  assert (Hfilter : forall f : Row -> bool,
            (forall r, f r = forallb (item_ok r) filters1) ->
            forall r, f r = forallb (item_ok r) filters2).
  { intros f Hf r. by rewrite Hf, (forallb_item_ok_case r _ _ Hsame). }
  split; [|split; [|split]].
  - rewrite !verify_filters_unfold. cbn [valid_records]. f_equal.
    apply filter_ext_list. intros r. by apply forallb_item_ok_case.
  - rewrite !verify_filters_unfold. cbn [invalid_records].
    rewrite !map_map. cbn [record].
    rewrite (filter_ext_list (fun r => negb (forallb (item_ok r) filters1))
               (fun r => negb (forallb (item_ok r) filters2))); [done|].
    intros r. by rewrite (forallb_item_ok_case r _ _ Hsame).
  - intros k. rewrite !filter_compliance_lookup.
    pose proof (dict_get_case filters1 filters2 k Hsame) as Hget.
    destruct (Dict.get filter_mapping k) as [field|]; [|done].
    destruct (Dict.get filters1 k) as [v1|], (Dict.get filters2 k) as [v2|];
      try done.
    cbv zeta. cbn [fmap option_fmap option_map compliant]. do 2 f_equal.
    apply filter_ext_list. intros r. unfold field_compliant. by rewrite Hget.
  - clear. induction filters1 as [|item filters1 IH]; cbn [map]; constructor.
    + cbn [fst snd]. by rewrite lower_idemp.
    + exact IH.
Qed.

(** Dhaka in capitals and in small letters. *)
Lemma verify_filters_ignores_case_witness :
  same_up_to_case [("region", "DHAKA")] [("region", "dhaka")]
  /\ valid_records (verify_filters [Sites.row "1"] [("region", "DHAKA")])
     = valid_records (verify_filters [Sites.row "1"] [("region", "dhaka")])
  /\ valid_records (verify_filters [Sites.row "1"] [("region", "DHAKA")]) = 1.
Proof.
  assert (Hsame : same_up_to_case [("region", "DHAKA")] [("region", "dhaka")]).
  { repeat constructor. }
  split; [exact Hsame|]. split; [|reflexivity].
  exact (proj1 (verify_filters_ignores_case [Sites.row "1"] _ _ Hsame)).
Defined.
